(** * Strided axis reduction: DimensionOps::rrOp and its reducers

    A shallow embedding of [native/src/shared/DimensionOps_reduce.cpp].

    - [jint] is a 32-bit two's-complement integer, kept as a [Z] with the
      wrap-around written out at every arithmetic operation.
    - [jdouble] is an IEEE 754 binary64 number: Rocq's primitive [float].
    - A C array is a [list]; an access outside its bounds has no defined
      behaviour in C++, which the model records as [None] (and, at the level
      of the whole call, as the outcome [Undefined]).
    - The six scratch arrays are carved out of one allocated block.  They
      are lists of their own as long as they lie one after the other inside
      the block; a call on which they overlap or leave the block has the
      outcome [Undefined].
    - The seven Java arrays handed to [rrOp] form the state the call runs
      in; the call maps it to an outcome carrying the state it leaves. *)

From Stdlib Require Import ZArith Floats.
From Stdlib Require Import Strings.String.
From stdpp Require Import list list_numbers sorting.

Local Open Scope Z_scope.

(** ** jint arithmetic *)

Module JInt.

Definition min_value : Z := - 2 ^ 31.
Definition max_value : Z := 2 ^ 31 - 1.

Definition in_range (z : Z) : Prop := min_value ≤ z ≤ max_value.

(** Reduction of a mathematical integer to its 32-bit representative. *)
Definition wrap (z : Z) : Z := (z + 2 ^ 31) `mod` 2 ^ 32 - 2 ^ 31.

Definition add (a b : Z) : Z := wrap (a + b).
Definition sub (a b : Z) : Z := wrap (a - b).
Definition mul (a b : Z) : Z := wrap (a * b).

(** C++ [/] truncates towards zero; a zero divisor has no defined
    behaviour.  (The one quotient outside the range, that of [min_value] by
    [-1], is wrapped like the results of the other operations.) *)
Definition div (a b : Z) : option Z :=
  if decide (b = 0) then None else Some (wrap (a ÷ b)).

End JInt.

(** ** jdouble *)

Abbreviation jdouble := float (only parsing).

Global Instance jdouble_inhabited : Inhabited jdouble := populate 0%float.

(** Conversion of a [jint] to [jdouble] (exact: every 32-bit integer is a
    binary64 number). *)
Definition jdouble_of_jint (z : Z) : jdouble :=
  if decide (z < 0)
  then PrimFloat.opp (PrimFloat.of_uint63 (Uint63.of_Z (- z)))
  else PrimFloat.of_uint63 (Uint63.of_Z z).

(** [std::max<jdouble>(a, b)] is [(a < b) ? b : a]. *)
Definition std_max (a b : jdouble) : jdouble :=
  if PrimFloat.ltb a b then b else a.

(** [std::min<jdouble>(a, b)] is [(b < a) ? b : a]. *)
Definition std_min (a b : jdouble) : jdouble :=
  if PrimFloat.ltb b a then b else a.

(** ** C arrays and loops *)

(** [a[i]] as an rvalue. *)
Definition load {A} (a : list A) (i : Z) : option A :=
  if decide (0 ≤ i) then a !! Z.to_nat i else None.

(** [a[i] = x]. *)
Definition store {A} (a : list A) (i : Z) (x : A) : option (list A) :=
  if decide (0 ≤ i < Z.of_nat (length a))
  then Some (<[Z.to_nat i := x]> a)
  else None.

(** A cell of scratch memory: [None] until it is first written. *)
Definition cell : Type := option Z.

(** [a[i]] on scratch memory; reading a cell never written is undefined. *)
Definition load_cell (a : list cell) (i : Z) : option Z :=
  load a i ≫= id.

(** Writing [xs] to the front of the scratch array [a]; running past its
    end is undefined. *)
Definition fill (a : list cell) (xs : list Z) : option (list cell) :=
  if decide (length xs ≤ length a)%nat
  then Some ((Some <$> xs) ++ drop (length xs) a)
  else None.

(** The loop [for (i = ...; ...; i++) body], run over the values [range] of
    its counter, threading the mutable state [s]. *)
Fixpoint for_each {I S} (range : list I) (body : I → S → option S) (s : S)
  : option S :=
  match range with
  | [] => Some s
  | i :: range' => s' ← body i s; for_each range' body s'
  end.

(** ** The Axis Reducer: rrSum, rrProd, rrMax, rrMin and rrVar *)

Definition rrOp_t : Type :=
  list jdouble → list cell → Z → Z → Z → option (list jdouble).

(** The loop shared by the four folding reducers,
    [for (j = 1, offset = workingIndex + stride; j < size; j++, offset += stride)
       working[workingIndex] = f (working[workingIndex], working[offset])]. *)
Definition rrFold (f : jdouble → jdouble → jdouble)
    (workingIndex size stride : Z) (working : list jdouble)
  : option (list jdouble) :=
  snd <$>
  for_each (seqZ 1 (size - 1))
    (λ _ '(offset, working),
       a ← load working workingIndex;
       b ← load working offset;
       working ← store working workingIndex (f a b);
       Some (JInt.add offset stride, working))
    (JInt.add workingIndex stride, working).

Definition rrLines
    (line : Z → list jdouble → option (list jdouble))
    (working : list jdouble) (workingIndices : list cell) (nindices : Z)
  : option (list jdouble) :=
  for_each (seqZ 0 nindices)
    (λ i working,
       workingIndex ← load_cell workingIndices i;
       line workingIndex working)
    working.

Definition rrSum : rrOp_t := λ working workingIndices nindices size stride,
  rrLines (λ workingIndex, rrFold PrimFloat.add workingIndex size stride)
    working workingIndices nindices.

Definition rrProd : rrOp_t := λ working workingIndices nindices size stride,
  rrLines (λ workingIndex, rrFold PrimFloat.mul workingIndex size stride)
    working workingIndices nindices.

Definition rrMax : rrOp_t := λ working workingIndices nindices size stride,
  rrLines (λ workingIndex, rrFold (λ a b, std_max b a) workingIndex size stride)
    working workingIndices nindices.

Definition rrMin : rrOp_t := λ working workingIndices nindices size stride,
  rrLines (λ workingIndex, rrFold (λ a b, std_min b a) workingIndex size stride)
    working workingIndices nindices.

(** The body of [rrVar]'s outer loop, for the line starting at
    [workingIndex]. *)
Definition rrVarLine (workingIndex size stride : Z) (working : list jdouble)
  : option (list jdouble) :=
  '(_, mean) ←
    for_each (seqZ 0 size)
      (λ _ '(offset, mean),
         x ← load working offset;
         Some (JInt.add offset stride, PrimFloat.add mean x))
      (workingIndex, 0%float);
  let mean := PrimFloat.div mean (jdouble_of_jint size) in
  '(_, working) ←
    for_each (seqZ 0 size)
      (λ _ '(offset, working),
         x ← load working offset;
         let diff := PrimFloat.sub x mean in
         working ← store working offset (PrimFloat.mul diff diff);
         Some (JInt.add offset stride, working))
      (workingIndex, working);
  working ← rrFold PrimFloat.add workingIndex size stride working;
  a ← load working workingIndex;
  store working workingIndex (PrimFloat.div a (jdouble_of_jint size)).

Definition rrVar : rrOp_t := λ working workingIndices nindices size stride,
  rrLines (λ workingIndex, rrVarLine workingIndex size stride)
    working workingIndices nindices.

(** ** The Coordinate Enumerator *)

(** Modelled from the spec: [MappingOps::assignMappingIndices] is not in
    this file's sources.  Section 4.2: the linear offset [Σ cₖ·strideₖ] of
    every coordinate tuple of the shape, the last axis varying fastest; a
    zero-length dimension anywhere gives the empty sequence, no dimension at
    all gives the single offset [0]. *)
Fixpoint enumerate (shape strides : list Z) : list Z :=
  match shape, strides with
  | d :: shape', s :: strides' =>
      c ← seqZ 0 d; (λ o, c * s + o) <$> enumerate shape' strides'
  | _, _ => [0]
  end.

(** Modelled from the spec: the enumerator writes its offsets to the front
    of the array [indices]. *)
Definition assignMappingIndices
    (indices : list cell) (dims strides : list Z) (ndims : Z)
  : option (list cell) :=
  fill indices
    (enumerate (take (Z.to_nat ndims) dims) (take (Z.to_nat ndims) strides)).

(** Modelled from the spec: [DimensionOps::assignBaseIndices] is not in this
    file's sources.  Section 4.1, step 10: the enumerator run over the shape
    and strides with the entry of [dim] removed, same relative order
    otherwise.  (Its two scratch arrays [workingDModified] and
    [srcSArrModified] hold those shortened copies and are read by nothing
    else.) *)
Definition assignBaseIndices
    (indices : list cell) (dims strides : list Z) (ndims dim : Z)
  : option (list cell) :=
  assignMappingIndices indices
    (delete (Z.to_nat dim) dims) (delete (Z.to_nat dim) strides) (ndims - 1).

(** ** The Reduction Driver: rrOp *)

(** The exceptions [rrOp] raises, named as in the error taxonomy. *)
Inductive error : Set :=
| UnknownOperator
| InvalidArguments
| InvalidLayout
| DuplicateAxis
| AxisOutOfRange
| NonSingletonReducedAxis
| ShapeMismatch
| AllocationFailure.

Global Instance error_eq_dec : EqDecision error.
Proof. solve_decision. Defined.

(** The message of the [std::runtime_error] that [rrOp] itself throws for
    each of them; the layout and allocation errors are thrown by code that
    is not in this file's sources. *)
Definition what (e : error) : option string :=
  match e with
  | UnknownOperator => Some "Operation type not recognized"%string
  | InvalidArguments | ShapeMismatch => Some "Invalid arguments"%string
  | DuplicateAxis => Some "Duplicate selected dimensions not allowed"%string
  | AxisOutOfRange => Some "Invalid dimension"%string
  | NonSingletonReducedAxis =>
      Some "Selected dimension must have singleton or zero length"%string
  | InvalidLayout | AllocationFailure => None
  end.

(** The Java arrays of one call; [None] is a null reference. *)
Record arrays : Type := Arrays {
  srcV : option (list jdouble);
  srcD : option (list Z);
  srcS : option (list Z);
  dstV : option (list jdouble);
  dstD : option (list Z);
  dstS : option (list Z);
  selectedDims : option (list Z);
}.

Definition set_dstV (a : arrays) (v : list jdouble) : arrays :=
  Arrays (srcV a) (srcD a) (srcS a) (Some v) (dstD a) (dstS a) (selectedDims a).

Definition set_selectedDims (a : arrays) (l : list Z) : arrays :=
  Arrays (srcV a) (srcD a) (srcS a) (dstV a) (dstD a) (dstS a) (Some l).

(** The arrays [a] with other values in the source and the destination. *)
Definition with_values (a : arrays) (src dst : list jdouble) : arrays :=
  Arrays (Some src) (srcD a) (srcS a) (Some dst) (dstD a) (dstS a)
    (selectedDims a).

(** How a call ends: it returns, it raises a Java exception, or it runs
    into an access with no defined behaviour.  The first two carry the
    arrays as the call leaves them. *)
Inductive outcome : Type :=
| Returned (a : arrays)
| Thrown (e : error) (a : arrays)
| Undefined.

(** What this file takes from the rest of the repository. *)
Class Externals : Type := {
  (** The operation tags of the generated header
      [shared_array_kernel_ArrayKernel_RR_*]. *)
  RR_SUM : Z;
  RR_PROD : Z;
  RR_MAX : Z;
  RR_MIN : Z;
  RR_VAR : Z;
  (** [MappingOps::checkDimensions (dims, strides, ndims, len)]: [true]
      when it returns, [false] when it throws. *)
  checkDimensions : list Z → list Z → Z → Z → bool;
  (** [MallocHandler]: whether an allocation of that many bytes succeeds. *)
  mallocH : Z → bool;
}.

(** ** The scratch block *)

(** [size_t] is unsigned and 64 bits wide; a jint is converted to it by
    reduction modulo 2^64. *)
Module SizeT.

Definition wrap (z : Z) : Z := z `mod` 2 ^ 64.

Definition of_jint (z : Z) : Z := wrap z.
Definition add (a b : Z) : Z := wrap (a + b).
Definition mul (a b : Z) : Z := wrap (a * b).

End SizeT.

(** The size handed to [MallocHandler] (lines 134 and 135),
    [sizeof(jdouble) * srcLen
     + sizeof(jint) * (srcLen + ndims + 2 * (ndims - 1) + dstLen)]: the
    number of jints is a jint sum, which becomes a [size_t] when it is
    multiplied by [sizeof(jint)]. *)
Definition malloc_size (srcLen ndims dstLen : Z) : Z :=
  SizeT.add
    (SizeT.mul 8 (SizeT.of_jint srcLen))
    (SizeT.mul 4
       (SizeT.of_jint
          (JInt.add
             (JInt.add (JInt.add srcLen ndims)
                (JInt.mul 2 (JInt.sub ndims 1)))
             dstLen))).

(** Lines 138 to 143: the block that [MallocHandler] hands out holds six
    arrays; where each of them starts, in bytes from [all] ([jdouble] takes
    8 bytes, [jint] 4). *)
Module Scratch.

Definition workingV : Z := 0.
Definition workingIndices (srcLen : Z) : Z := 8 * srcLen.
Definition workingD (srcLen : Z) : Z := 8 * srcLen + 4 * srcLen.
Definition workingDModified (srcLen ndims : Z) : Z :=
  8 * srcLen + 4 * srcLen + 4 * ndims.
Definition srcSArrModified (srcLen ndims : Z) : Z :=
  8 * srcLen + 4 * srcLen + 4 * ndims + 4 * JInt.sub ndims 1.
Definition dstIndices (srcLen ndims : Z) : Z :=
  8 * srcLen + 4 * srcLen + 4 * ndims + 4 * JInt.mul 2 (JInt.sub ndims 1).

(** The six pointers in the order of their declarations, the end of the
    [dstLen] jints that the scatter reads from [dstIndices], and the end of
    the block. *)
Definition pointers (srcLen ndims dstLen : Z) : list Z :=
  [ workingV; workingIndices srcLen; workingD srcLen;
    workingDModified srcLen ndims; srcSArrModified srcLen ndims;
    dstIndices srcLen ndims; dstIndices srcLen ndims + 4 * dstLen;
    malloc_size srcLen ndims dstLen ].

(** The six arrays lie one after the other inside the block: no pointer
    comes before the one declared before it, and the last array ends
    where the block ends or before. *)
Definition fits (srcLen ndims dstLen : Z) : bool :=
  bool_decide (Sorted Z.le (pointers srcLen ndims dstLen)).

End Scratch.

Section Driver.
Context `{Externals}.

(** The [switch (type)]. *)
Definition select (type : Z) : option rrOp_t :=
  if decide (type = RR_SUM) then Some rrSum
  else if decide (type = RR_PROD) then Some rrProd
  else if decide (type = RR_MAX) then Some rrMax
  else if decide (type = RR_MIN) then Some rrMin
  else if decide (type = RR_VAR) then Some rrVar
  else None.

(** [std::sort] on jints. *)
Definition sort (l : list Z) : list Z := merge_sort Z.le l.

(** The loop looking for [selectedDimsArr[i - 1] == selectedDimsArr[i]]. *)
Fixpoint adjacent_equal (l : list Z) : bool :=
  match l with
  | x :: (y :: _) as l' => bool_decide (x = y) || adjacent_equal l'
  | _ => false
  end.

(** The loop over the selected dimensions that checks each one and
    multiplies [acc] by its source length.  Past the range check, [dim]
    is a valid index of both dimension arrays. *)
Fixpoint checkSelected (srcDArr dstDArr : list Z) (ndims : Z)
    (selectedDimsArr : list Z) (acc : Z) : error + Z :=
  match selectedDimsArr with
  | [] => inr acc
  | dim :: rest =>
      if negb (bool_decide (0 ≤ dim) && bool_decide (dim < ndims))
      then inl AxisOutOfRange
      else if bool_decide (1 < dstDArr !!! Z.to_nat dim)
      then inl NonSingletonReducedAxis
      else checkSelected srcDArr dstDArr ndims rest
             (JInt.mul acc (srcDArr !!! Z.to_nat dim))
  end.

(** The loop that reduces one selected dimension after the other. *)
Fixpoint reduceSelected (op : rrOp_t) (srcDArr srcSArr : list Z) (ndims : Z)
    (selectedDimsArr : list Z) (acc : Z)
    (workingV : list jdouble) (workingIndices : list cell)
    (workingD : list Z) : option (list jdouble * list cell) :=
  match selectedDimsArr with
  | [] => Some (workingV, workingIndices)
  | dim :: rest =>
      acc ← JInt.div acc (srcDArr !!! Z.to_nat dim);
      workingIndices ←
        assignBaseIndices workingIndices workingD srcSArr ndims dim;
      workingV ←
        op workingV workingIndices acc
          (workingD !!! Z.to_nat dim) (srcSArr !!! Z.to_nat dim);
      reduceSelected op srcDArr srcSArr ndims rest acc
        workingV workingIndices (<[Z.to_nat dim := 1]> workingD)
  end.

(** [for (i = 0; i < dstLen; i++) dstVArr[dstIndices[i]] = workingV[workingIndices[i]]]. *)
Definition scatter (workingV : list jdouble)
    (workingIndices dstIndices : list cell) (dstLen : Z)
    (dstVArr : list jdouble) : option (list jdouble) :=
  for_each (seqZ 0 dstLen)
    (λ i dstVArr,
       d ← load_cell dstIndices i;
       w ← load_cell workingIndices i;
       v ← load workingV w;
       store dstVArr d v)
    dstVArr.

(** Lines 136 to 173: the reduction proper, on the freshly allocated
    scratch block.  The model keeps the scratch arrays as lists of their
    own, which is what they are as long as they lie one after the other
    inside the block.  Where they do not ([Scratch.fits] fails), the code
    reads and writes cells that belong to another array or lie past the
    end of the block, which has no defined behaviour. *)
Definition reduce (op : rrOp_t)
    (srcVArr : list jdouble) (srcDArr srcSArr : list Z)
    (dstVArr : list jdouble) (dstDArr dstSArr : list Z)
    (selectedDimsArr : list Z) : option (list jdouble) :=
  let srcLen := Z.of_nat (length srcVArr) in
  let dstLen := Z.of_nat (length dstVArr) in
  let ndims := Z.of_nat (length srcDArr) in
  if negb (Scratch.fits srcLen ndims dstLen) then None
  else
    let workingV := srcVArr in
    let workingIndices : list cell := replicate (length srcVArr) None in
    let workingD := srcDArr in
    let dstIndices : list cell := replicate (length dstVArr) None in
    '(workingV, workingIndices) ←
      reduceSelected op srcDArr srcSArr ndims selectedDimsArr srcLen
        workingV workingIndices workingD;
    workingIndices ← assignMappingIndices workingIndices dstDArr srcSArr ndims;
    dstIndices ← assignMappingIndices dstIndices dstDArr dstSArr ndims;
    scatter workingV workingIndices dstIndices dstLen dstVArr.

(** Lines 129 to 173: past validation. *)
Definition rrOp_compute (op : rrOp_t) (a : arrays)
    (srcVArr : list jdouble) (srcDArr srcSArr : list Z)
    (dstVArr : list jdouble) (dstDArr dstSArr : list Z)
    (selectedDimsArr : list Z) : outcome :=
  let srcLen := Z.of_nat (length srcVArr) in
  let dstLen := Z.of_nat (length dstVArr) in
  let ndims := Z.of_nat (length srcDArr) in
  if bool_decide (srcLen = 0) then Returned a
  else if negb (mallocH (malloc_size srcLen ndims dstLen))
  then Thrown AllocationFailure a
  else
    match reduce op srcVArr srcDArr srcSArr
            dstVArr dstDArr dstSArr selectedDimsArr with
    | Some dstVArr => Returned (set_dstV a dstVArr)
    | None => Undefined
    end.

(** Lines 65 to 127, on the pinned arrays: validation, then the rest.  A
    Java array has fewer than 2^31 elements, so that [GetArrayLength] is
    the length of the list. *)
Definition rrOp_pinned (op : rrOp_t) (a : arrays)
    (srcVArr : list jdouble) (srcDArr srcSArr : list Z)
    (dstVArr : list jdouble) (dstDArr dstSArr : list Z)
    (selectedDimsArr : list Z) : outcome :=
  let srcLen := Z.of_nat (length srcVArr) in
  let dstLen := Z.of_nat (length dstVArr) in
  let ndims := Z.of_nat (length srcDArr) in
  if bool_decide (ndims ≠ Z.of_nat (length srcSArr))
     || bool_decide (ndims ≠ Z.of_nat (length dstDArr))
     || bool_decide (ndims ≠ Z.of_nat (length dstSArr))
  then Thrown InvalidArguments a
  else if negb (checkDimensions srcDArr srcSArr ndims srcLen)
  then Thrown InvalidLayout a
  else if negb (checkDimensions dstDArr dstSArr ndims dstLen)
  then Thrown InvalidLayout a
  else
    let selectedDimsArr := sort selectedDimsArr in
    let a := set_selectedDims a selectedDimsArr in
    if adjacent_equal selectedDimsArr then Thrown DuplicateAxis a
    else
      match checkSelected srcDArr dstDArr ndims selectedDimsArr dstLen with
      | inl e => Thrown e a
      | inr acc =>
          if bool_decide (acc ≠ srcLen) then Thrown ShapeMismatch a
          else rrOp_compute op a srcVArr srcDArr srcSArr
                 dstVArr dstDArr dstSArr selectedDimsArr
      end.

Definition rrOp (type : Z) (a : arrays) : outcome :=
  match select type with
  | None => Thrown UnknownOperator a
  | Some op =>
      match srcV a, srcD a, srcS a, dstV a, dstD a, dstS a, selectedDims a with
      | Some srcVArr, Some srcDArr, Some srcSArr,
        Some dstVArr, Some dstDArr, Some dstSArr, Some selectedDimsArr =>
          rrOp_pinned op a srcVArr srcDArr srcSArr
            dstVArr dstDArr dstSArr selectedDimsArr
      | _, _, _, _, _, _, _ => Thrown InvalidArguments a
      end
  end.

End Driver.

(** ** The vocabulary of the specification *)

(** The coordinate tuples of a shape, the last axis varying fastest. *)
Fixpoint coordinates (shape : list Z) : list (list Z) :=
  match shape with
  | [] => [[]]
  | d :: shape' => c ← seqZ 0 d; (c ::.) <$> coordinates shape'
  end.

(** The linear offset [Σ cₖ·strideₖ] of the coordinate tuple [c]. *)
Fixpoint offset (strides c : list Z) : Z :=
  match c, strides with
  | ck :: c', sk :: strides' => ck * sk + offset strides' c'
  | _, _ => 0
  end.

(** The number of elements of a shape. *)
Definition element_count (shape : list Z) : Z := foldr Z.mul 1 shape.

(** The strides of the canonical contiguous packing of a shape. *)
Fixpoint row_major (shape : list Z) : list Z :=
  match shape with
  | [] => []
  | _ :: shape' => element_count shape' :: row_major shape'
  end.

(** The explicit coordinate-wise copy between two views of one logical
    shape: [dst[offset dstStrides c] = src[offset srcStrides c]] for every
    coordinate tuple [c], in the canonical order. *)
Definition strided_copy (shape : list Z)
    (src : list jdouble) (srcStrides : list Z)
    (dst : list jdouble) (dstStrides : list Z) : option (list jdouble) :=
  for_each (coordinates shape)
    (λ c dst,
       v ← load src (offset srcStrides c);
       store dst (offset dstStrides c) v)
    dst.

(** The values of the line of [size] elements spaced by [stride] that
    starts at [base]. *)
Definition line (working : list jdouble) (base size stride : Z)
  : list jdouble :=
  (λ j, working !!! Z.to_nat (base + j * stride)) <$> seqZ 0 size.

(** Floating-point accumulation from left to right. *)
Definition accumulate (x : jdouble) (xs : list jdouble) : jdouble :=
  foldl PrimFloat.add x xs.

(** The mean of a line, as the first loop of [rrVar] and the division
    after it compute it. *)
Definition mean_of (xs : list jdouble) : jdouble :=
  PrimFloat.div (accumulate 0%float xs)
    (jdouble_of_jint (Z.of_nat (length xs))).

Definition squared_deviation (mean x : jdouble) : jdouble :=
  PrimFloat.mul (PrimFloat.sub x mean) (PrimFloat.sub x mean).

(** The population variance of a non-empty line: the squared deviations
    summed from the first one on, divided by their number. *)
Definition population_variance (xs : list jdouble) : jdouble :=
  match squared_deviation (mean_of xs) <$> xs with
  | [] => PrimFloat.nan
  | d :: ds =>
      PrimFloat.div (accumulate d ds) (jdouble_of_jint (Z.of_nat (length xs)))
  end.

(** A binary64 number other than an infinity or a NaN. *)
Definition finite (x : jdouble) : Prop :=
  match Prim2SF x with
  | S754_zero _ | S754_finite _ _ _ => True
  | _ => False
  end.

(** The binary64 number 1, as sign, mantissa and exponent. *)
Definition one_SF : spec_float := S754_finite false 4503599627370496 (-52).

(** The cells of a line lie inside the array and inside the jint range,
    and are pairwise distinct. *)
Definition line_in_bounds (working : list jdouble) (base size stride : Z)
  : Prop :=
  (∀ j, 0 ≤ j < size →
        0 ≤ base + j * stride < Z.of_nat (length working)
        ∧ base + j * stride ≤ JInt.max_value)
  ∧ (1 < size → stride ≠ 0).

(** The four folding reducers share one body: [rrSum] is [rrFolding] with
    [+], [rrProd] with [*], [rrMax] and [rrMin] with [std::max] and
    [std::min] of the visited cell and the first one. *)
Definition rrFolding (g : jdouble → jdouble → jdouble) : rrOp_t :=
  λ working workingIndices nindices size stride,
  rrLines (λ workingIndex, rrFold g workingIndex size stride)
    working workingIndices nindices.

(** The offsets of the cells of the line of [size] elements spaced by
    [stride] that starts at [base]. *)
Definition line_offsets (base size stride : Z) : list Z :=
  (λ j, base + j * stride) <$> seqZ 0 size.

(** The lines that start at [bases] lie inside the array [working] and
    inside the jint range, and no two of their cells coincide. *)
Definition lines_apart (working : list jdouble) (bases : list Z)
    (size stride : Z) : Prop :=
  let offsets := bases ≫= λ base, line_offsets base size stride in
  Forall (λ o, 0 ≤ o < Z.of_nat (length working) ∧ o ≤ JInt.max_value) offsets
  ∧ NoDup offsets.

(** The shape of the working buffer once the axes [sel] were collapsed
    ([workingD[dim] = 1]). *)
Definition collapsed (shape sel : list Z) : list Z :=
  foldl (λ workingD dim, <[Z.to_nat dim := 1]> workingD) shape sel.

(** Folding the values of a line with [g], from the first one on. *)
Definition fold_line (g : jdouble → jdouble → jdouble) (xs : list jdouble)
  : jdouble :=
  match xs with
  | [] => PrimFloat.nan
  | x :: xs => foldl g x xs
  end.

(** The value that reducing the axes [sel], one axis after the other, leaves
    at the offset [o] of the view, when the reducer leaves [F] of the values
    of a line in its first cell: the line through [o] along an axis holds the
    values at [o], [o + stride], [o + 2 stride], ... *)
Definition reduced (F : list jdouble → jdouble) (src : list jdouble)
    (shape strides sel : list Z) : Z → jdouble :=
  foldl (λ (value : Z → jdouble) dim o,
           F ((λ j, value (o + j * strides !!! Z.to_nat dim))
                <$> seqZ 0 (shape !!! Z.to_nat dim)))
    (λ o, src !!! Z.to_nat o) sel.

Section Validation.
Context `{Externals}.

Definition violated (e : error) (b : bool) : option error :=
  if b then Some e else None.

(** The first check of a list that is violated. *)
Definition first_of (checks : list (option error)) : option error :=
  foldr (λ c rest, match c with Some e => Some e | None => rest end)
    None checks.

(** Step 6 for one axis: its range, then the destination's length
    there. *)
Definition axis_check (ndims : Z) (dstDArr : list Z) (dim : Z)
  : option error :=
  if decide (0 ≤ dim < ndims)
  then violated NonSingletonReducedAxis
         (bool_decide (1 < dstDArr !!! Z.to_nat dim))
  else Some AxisOutOfRange.

(** [destination.element_count × Π source.shape[axis]] over the selected
    axes, as 32-bit arithmetic computes it. *)
Definition jint_product (dstLen : Z) (srcDArr selected : list Z) : Z :=
  foldl JInt.mul dstLen ((λ dim, srcDArr !!! Z.to_nat dim) <$> selected).

(** The same product over the integers. *)
Definition product (dstLen : Z) (srcDArr selected : list Z) : Z :=
  dstLen * foldr Z.mul 1 ((λ dim, srcDArr !!! Z.to_nat dim) <$> selected).

(** The validation of section 4.1 as the list of its checks in order; a
    null array counts as empty in the checks that come after the one
    that rejects it.  Steps 1 to 4 come before the selected dimensions
    are looked at. *)
Definition entry_checks (type : Z) (a : arrays) : list (option error) :=
  let srcVArr := default [] (srcV a) in
  let srcDArr := default [] (srcD a) in
  let srcSArr := default [] (srcS a) in
  let dstVArr := default [] (dstV a) in
  let dstDArr := default [] (dstD a) in
  let dstSArr := default [] (dstS a) in
  let srcLen := Z.of_nat (length srcVArr) in
  let dstLen := Z.of_nat (length dstVArr) in
  let ndims := Z.of_nat (length srcDArr) in
  [ violated UnknownOperator
      (bool_decide (type ∉ [RR_SUM; RR_PROD; RR_MAX; RR_MIN; RR_VAR]));
    violated InvalidArguments
      (bool_decide (srcV a = None ∨ srcD a = None ∨ srcS a = None
                    ∨ dstV a = None ∨ dstD a = None ∨ dstS a = None
                    ∨ selectedDims a = None));
    violated InvalidArguments
      (bool_decide (¬ (length srcSArr = length srcDArr
                       ∧ length dstDArr = length srcDArr
                       ∧ length dstSArr = length srcDArr)));
    violated InvalidLayout
      (negb (checkDimensions srcDArr srcSArr ndims srcLen));
    violated InvalidLayout
      (negb (checkDimensions dstDArr dstSArr ndims dstLen)) ].

(** Steps 5 to 7, on the sorted selected dimensions. *)
Definition axis_checks (a : arrays) : list (option error) :=
  let srcDArr := default [] (srcD a) in
  let dstDArr := default [] (dstD a) in
  let selected := sort (default [] (selectedDims a)) in
  let srcLen := Z.of_nat (length (default [] (srcV a))) in
  let dstLen := Z.of_nat (length (default [] (dstV a))) in
  let ndims := Z.of_nat (length srcDArr) in
  [ violated DuplicateAxis (bool_decide (¬ NoDup selected)) ]
  ++ (axis_check ndims dstDArr <$> selected)
  ++ [ violated ShapeMismatch
         (bool_decide (jint_product dstLen srcDArr selected ≠ srcLen)) ].

Definition first_violation (type : Z) (a : arrays) : option error :=
  first_of (entry_checks type a ++ axis_checks a).

(** Whether the exception [e] is raised after the selected dimensions
    were sorted. *)
Definition after_sort (e : error) : bool :=
  match e with
  | UnknownOperator | InvalidArguments | InvalidLayout => false
  | DuplicateAxis | AxisOutOfRange | NonSingletonReducedAxis
  | ShapeMismatch | AllocationFailure => true
  end.

(** The arrays with the selected dimensions sorted in place. *)
Definition sorted (a : arrays) : arrays :=
  match selectedDims a with
  | Some l => set_selectedDims a (sort l)
  | None => a
  end.

End Validation.

(** An instance to run the model on: the tags numbered from 0, a layout
    validator that accepts a view whose shape is non-negative and holds
    [len] elements, an allocator that never fails. *)
Definition sample : Externals := {|
  RR_SUM := 0; RR_PROD := 1; RR_MAX := 2; RR_MIN := 3; RR_VAR := 4;
  checkDimensions := λ dims strides ndims len,
    bool_decide (Forall (λ d, 0 ≤ d) dims ∧ element_count dims = len);
  mallocH := λ _, true;
|}.

(** A second instance, whose layout validator looks at the last element of
    a view only: it accepts a view whose shape and strides are non-negative
    and whose last coordinate has the offset [len - 1]. *)
Definition sample_last_offset : Externals := {|
  RR_SUM := 0; RR_PROD := 1; RR_MAX := 2; RR_MIN := 3; RR_VAR := 4;
  checkDimensions := λ dims strides ndims len,
    bool_decide (Forall (λ d, 0 ≤ d) dims ∧ Forall (λ s, 0 ≤ s) strides
                 ∧ offset strides ((λ d, d - 1) <$> dims) = len - 1);
  mallocH := λ _, true;
|}.

(** The environment [H] with another allocator. *)
Definition with_allocator (H : Externals) (m : Z → bool) : Externals := {|
  RR_SUM := RR_SUM; RR_PROD := RR_PROD; RR_MAX := RR_MAX; RR_MIN := RR_MIN;
  RR_VAR := RR_VAR;
  checkDimensions := checkDimensions;
  mallocH := m;
|}.

(** The offset [o] is inside the array [w]. *)
Definition in_bounds (w : list jdouble) (o : Z) : Prop :=
  0 ≤ o < Z.of_nat (length w).

(** The arrays [a'] differ from [a] at most in the destination values and
    in the order of the selected dimensions. *)
Definition frame (a a' : arrays) : Prop :=
  srcV a' = srcV a ∧ srcD a' = srcD a ∧ srcS a' = srcS a
  ∧ dstD a' = dstD a ∧ dstS a' = dstS a.

(** ** Requests used as examples *)

Definition empty_source_request : arrays :=
  Arrays (Some []) (Some [0; 3]) (Some [3; 1])
    (Some [7; 8; 9]%float) (Some [1; 3]) (Some [3; 1]) (Some [0]).

Definition stray_axis_request (sel : list Z) (dstDArr : list Z) : arrays :=
  Arrays (Some [1; 2; 3; 4; 5; 6]%float) (Some [2; 3]) (Some [3; 1])
    (Some [0; 0; 0; 0; 0; 0]%float) (Some dstDArr) (Some [3; 1]) (Some sel).

(** A request on views without dimensions: one source value, one
    destination value, nothing selected. *)
Definition zero_dimensional_request (x y : jdouble) : arrays :=
  Arrays (Some [x]) (Some []) (Some [])
    (Some [y]) (Some []) (Some []) (Some []).

(** A request whose source view visits three of its five values, again
    and again along a first axis of length 1431655767 and stride 0; both
    axes are selected. *)
Definition mismatched_request (y : jdouble) : arrays :=
  Arrays (Some [1; 2; 3; 4; 5]%float) (Some [1431655767; 3]) (Some [0; 2])
    (Some [y]) (Some [1; 1]) (Some [1; 1]) (Some [0; 1]).

(** A request on dense views: the source of shape [65536, 1] has 65536
    values, the destination of shape [1, 65537] has 65537, and the first
    axis is selected. *)
Definition dense_mismatched_request : arrays :=
  Arrays (Some (replicate (Z.to_nat 65536) 1%float))
    (Some [65536; 1]) (Some [1; 1])
    (Some (replicate (Z.to_nat 65537) 0%float))
    (Some [1; 65537]) (Some [65537; 1]) (Some [0]).

(** A request whose source has no element along its last axis, and whose
    two selected axes are 65536 long each. *)
Definition overflowing_request (x : jdouble) : arrays :=
  Arrays (Some []) (Some [65536; 65536; 0]) (Some [0; 0; 1])
    (Some [x]) (Some [1; 1; 1]) (Some [1; 1; 1]) (Some [0; 1]).

(** The source view of shape [2,3] with the row-major values
    [[1,2,3],[4,5,6]], and a destination of shape [1,3] holding [d]. *)
Definition example_2_3 (d : list jdouble) : arrays :=
  Arrays (Some [1; 2; 3; 4; 5; 6]%float) (Some [2; 3]) (Some [3; 1])
    (Some d) (Some [1; 3]) (Some [3; 1]) (Some [0]).

Definition restrided_request (d : list jdouble) (dstSArr : list Z) : arrays :=
  Arrays (Some [1; 2; 3; 4; 5; 6; 7; 8; 9; 10; 11; 12]%float)
    (Some [2; 2; 3]) (Some [6; 3; 1])
    (Some d) (Some [1; 2; 3]) (Some dstSArr) (Some [0]).

(** * Properties *)

(** ** jint arithmetic *)

Lemma wrap_in_range z : JInt.in_range (JInt.wrap z).
Proof.
  unfold JInt.in_range, JInt.wrap, JInt.min_value, JInt.max_value.
  pose proof (Z.mod_pos_bound (z + 2 ^ 31) (2 ^ 32)). lia.
Qed.

Lemma wrap_id z : JInt.in_range z → JInt.wrap z = z.
Proof.
  unfold JInt.in_range, JInt.wrap, JInt.min_value, JInt.max_value. intros Hz.
  rewrite Z.mod_small; lia.
Qed.

Lemma mul_0_r a : JInt.mul a 0 = 0.
Proof. unfold JInt.mul. by rewrite Z.mul_0_r. Qed.

Lemma mul_0_l a : JInt.mul 0 a = 0.
Proof. unfold JInt.mul. by rewrite Z.mul_0_l. Qed.

(** ** Arrays *)

Section ArrayFacts.
Context {A : Type}.
Implicit Types (a : list A) (i j : Z) (x : A).

Lemma load_Some a i x :
  load a i = Some x ↔ 0 ≤ i ∧ a !! Z.to_nat i = Some x.
Proof. unfold load. destruct (decide (0 ≤ i)); intuition congruence. Qed.

Lemma load_total `{!Inhabited A} a i :
  0 ≤ i < Z.of_nat (length a) → load a i = Some (a !!! Z.to_nat i).
Proof.
  intros Hi. unfold load. rewrite decide_True by lia.
  apply list_lookup_lookup_total_lt. lia.
Qed.

Lemma load_of_nat a (n : nat) : load a (Z.of_nat n) = a !! n.
Proof. unfold load. rewrite decide_True by lia. by rewrite Nat2Z.id. Qed.

Lemma store_Some a i x a' :
  store a i x = Some a' ↔
  (0 ≤ i < Z.of_nat (length a)) ∧ a' = <[Z.to_nat i := x]> a.
Proof.
  unfold store. destruct (decide (0 ≤ i < Z.of_nat (length a)));
    intuition congruence.
Qed.

Lemma store_in_bounds a i x :
  0 ≤ i < Z.of_nat (length a) → store a i x = Some (<[Z.to_nat i := x]> a).
Proof. intros. unfold store. by rewrite decide_True. Qed.

Lemma store_length a i x a' : store a i x = Some a' → length a' = length a.
Proof. rewrite store_Some. intros [_ ->]. apply length_insert. Qed.

End ArrayFacts.

(** ** Loops *)

Section LoopFacts.
Context {I S : Type}.
Implicit Types (body : I → S → option S) (s : S).

Lemma for_each_app l1 l2 body s :
  for_each (l1 ++ l2) body s = for_each l1 body s ≫= for_each l2 body.
Proof.
  revert s. induction l1 as [|i l1 IH]; intros s; simpl; [done|].
  destruct (body i s) as [s'|]; simpl; [apply IH | done].
Qed.

Lemma for_each_ext l body body' s :
  (∀ i s, i ∈ l → body i s = body' i s) →
  for_each l body s = for_each l body' s.
Proof.
  revert s. induction l as [|i l IH]; intros s Hb; simpl; [done|].
  rewrite Hb by left. destruct (body' i s) as [s'|]; simpl; [|done].
  apply IH. intros j s'' Hj. apply Hb. by right.
Qed.

End LoopFacts.

(** ** Sorting the selected dimensions *)

Lemma sort_Sorted l : Sorted Z.le (sort l).
Proof. apply (Sorted_merge_sort Z.le). Qed.

Lemma sort_Permutation l : sort l ≡ₚ l.
Proof. apply (merge_sort_Permutation Z.le). Qed.

(** [std::sort] forgets the order in which the caller listed the axes. *)
Lemma sort_permuted l l' : l ≡ₚ l' → sort l = sort l'.
Proof.
  intros Hp. apply (Sorted_unique Z.le); [apply sort_Sorted..|].
  by rewrite !sort_Permutation.
Qed.

Lemma adjacent_equal_Sorted l :
  Sorted Z.le l → adjacent_equal l = bool_decide (¬ NoDup l).
Proof.
  intros Hs. apply (Sorted_StronglySorted Z.le) in Hs.
  induction Hs as [|x l Hs IH Hx].
  { symmetry. apply bool_decide_eq_false_2. intros Hn. apply Hn. constructor. }
  destruct l as [|y l].
  { symmetry. apply bool_decide_eq_false_2. intros Hn. apply Hn.
    apply NoDup_singleton. }
  change (adjacent_equal (x :: y :: l))
    with (bool_decide (x = y) || adjacent_equal (y :: l)).
  rewrite IH. destruct (decide (x = y)) as [->|Hne].
  - rewrite bool_decide_eq_true_2 by done. symmetry.
    apply bool_decide_eq_true_2. rewrite NoDup_cons. intros [Hn _].
    apply Hn. left.
  - rewrite bool_decide_eq_false_2 by done.
    apply bool_decide_ext. rewrite (NoDup_cons x).
    assert (x ∉ y :: l); [|tauto].
    intros Hin. rewrite Forall_forall in Hx.
    specialize (Hx y (list_elem_of_here _ _)).
    apply StronglySorted_inv in Hs as [_ Hy]. rewrite Forall_forall in Hy.
    apply elem_of_cons in Hin as [?|Hl]; [done|].
    specialize (Hy _ Hl). lia.
Qed.

Lemma adjacent_equal_sort l :
  adjacent_equal (sort l) = bool_decide (¬ NoDup l).
Proof.
  rewrite adjacent_equal_Sorted by apply sort_Sorted.
  apply bool_decide_ext. by rewrite sort_Permutation.
Qed.

(** ** Validation *)

Section ValidationFacts.
Context `{Externals}.

Lemma select_None type :
  select type = None ↔ type ∉ [RR_SUM; RR_PROD; RR_MAX; RR_MIN; RR_VAR].
Proof.
  unfold select. rewrite !not_elem_of_cons.
  repeat case_decide; subst; split; try done; try tauto.
  intros _. split_and!; try done. apply not_elem_of_nil.
Qed.

Lemma select_RR_SUM : select RR_SUM = Some rrSum.
Proof. unfold select. by rewrite decide_True. Qed.

Lemma first_of_app l1 l2 :
  first_of (l1 ++ l2) =
  match first_of l1 with Some e => Some e | None => first_of l2 end.
Proof. induction l1 as [|[e|] l1 IH]; simpl; auto. Qed.

Lemma first_of_cons_violated e b l :
  first_of (violated e b :: l) = if b then Some e else first_of l.
Proof. by destruct b. Qed.

(** The loop over the selected dimensions stops at the first axis that
    fails its check and otherwise returns the 32-bit product. *)
Lemma checkSelected_spec srcDArr dstDArr ndims l acc :
  checkSelected srcDArr dstDArr ndims l acc =
  match first_of (axis_check ndims dstDArr <$> l) with
  | Some e => inl e
  | None => inr (jint_product acc srcDArr l)
  end.
Proof.
  revert acc. induction l as [|dim l IH]; intros acc; simpl; [done|].
  unfold axis_check at 1, violated.
  destruct (decide (0 ≤ dim < ndims)) as [Hd|Hd].
  - rewrite !bool_decide_eq_true_2 by lia. simpl.
    destruct (bool_decide (1 < dstDArr !!! Z.to_nat dim)); [done|].
    apply IH.
  - destruct (bool_decide (0 ≤ dim)) eqn:H0, (bool_decide (dim < ndims)) eqn:H1;
      simpl; try done.
    apply bool_decide_eq_true in H0, H1. lia.
Qed.

(** [rrOp] raises the first violated check of the list, with the selected
    dimensions already sorted when the check comes after the sort; with
    no check violated it goes on to lines 129 to 173. *)
Lemma rrOp_validation type a :
  rrOp type a =
  match first_violation type a with
  | Some e => Thrown e (if after_sort e then sorted a else a)
  | None =>
      match select type, srcV a, srcD a, srcS a,
            dstV a, dstD a, dstS a, selectedDims a with
      | Some op, Some srcVArr, Some srcDArr, Some srcSArr,
        Some dstVArr, Some dstDArr, Some dstSArr, Some selectedDimsArr =>
          rrOp_compute op (sorted a) srcVArr srcDArr srcSArr
            dstVArr dstDArr dstSArr (sort selectedDimsArr)
      | _, _, _, _, _, _, _, _ => Undefined
      end
  end.
Proof.
  unfold rrOp, first_violation, entry_checks, axis_checks.
  cbv zeta. cbn [app].
  rewrite first_of_cons_violated.
  destruct (select type) as [op|] eqn:Hop.
  2: { apply select_None in Hop. by rewrite bool_decide_eq_true_2. }
  rewrite bool_decide_eq_false_2
    by (intros Hn; apply select_None in Hn; congruence).
  rewrite first_of_cons_violated.
  destruct a as [[v1|] [d1|] [s1|] [v2|] [d2|] [s2|] [sel|]];
    cbn [srcV srcD srcS dstV dstD dstS selectedDims default from_option id];
    try (rewrite bool_decide_eq_true_2 by intuition; done).
  rewrite bool_decide_eq_false_2 by intuition discriminate.
  unfold rrOp_pinned. cbv zeta. rewrite first_of_cons_violated.
  destruct (decide (length s1 = length d1 ∧ length d2 = length d1
                    ∧ length s2 = length d1)) as [Hl|Hl].
  2: { rewrite (bool_decide_eq_true_2 _ Hl).
       assert (bool_decide (Z.of_nat (length d1) ≠ Z.of_nat (length s1))
               || bool_decide (Z.of_nat (length d1) ≠ Z.of_nat (length d2))
               || bool_decide (Z.of_nat (length d1) ≠ Z.of_nat (length s2))
               = true) as ->; [|done].
       rewrite !orb_true_iff, !bool_decide_eq_true. lia. }
  rewrite (bool_decide_eq_false_2 (¬ (_ ∧ _))) by tauto.
  rewrite !(bool_decide_eq_false_2 (Z.of_nat _ ≠ _)) by lia.
  cbn [orb negb].
  rewrite !first_of_cons_violated.
  destruct (checkDimensions d1 s1 _ _); simpl; [|done].
  destruct (checkDimensions d2 s2 _ _); simpl; [|done].
  rewrite adjacent_equal_sort.
  assert (NoDup (sort sel) ↔ NoDup sel) as Hnd by (by rewrite sort_Permutation).
  rewrite (bool_decide_ext (¬ NoDup (sort sel)) (¬ NoDup sel)) by tauto.
  destruct (bool_decide (¬ NoDup sel)); [done|].
  rewrite checkSelected_spec, first_of_app.
  destruct (first_of (axis_check _ d2 <$> sort sel)) as [e|] eqn:He.
  { assert (after_sort e = true) as ->; [|done].
    clear -He. induction (sort sel) as [|dim l IH]; [done|].
    simpl in He. unfold axis_check at 1, violated in He.
    repeat case_match; simplify_eq; auto. }
  simpl. unfold violated.
  destruct (bool_decide (jint_product _ d1 (sort sel) ≠ _)); done.
Qed.

End ValidationFacts.

(** ** What a call leaves behind *)

Section Outcomes.
Context `{Externals}.


Lemma sorted_dstV a : dstV (sorted a) = dstV a.
Proof. unfold sorted. by destruct (selectedDims a). Qed.

Lemma sorted_frame a : frame a (sorted a).
Proof. unfold frame, sorted. by destruct (selectedDims a). Qed.


Lemma rrOp_compute_cases op a v1 d1 s1 v2 d2 s2 sel :
  let r := rrOp_compute op a v1 d1 s1 v2 d2 s2 sel in
  (v1 = [] ∧ r = Returned a)
  ∨ (v1 ≠ [] ∧ r = Thrown AllocationFailure a)
  ∨ (v1 ≠ [] ∧ ∃ v, r = Returned (set_dstV a v))
  ∨ (v1 ≠ [] ∧ r = Undefined).
Proof.
  unfold rrOp_compute. case_bool_decide as Hlen.
  { left. split; [|done]. destruct v1; [done|]. simpl in Hlen. lia. }
  assert (v1 ≠ []) by (intros ->; done). right.
  destruct (mallocH _); simpl; [|by left].
  right. destruct (reduce _ _ _ _ _ _ _ _); [left|right]; eauto.
Qed.

(** A request that violates no check has a known tag and no null
    array. *)
Lemma first_violation_None_inv type a :
  first_violation type a = None →
  ∃ op v1 d1 s1 v2 d2 s2 sel,
    select type = Some op
    ∧ a = Arrays (Some v1) (Some d1) (Some s1)
            (Some v2) (Some d2) (Some s2) (Some sel).
Proof.
  unfold first_violation, entry_checks. cbv zeta. cbn [app].
  rewrite !first_of_cons_violated. intros Hv.
  case_bool_decide as Htag; [done|].
  case_bool_decide as Hnull; [done|].
  destruct (select type) as [op|] eqn:Hop.
  2: { apply select_None in Hop. done. }
  destruct a as [[v1|] [d1|] [s1|] [v2|] [d2|] [s2|] [sel|]];
    try solve [exfalso; apply Hnull; simpl; intuition].
  by exists op, v1, d1, s1, v2, d2, s2, sel.
Qed.

(** Every call ends in one of five ways. *)
Lemma rrOp_cases type a :
  (∃ e, first_violation type a = Some e
        ∧ rrOp type a = Thrown e (if after_sort e then sorted a else a))
  ∨ (first_violation type a = None
     ∧ (srcV a = Some [] ∧ rrOp type a = Returned (sorted a)
        ∨ srcV a ≠ Some []
          ∧ (rrOp type a = Thrown AllocationFailure (sorted a)
             ∨ (∃ v, rrOp type a = Returned (set_dstV (sorted a) v))
             ∨ rrOp type a = Undefined))).
Proof.
  rewrite !rrOp_validation.
  destruct (first_violation type a) as [e|] eqn:Hv; [left; eauto|right].
  split; [done|].
  apply first_violation_None_inv
    in Hv as (op & v1 & d1 & s1 & v2 & d2 & s2 & sel & -> & ->).
  cbn [srcV srcD srcS dstV dstD dstS selectedDims].
  destruct (rrOp_compute_cases op
              (sorted (Arrays (Some v1) (Some d1) (Some s1)
                         (Some v2) (Some d2) (Some s2) (Some sel)))
              v1 d1 s1 v2 d2 s2 (sort sel))
    as [[-> ->]|[[? ->]|[[? [v ->]]|[? ->]]]]; [by left|right..];
    (split; [congruence|eauto]).
Qed.

Lemma first_violation_not_allocation type a :
  first_violation type a ≠ Some AllocationFailure.
Proof.
  unfold first_violation.
  assert (∀ l, Forall (λ c, c ≠ Some AllocationFailure) l →
               first_of l ≠ Some AllocationFailure) as Hall.
  { induction 1 as [|[e|] l Hc _ IH]; simpl; [done|congruence|done]. }
  apply Hall. unfold entry_checks, axis_checks, violated.
  rewrite !Forall_app, !Forall_cons, Forall_nil, Forall_fmap.
  split_and!; try (by case_match); try done.
  apply Forall_true. intros dim. simpl. unfold axis_check, violated.
  by repeat case_match.
Qed.

End Outcomes.

(** X22: the first check that the code finds violated (the shape check as
    it is computed, in 32-bit arithmetic) aborts the call with its error, a
    call that raises leaves the destination values as they were, and no
    call that ends changes the source values. *)
Theorem failed_validation_leaves_buffers `{Externals} (type : Z) (a : arrays) :
  (∀ e, first_violation type a = Some e →
        ∃ a', rrOp type a = Thrown e a' ∧ dstV a' = dstV a ∧ srcV a' = srcV a)
  ∧ (∀ e a', rrOp type a = Thrown e a' →
             dstV a' = dstV a
             ∧ (first_violation type a = Some e
                ∨ first_violation type a = None ∧ e = AllocationFailure))
  ∧ (∀ a', (rrOp type a = Returned a' ∨ ∃ e, rrOp type a = Thrown e a') →
           srcV a' = srcV a).
Proof.
  pose proof (sorted_frame a) as (Hs & _).
  pose proof (sorted_dstV a) as Hd.
  destruct (rrOp_cases type a)
    as [(e & Hv & Hr)|(Hv & [[_ Hr]|[_ [Hr|[[v Hr]|Hr]]]])]; rewrite Hr, ?Hv.
  all: split_and!.
  all: try (intros e' He'; discriminate He').
  all: try (intros e' a' He'; discriminate He').
  all: try (intros e' He'; simplify_eq; eexists; split; [done|];
            by destruct (after_sort e')).
  all: try (intros e' a' He'; simplify_eq; try destruct (after_sort e');
            by auto).
  all: intros a' [He'|[e' He']]; simplify_eq; try destruct (after_sort _);
    done.
Qed.

(** C6: a request without source elements that passes validation returns
    normally and leaves the destination values as they were; of all the
    arrays only the order of the selected dimensions can have changed. *)
Theorem empty_source_is_no_op `{Externals} (type : Z) (a : arrays) :
  srcV a = Some [] →
  first_violation type a = None →
  rrOp type a = Returned (sorted a) ∧ dstV (sorted a) = dstV a.
Proof.
  intros Hsrc Hv. split; [|apply sorted_dstV].
  destruct (rrOp_cases type a) as [(e & He & _)|(_ & [[_ Hr]|[Hn _]])];
    [congruence|done..].
Qed.

Lemma empty_source_is_no_op_witness :
  rrOp (H := sample) 0 empty_source_request
  = Returned (sorted empty_source_request)
  ∧ dstV (sorted empty_source_request) = dstV empty_source_request.
Proof.
  apply (empty_source_is_no_op (H := sample) 0 empty_source_request).
  - reflexivity.
  - vm_compute. reflexivity.
Defined.

(** ** The order of the selected dimensions *)

Section SelectedOrder.
Context `{Externals}.

Lemma first_violation_permuted type a l l' :
  selectedDims a = Some l → l ≡ₚ l' →
  first_violation type (set_selectedDims a l') = first_violation type a.
Proof.
  intros Hl Hp. unfold first_violation, entry_checks, axis_checks.
  destruct a as [v1 d1 s1 v2 d2 s2 sel]. simpl in Hl. subst sel.
  cbn [set_selectedDims srcV srcD srcS dstV dstD dstS selectedDims
       default from_option id].
  rewrite (sort_permuted l l') by done.
  rewrite (bool_decide_ext (_ ∨ _ ∨ _ ∨ _ ∨ _ ∨ _ ∨ Some l' = None)
             (v1 = None ∨ d1 = None ∨ s1 = None ∨ v2 = None ∨ d2 = None
              ∨ s2 = None ∨ Some l = None)); [done|].
  intuition congruence.
Qed.

Lemma sorted_permuted a l l' :
  selectedDims a = Some l → l ≡ₚ l' →
  sorted (set_selectedDims a l') = sorted a.
Proof.
  intros Hl Hp. unfold sorted. rewrite Hl. simpl.
  unfold set_selectedDims. simpl. by rewrite (sort_permuted l l').
Qed.

End SelectedOrder.

(** C8: listing the same selected dimensions in another order changes
    nothing of what the call does: it ends the same way, with the same
    exception if any and the same destination values; the arrays it leaves
    are the same altogether once the sort has run. *)
Theorem selected_order_is_irrelevant `{Externals}
    (type : Z) (a : arrays) (l l' : list Z) :
  selectedDims a = Some l →
  l ≡ₚ l' →
  match rrOp type a, rrOp type (set_selectedDims a l') with
  | Returned r, Returned r' => r = r'
  | Thrown e r, Thrown e' r' =>
      e = e' ∧ dstV r = dstV r' ∧ (after_sort e = true → r = r')
  | Undefined, Undefined => True
  | _, _ => False
  end.
Proof.
  intros Hl Hp.
  rewrite (rrOp_validation type (set_selectedDims a l')).
  rewrite (rrOp_validation type a).
  rewrite (first_violation_permuted type a l l') by done.
  rewrite (sorted_permuted a l l') by done.
  destruct (first_violation type a) as [e|].
  { split; [done|]. destruct (after_sort e); [done|].
    split; [by destruct a|done]. }
  destruct (select type) as [op|]; [|done].
  destruct a as [[v1|] [d1|] [s1|] [v2|] [d2|] [s2|] sel]; simpl in *; try done.
  subst sel. rewrite (sort_permuted l l') by done.
  match goal with |- match ?x with _ => _ end => destruct x end; auto.
Qed.

Lemma selected_order_is_irrelevant_witness :
  let a := Arrays (Some [1; 1; 1; 1; 1; 1]%float) (Some [2; 3]) (Some [3; 1])
             (Some [0]%float) (Some [1; 1]) (Some [1; 1]) (Some [1; 0]) in
  match rrOp (H := sample) 0 a, rrOp (H := sample) 0 (set_selectedDims a [0; 1]) with
  | Returned r, Returned r' => r = r'
  | Thrown e r, Thrown e' r' =>
      e = e' ∧ dstV r = dstV r' ∧ (after_sort e = true → r = r')
  | Undefined, Undefined => True
  | _, _ => False
  end.
Proof.
  intros a.
  apply (selected_order_is_irrelevant (H := sample) 0 a [1; 0] [0; 1]).
  - reflexivity.
  - apply Permutation_swap.
Defined.


(** A failing call that reorders its caller's list. *)
Example reordered_on_failure :
  let a := Arrays (Some [1; 2; 3; 4; 5; 6]%float) (Some [2; 3]) (Some [3; 1])
             (Some [0; 0; 0; 0; 0; 0]%float) (Some [2; 3]) (Some [3; 1])
             (Some [1; 0]) in
  rrOp (H := sample) 0 a
  = Thrown NonSingletonReducedAxis (set_selectedDims a [0; 1]).
Proof. vm_compute. reflexivity. Qed.

(** ** The checks on the selected dimensions *)

Section AxisChecks.
Context `{Externals}.
Implicit Types (l sel : list Z) (ndims : Z) (dstDArr : list Z).

Lemma first_of_axis_in_range ndims dstDArr l :
  Forall (λ d, 0 ≤ d < ndims ∧ dstDArr !!! Z.to_nat d ≤ 1) l →
  first_of (axis_check ndims dstDArr <$> l) = None.
Proof.
  induction 1 as [|d l [Hd Hs] _ IH]; [done|]. simpl.
  unfold axis_check at 1, violated. rewrite decide_True by done.
  by rewrite bool_decide_eq_false_2 by lia.
Qed.

(** A selected dimension outside the range makes the loop fail, with one
    of its two errors. *)
Lemma first_of_axis_out_of_range ndims dstDArr l :
  (∃ d, d ∈ l ∧ ¬ (0 ≤ d < ndims)) →
  first_of (axis_check ndims dstDArr <$> l) = Some AxisOutOfRange
  ∨ first_of (axis_check ndims dstDArr <$> l) = Some NonSingletonReducedAxis.
Proof.
  intros (d & Hd & Hr). induction l as [|x l IH]; [by apply elem_of_nil in Hd|].
  simpl. unfold axis_check at 1 3, violated.
  destruct (decide (0 ≤ x < ndims)); [|by left].
  destruct (bool_decide (1 < dstDArr !!! Z.to_nat x)); [by right|].
  apply IH. apply elem_of_cons in Hd as [->|]; done.
Qed.

(** It is the range error when no selected dimension inside the range has
    a destination length above one. *)
Lemma first_of_axis_range_error ndims dstDArr l :
  (∃ d, d ∈ l ∧ ¬ (0 ≤ d < ndims)) →
  (∀ d, d ∈ l → 0 ≤ d < ndims → dstDArr !!! Z.to_nat d ≤ 1) →
  first_of (axis_check ndims dstDArr <$> l) = Some AxisOutOfRange.
Proof.
  intros (d & Hd & Hr) Hs. induction l as [|x l IH]; [by apply elem_of_nil in Hd|].
  simpl. unfold axis_check at 1, violated.
  destruct (decide (0 ≤ x < ndims)) as [Hx|Hx]; [|done].
  rewrite bool_decide_eq_false_2
    by (specialize (Hs x (list_elem_of_here _ _) Hx); lia).
  apply IH.
  - apply elem_of_cons in Hd as [->|]; done.
  - intros d' Hd'. apply Hs. by right.
Qed.

(** In ascending order a negative dimension is met first. *)
Lemma first_of_axis_negative ndims dstDArr l :
  StronglySorted Z.le l →
  (∃ d, d ∈ l ∧ d < 0) →
  first_of (axis_check ndims dstDArr <$> l) = Some AxisOutOfRange.
Proof.
  intros Hs (d & Hd & Hneg). destruct Hs as [|x l Hs Hx].
  { by apply elem_of_nil in Hd. }
  simpl. unfold axis_check at 1. rewrite decide_False; [done|].
  rewrite Forall_forall in Hx.
  apply elem_of_cons in Hd as [->|Hd]; [lia|]. specialize (Hx _ Hd). lia.
Qed.

(** In ascending order every dimension inside the range is met before
    those above it. *)
Lemma first_of_axis_singleton_error ndims dstDArr l :
  StronglySorted Z.le l →
  (∀ d, d ∈ l → 0 ≤ d) →
  (∃ d, d ∈ l ∧ 0 ≤ d < ndims ∧ 1 < dstDArr !!! Z.to_nat d) →
  first_of (axis_check ndims dstDArr <$> l) = Some NonSingletonReducedAxis.
Proof.
  intros Hs. induction Hs as [|x l Hs IH Hx]; intros Hpos (d & Hd & Hr & Hbig).
  { by apply elem_of_nil in Hd. }
  simpl. unfold axis_check at 1, violated.
  rewrite Forall_forall in Hx.
  destruct (decide (0 ≤ x < ndims)) as [Hxr|Hxr].
  - case_bool_decide; [done|]. apply IH.
    + intros d' Hd'. apply Hpos. by right.
    + exists d. apply elem_of_cons in Hd as [->|Hd]; [lia|done].
  - exfalso. specialize (Hpos x (list_elem_of_here _ _)).
    apply elem_of_cons in Hd as [->|Hd]; [lia|].
    specialize (Hx _ Hd). lia.
Qed.

(** Past the entry checks, [rrOp] raises the first violated check on the
    axes, with the selected dimensions sorted. *)
Lemma rrOp_axis_checks type a e :
  first_of (entry_checks type a) = None →
  first_of (axis_checks a) = Some e →
  rrOp type a = Thrown e (sorted a).
Proof.
  intros He Ha. rewrite rrOp_validation. unfold first_violation.
  rewrite first_of_app, He, Ha.
  assert (after_sort e = true) as ->; [|done].
  unfold axis_checks in Ha. cbv zeta in Ha. cbn [app] in Ha.
  rewrite first_of_cons_violated, first_of_app in Ha.
  case_bool_decide; [by simplify_eq|].
  destruct (first_of (axis_check _ _ <$> _)) as [e'|] eqn:He'.
  - simplify_eq. clear -He'.
    induction (sort (default [] (selectedDims a))) as [|dim l IH]; [done|].
    simpl in He'. unfold axis_check at 1, violated in He'.
    repeat case_match; simplify_eq; auto.
  - rewrite first_of_cons_violated in Ha.
    destruct (bool_decide (jint_product _ _ _ ≠ _)); by simplify_eq.
Qed.

End AxisChecks.

(** C7, as the code has it: past the entry checks a selected-axes list with
    a repeat is rejected with DuplicateAxis; a list without repeats that
    holds an index outside [0, ndims) is rejected too, with AxisOutOfRange
    when an index is negative or no selected axis inside the range has a
    destination length above one, and with NonSingletonReducedAxis when no
    index is negative and such an axis exists, since the axes are checked
    one by one in ascending order.  In each case the selected dimensions are
    sorted and no values buffer has changed. *)
Theorem duplicate_and_range_rejection `{Externals}
    (type : Z) (a : arrays) (sel srcDArr dstDArr : list Z) :
  first_of (entry_checks type a) = None →
  selectedDims a = Some sel →
  srcD a = Some srcDArr →
  dstD a = Some dstDArr →
  let ndims := Z.of_nat (length srcDArr) in
  let a' := set_selectedDims a (sort sel) in
  let length_above_one d := 0 ≤ d < ndims ∧ 1 < dstDArr !!! Z.to_nat d in
  (¬ NoDup sel → rrOp type a = Thrown DuplicateAxis a')
  ∧ (NoDup sel → (∃ d, d ∈ sel ∧ ¬ (0 ≤ d < ndims)) →
     (rrOp type a = Thrown AxisOutOfRange a'
      ∨ rrOp type a = Thrown NonSingletonReducedAxis a')
     ∧ ((∃ d, d ∈ sel ∧ d < 0) ∨ (∀ d, d ∈ sel → ¬ length_above_one d) →
        rrOp type a = Thrown AxisOutOfRange a')
     ∧ ((∀ d, d ∈ sel → 0 ≤ d) → (∃ d, d ∈ sel ∧ length_above_one d) →
        rrOp type a = Thrown NonSingletonReducedAxis a'))
  ∧ dstV a' = dstV a ∧ srcV a' = srcV a.
Proof.
  intros He Hsel HsrcD HdstD ndims a' length_above_one.
  assert (sorted a = a') as Ha' by (unfold sorted; by rewrite Hsel).
  assert (∀ e, first_of (axis_checks a) = Some e → rrOp type a = Thrown e a')
    as Hrr by (intros e ?; rewrite <- Ha'; by apply rrOp_axis_checks).
  assert (∀ d, d ∈ sort sel ↔ d ∈ sel) as Hin
    by (intros d; by rewrite sort_Permutation).
  pose proof (Sorted_StronglySorted Z.le _ (sort_Sorted sel)) as Hsorted.
  unfold axis_checks in Hrr. rewrite Hsel, HsrcD, HdstD in Hrr.
  cbv zeta in Hrr. cbn [app default from_option id] in Hrr.
  setoid_rewrite first_of_cons_violated in Hrr.
  setoid_rewrite first_of_app in Hrr. fold ndims in Hrr.
  assert (NoDup (sort sel) ↔ NoDup sel) as Hnd by (by rewrite sort_Permutation).
  split_and!; [| |by destruct a..].
  - intros Hdup. apply Hrr. by rewrite bool_decide_eq_true_2 by tauto.
  - intros Hnodup (d & Hd & Hr).
    rewrite bool_decide_eq_false_2 in Hrr by tauto.
    assert (∃ d, d ∈ sort sel ∧ ¬ (0 ≤ d < ndims)) as Hex
      by (exists d; by rewrite Hin).
    split_and!.
    + destruct (first_of_axis_out_of_range ndims dstDArr (sort sel) Hex)
        as [Hf|Hf]; [left|right]; apply Hrr; by rewrite Hf.
    + intros [(d' & Hd' & Hneg)|Hall]; apply Hrr.
      * rewrite (first_of_axis_negative ndims dstDArr (sort sel)); [done..|].
        exists d'. by rewrite Hin.
      * rewrite (first_of_axis_range_error ndims dstDArr (sort sel)); [done..|].
        intros d' Hd' Hr'. apply Hin in Hd'. specialize (Hall d' Hd').
        unfold length_above_one in Hall. lia.
    + intros Hpos (d' & Hd' & Hbig). apply Hrr.
      rewrite (first_of_axis_singleton_error ndims dstDArr (sort sel)); [done..| |].
      * intros d'' Hd''. apply Hpos. by apply Hin.
      * exists d'. by rewrite Hin.
Qed.

Lemma duplicate_and_range_rejection_witness :
  let a := stray_axis_request [5; 0] [1; 6] in
  rrOp (H := sample) 0 a = Thrown AxisOutOfRange (set_selectedDims a [0; 5]).
Proof.
  intros a.
  refine (proj1 (proj2 (proj1 (proj2
    (duplicate_and_range_rejection (H := sample) 0 a [5; 0] [2; 3] [1; 6]
       _ eq_refl eq_refl eq_refl)) _ _)) _).
  - vm_compute. reflexivity.
  - apply (bool_decide_unpack _). vm_compute. reflexivity.
  - exists 5. split; [apply list_elem_of_here|cbn; lia].
  - right. intros d Hd Hn. cbv zeta in Hn. destruct Hn as [Hr Hbig].
    apply elem_of_cons in Hd as [->|Hd]; [cbn in Hr; lia|].
    apply list_elem_of_singleton in Hd as ->. vm_compute in Hbig.
    discriminate Hbig.
Defined.

(** The claim as it was stated fails: a list without repeats that holds the
    index 5 for two dimensions is rejected with NonSingletonReducedAxis,
    the destination being of length 2 along the selected axis 0. *)
Lemma stray_axis_reported_as_non_singleton :
  let a := stray_axis_request [0; 5] [2; 3] in
  first_of (entry_checks (H := sample) 0 a) = None
  ∧ NoDup [0; 5]
  ∧ ¬ (0 ≤ 5 < 2)
  ∧ rrOp (H := sample) 0 a = Thrown NonSingletonReducedAxis a.
Proof.
  split_and!.
  - vm_compute. reflexivity.
  - apply (bool_decide_unpack _). vm_compute. reflexivity.
  - lia.
  - vm_compute. reflexivity.
Qed.

(** ** The shape check *)

Lemma wrap_add_multiple z k : JInt.wrap (z + k * 2 ^ 32) = JInt.wrap z.
Proof.
  unfold JInt.wrap. f_equal.
  replace (z + k * 2 ^ 32 + 2 ^ 31) with (z + 2 ^ 31 + k * 2 ^ 32) by lia.
  apply Z_mod_plus_full.
Qed.

Lemma wrap_mul_l a b : JInt.wrap (JInt.wrap a * b) = JInt.wrap (a * b).
Proof.
  assert (∃ k, JInt.wrap a = a + k * 2 ^ 32) as [k ->].
  { exists (- ((a + 2 ^ 31) `div` 2 ^ 32)). unfold JInt.wrap.
    pose proof (Z.div_mod (a + 2 ^ 31) (2 ^ 32)). lia. }
  replace ((a + k * 2 ^ 32) * b) with (a * b + (k * b) * 2 ^ 32) by lia.
  apply wrap_add_multiple.
Qed.

Section ShapeCheck.
Context `{Externals}.
Implicit Types (srcDArr sel : list Z) (acc dstLen srcLen : Z).

Lemma jint_product_wrap_fold acc srcDArr sel :
  JInt.wrap
    (foldl JInt.mul acc ((λ dim, srcDArr !!! Z.to_nat dim) <$> sel))
  = JInt.wrap
      (acc * foldr Z.mul 1 ((λ dim, srcDArr !!! Z.to_nat dim) <$> sel)).
Proof.
  revert acc. induction sel as [|dim sel IH]; intros acc; simpl.
  { by rewrite Z.mul_1_r. }
  rewrite IH. unfold JInt.mul. rewrite wrap_mul_l. f_equal.
  symmetry. apply Z.mul_assoc.
Qed.

(** The product [acc] of the loop is the product over the integers
    reduced to 32 bits. *)
Lemma jint_product_wrap dstLen srcDArr sel :
  JInt.in_range dstLen →
  jint_product dstLen srcDArr sel = JInt.wrap (product dstLen srcDArr sel).
Proof.
  intros Hr. unfold product. rewrite <- jint_product_wrap_fold.
  unfold jint_product. symmetry. apply wrap_id.
  destruct sel as [|dim sel _] using rev_ind; [done|].
  rewrite fmap_app, foldl_app. simpl. apply wrap_in_range.
Qed.

(** The shape check is exact as long as the product over the integers
    fits a jint. *)
Lemma shape_check_exact dstLen srcDArr sel srcLen :
  JInt.in_range dstLen →
  JInt.in_range (product dstLen srcDArr sel) →
  bool_decide (jint_product dstLen srcDArr sel ≠ srcLen)
  = bool_decide (product dstLen srcDArr sel ≠ srcLen).
Proof.
  intros Hd Hp. apply bool_decide_ext.
  by rewrite jint_product_wrap, wrap_id.
Qed.

End ShapeCheck.

(** C3, where the code departs from it: when both views are accepted, the
    call on [overflowing_request] returns normally and leaves every array as
    it was, although the destination's element count times the product of
    the source shape over the selected axes is 2^32 and the source has no
    element: the product wraps to 0 in 32 bits. *)
Theorem shape_check_misses_overflow `{Externals} (x : jdouble) :
  checkDimensions [65536; 65536; 0] [0; 0; 1] 3 0 = true →
  checkDimensions [1; 1; 1] [1; 1; 1] 3 1 = true →
  rrOp RR_SUM (overflowing_request x) = Returned (overflowing_request x)
  ∧ product 1 [65536; 65536; 0] [0; 1] = 2 ^ 32
  ∧ product 1 [65536; 65536; 0] [0; 1] ≠ 0.
Proof.
  intros Hsrc Hdst. split; [|by vm_compute].
  unfold rrOp. rewrite select_RR_SUM.
  unfold overflowing_request, rrOp_pinned.
  cbn [srcV srcD srcS dstV dstD dstS selectedDims length Z.of_nat].
  rewrite !bool_decide_eq_false_2 by (intros Hn; by apply Hn).
  cbn [orb]. change (Z.of_nat 3) with 3. change (Z.of_nat 1) with 1.
  change (Z.of_nat 0) with 0. rewrite Hsrc, Hdst. cbn [negb].
  by vm_compute.
Qed.

Lemma shape_check_misses_overflow_witness :
  rrOp (H := sample) 0 (overflowing_request 0%float)
  = Returned (overflowing_request 0%float)
  ∧ product 1 [65536; 65536; 0] [0; 1] = 2 ^ 32
  ∧ product 1 [65536; 65536; 0] [0; 1] ≠ 0.
Proof.
  apply (shape_check_misses_overflow (H := sample) 0%float).
  - vm_compute. reflexivity.
  - vm_compute. reflexivity.
Defined.

(** C5, where the code departs from it: [mismatched_request] violates the
    shape check, since the destination's element count times the product of
    the source shape over the selected axes is 2^32 + 5 and the source has
    5 elements.  When both views are accepted and the scratch block is
    granted, the call raises nothing: the product wraps to 5 in 32 bits,
    the two passes find no line to reduce ([acc] is [5 / 1431655767 = 0]),
    and the scatter overwrites the destination value with the first source
    value. *)
Theorem shape_violation_overwrites_destination `{Externals} (y : jdouble) :
  checkDimensions [1431655767; 3] [0; 2] 2 5 = true →
  checkDimensions [1; 1] [1; 1] 2 1 = true →
  mallocH (malloc_size 5 2 1) = true →
  product 1 [1431655767; 3] [0; 1] = 2 ^ 32 + 5
  ∧ product 1 [1431655767; 3] [0; 1] ≠ 5
  ∧ rrOp RR_SUM (mismatched_request y)
    = Returned (set_dstV (mismatched_request y) [1%float]).
Proof.
  intros Hsrc Hdst Hmalloc. split; [by vm_compute|]. split; [by vm_compute|].
  unfold rrOp. rewrite select_RR_SUM.
  unfold mismatched_request, rrOp_pinned, rrOp_compute.
  cbn [srcV srcD srcS dstV dstD dstS selectedDims length].
  change (Z.of_nat 5) with 5. change (Z.of_nat 2) with 2.
  change (Z.of_nat 1) with 1.
  rewrite Hsrc, Hdst, Hmalloc.
  rewrite !(bool_decide_eq_false_2 (2 ≠ 2)) by (intros Hn; by apply Hn).
  cbn [orb negb].
  vm_compute. reflexivity.
Qed.

Lemma shape_violation_overwrites_destination_witness :
  rrOp (H := sample_last_offset) 0 (mismatched_request 7)
  = Returned (set_dstV (mismatched_request 7) [1%float]).
Proof.
  apply (shape_violation_overwrites_destination (H := sample_last_offset) 7).
  - vm_compute. reflexivity.
  - vm_compute. reflexivity.
  - reflexivity.
Defined.

(** Dense views escape the shape check in the same way: with 65537
    destination values and a selected axis of length 65536 the product is
    2^32 + 65536, the source has 65536 values, and no check is violated. *)
Example dense_request_escapes_shape_check :
  product 65537 [65536; 1] [0] = 2 ^ 32 + 65536
  ∧ first_violation (H := sample) 0 dense_mismatched_request = None.
Proof. split; vm_compute; reflexivity. Qed.

(** ** The example of shape [2,3] *)

Section Example23.
Context `{Externals}.

Lemma select_tags :
  NoDup [RR_SUM; RR_PROD; RR_MAX; RR_MIN; RR_VAR] →
  select RR_SUM = Some rrSum ∧ select RR_PROD = Some rrProd
  ∧ select RR_MAX = Some rrMax ∧ select RR_MIN = Some rrMin
  ∧ select RR_VAR = Some rrVar.
Proof.
  rewrite !NoDup_cons, !not_elem_of_cons. intros Hd.
  unfold select. split_and!; repeat case_decide; try done; intuition congruence.
Qed.

End Example23.

(** C1: reducing axis 0 of the [2,3] example into a destination of shape
    [1,3] writes [5,7,9] under Sum, [4,10,18] under Product, [4,5,6] under
    Max and [1,2,3] under Min, whatever the destination held before. *)
Theorem reduce_axis_0_of_example `{Externals} (x y z : jdouble) :
  NoDup [RR_SUM; RR_PROD; RR_MAX; RR_MIN; RR_VAR] →
  checkDimensions [2; 3] [3; 1] 2 6 = true →
  checkDimensions [1; 3] [3; 1] 2 3 = true →
  mallocH (malloc_size 6 2 3) = true →
  let a := example_2_3 [x; y; z] in
  rrOp RR_SUM a = Returned (set_dstV a [5; 7; 9]%float)
  ∧ rrOp RR_PROD a = Returned (set_dstV a [4; 10; 18]%float)
  ∧ rrOp RR_MAX a = Returned (set_dstV a [4; 5; 6]%float)
  ∧ rrOp RR_MIN a = Returned (set_dstV a [1; 2; 3]%float).
Proof.
  intros Htags Hsrc Hdst Hmalloc a.
  destruct (select_tags Htags) as (Hsum & Hprod & Hmax & Hmin & _).
  unfold rrOp. rewrite Hsum, Hprod, Hmax, Hmin.
  unfold a, example_2_3, rrOp_pinned, rrOp_compute.
  cbn [srcV srcD srcS dstV dstD dstS selectedDims length].
  change (Z.of_nat 6) with 6. change (Z.of_nat 3) with 3.
  change (Z.of_nat 2) with 2.
  rewrite Hsrc, Hdst, Hmalloc.
  rewrite !(bool_decide_eq_false_2 (2 ≠ 2)) by (intros Hn; by apply Hn).
  cbn [orb negb].
  split_and!; vm_compute; reflexivity.
Qed.

Lemma reduce_axis_0_of_example_witness :
  let a := example_2_3 [0; 0; 0]%float in
  rrOp (H := sample) 0 a = Returned (set_dstV a [5; 7; 9]%float)
  ∧ rrOp (H := sample) 1 a = Returned (set_dstV a [4; 10; 18]%float)
  ∧ rrOp (H := sample) 2 a = Returned (set_dstV a [4; 5; 6]%float)
  ∧ rrOp (H := sample) 3 a = Returned (set_dstV a [1; 2; 3]%float).
Proof.
  apply (reduce_axis_0_of_example (H := sample) 0 0 0)%float.
  - apply (bool_decide_unpack _). vm_compute. reflexivity.
  - vm_compute. reflexivity.
  - vm_compute. reflexivity.
  - reflexivity.
Defined.

(** ** The Coordinate Enumerator *)

Lemma element_count_nonneg shape :
  Forall (λ d, 0 ≤ d) shape → 0 ≤ element_count shape.
Proof.
  unfold element_count. induction 1 as [|d shape Hd _ IH]; simpl; lia.
Qed.

(** [d] blocks of [m] consecutive offsets make up the first [d * m]. *)
Lemma seqZ_blocks d m :
  0 ≤ m → (c ← seqZ 0 d; (λ o, c * m + o) <$> seqZ 0 m) = seqZ 0 (d * m).
Proof.
  intros Hm. destruct (decide (d ≤ 0)) as [Hd|Hd].
  { rewrite (seqZ_nil 0 d), (seqZ_nil 0 (d * m)) by nia. done. }
  assert (∀ c, (λ o, c * m + o) <$> seqZ 0 m = seqZ (c * m) m) as Hblock.
  { intros c. by rewrite <- (Z.add_0_r (c * m)), <- fmap_add_seqZ, Z.add_0_r. }
  rewrite <- (Z2Nat.id d) by lia.
  induction (Z.to_nat d) as [|k IH]; [done|].
  rewrite seqZ_S, bind_app, bind_singleton, IH, Hblock, Z.add_0_l.
  replace (Z.of_nat (S k) * m) with (Z.of_nat k * m + m) by lia.
  rewrite seqZ_app by lia. by rewrite Z.add_0_l.
Qed.

(** The enumerator lists the offsets of the coordinate tuples in their
    canonical order. *)
Lemma enumerate_offsets shape strides :
  length strides = length shape →
  enumerate shape strides = offset strides <$> coordinates shape.
Proof.
  revert strides. induction shape as [|d shape IH]; intros [|s strides] Hl;
    simplify_eq/=; [done|].
  rewrite (IH strides) by done. clear.
  induction (seqZ 0 d) as [|c l IHl]; [done|].
  rewrite !bind_cons, fmap_app, IHl. f_equal.
  rewrite <- !list_fmap_compose. done.
Qed.

Lemma length_coordinates shape :
  Forall (λ d, 0 ≤ d) shape →
  Z.of_nat (length (coordinates shape)) = element_count shape.
Proof.
  induction 1 as [|d shape Hd _ IH]; [done|].
  unfold element_count in *. simpl. rewrite <- IH. clear IH.
  rewrite <- (Z2Nat.id d) at 2 by lia. rewrite <- (length_seqZ 0 d).
  induction (seqZ 0 d) as [|c l IHl]; [done|].
  rewrite bind_cons, length_app, length_fmap. simpl length. lia.
Qed.

(** Under the canonical contiguous packing the offsets are [0, 1, 2, ...]. *)
Lemma offsets_row_major shape :
  Forall (λ d, 0 ≤ d) shape →
  offset (row_major shape) <$> coordinates shape
  = seqZ 0 (element_count shape).
Proof.
  induction 1 as [|d shape Hd Hs IH]; [done|].
  change (element_count (d :: shape)) with (d * element_count shape).
  rewrite <- seqZ_blocks by by apply element_count_nonneg.
  rewrite <- IH. simpl. clear.
  induction (seqZ 0 d) as [|c l IHl]; [done|].
  rewrite !bind_cons, fmap_app, IHl. f_equal.
  rewrite <- !list_fmap_compose. done.
Qed.

(** ** Scratch arrays *)

Lemma fill_Some a xs a' :
  fill a xs = Some a' ↔
  (length xs ≤ length a)%nat ∧ a' = (Some <$> xs) ++ drop (length xs) a.
Proof. unfold fill. case_decide; intuition congruence. Qed.

Lemma load_cell_fill a xs a' (k : nat) :
  fill a xs = Some a' → (k < length xs)%nat →
  load_cell a' (Z.of_nat k) = xs !! k.
Proof.
  rewrite fill_Some. intros [_ ->] Hk. unfold load_cell.
  rewrite load_of_nat, lookup_app_l by (by rewrite length_fmap).
  rewrite list_lookup_fmap. by destruct (xs !! k).
Qed.

Lemma fill_replicate (n : nat) xs :
  length xs = n → fill (replicate n None) xs = Some (Some <$> xs).
Proof.
  intros <-. unfold fill. rewrite decide_True by (by rewrite length_replicate).
  rewrite drop_ge by (by rewrite length_replicate). by rewrite app_nil_r.
Qed.

(** ** The scatter *)

(** A loop that reads [l] through its counter visits the elements of [l]
    in order. *)
Lemma for_each_indexed {A S} (l : list A) (F : A → S → option S) (s : S) :
  for_each (seqZ 0 (Z.of_nat (length l)))
    (λ i s, c ← l !! Z.to_nat i; F c s) s
  = for_each l F s.
Proof.
  induction l as [|x l IH] using rev_ind; [done|].
  rewrite length_app, Nat.add_1_r, seqZ_S, !for_each_app.
  rewrite (for_each_ext _ _ (λ i s, c ← l !! Z.to_nat i; F c s)).
  2: { intros i s' Hi. apply elem_of_seqZ in Hi.
       rewrite lookup_app_l by lia. done. }
  rewrite IH. destruct (for_each l F s) as [s'|]; [|done]. simpl.
  rewrite Z.add_0_l, Nat2Z.id, lookup_app_r, Nat.sub_diag by lia. done.
Qed.

(** With both index arrays filled by the enumerator over one shape, the
    scatter is the coordinate-wise copy between the two layouts. *)
Lemma scatter_strided_copy shape workingV srcStrides dst dstStrides
    workingIndices dstIndices workingIndices' dstIndices' :
  length srcStrides = length shape →
  length dstStrides = length shape →
  length (coordinates shape) = length dst →
  fill workingIndices (enumerate shape srcStrides) = Some workingIndices' →
  fill dstIndices (enumerate shape dstStrides) = Some dstIndices' →
  scatter workingV workingIndices' dstIndices' (Z.of_nat (length dst)) dst
  = strided_copy shape workingV srcStrides dst dstStrides.
Proof.
  intros Hs Hd Hn Hw Hi. unfold scatter, strided_copy.
  rewrite !enumerate_offsets in Hw, Hi by done.
  rewrite <- (for_each_indexed (coordinates shape)), <- Hn.
  apply for_each_ext.
  intros i d Hin. apply elem_of_seqZ in Hin.
  assert (load_cell dstIndices' i
          = offset dstStrides <$> coordinates shape !! Z.to_nat i) as ->.
  { rewrite <- (Z2Nat.id i) at 1 by lia.
    rewrite (load_cell_fill _ _ _ _ Hi) by (rewrite length_fmap; lia).
    apply list_lookup_fmap. }
  assert (load_cell workingIndices' i
          = offset srcStrides <$> coordinates shape !! Z.to_nat i) as Hwi.
  { rewrite <- (Z2Nat.id i) at 1 by lia.
    rewrite (load_cell_fill _ _ _ _ Hw) by (rewrite length_fmap; lia).
    apply list_lookup_fmap. }
  destruct (coordinates shape !! Z.to_nat i) as [c|]; [|done].
  simpl. by rewrite Hwi.
Qed.

Lemma load_store_eq {A} (a a' : list A) i x :
  store a i x = Some a' → load a' i = Some x.
Proof.
  rewrite store_Some. intros [Hi ->]. unfold load.
  rewrite decide_True by lia. apply list_lookup_insert_eq. lia.
Qed.

Lemma load_store_ne {A} (a a' : list A) i j x :
  store a i x = Some a' → i ≠ j → load a' j = load a j.
Proof.
  rewrite store_Some. intros [Hi ->] Hne. unfold load.
  case_decide; [|done]. apply list_lookup_insert_ne. lia.
Qed.

Section StridedCopy.
Context (src : list jdouble) (srcStrides dstStrides : list Z).

Let copy (c : list Z) (dst : list jdouble) : option (list jdouble) :=
  v ← load src (offset srcStrides c); store dst (offset dstStrides c) v.

(** The copy leaves alone the cells that are the image of no coordinate. *)
Lemma copy_frame cs dst dst' j :
  for_each cs copy dst = Some dst' →
  j ∉ offset dstStrides <$> cs →
  length dst' = length dst ∧ load dst' j = load dst j.
Proof.
  revert dst. induction cs as [|c cs IH]; intros dst Hrun Hj; simplify_eq/=.
  { done. }
  apply not_elem_of_cons in Hj as [Hne Hj].
  destruct (copy c dst) as [dst1|] eqn:Hc; simplify_eq/=.
  destruct (IH _ Hrun Hj) as [-> ->]. unfold copy in Hc.
  destruct (load src (offset srcStrides c)) as [v|]; simplify_eq/=.
  split; [by eapply store_length|]. eapply load_store_ne; [done|congruence].
Qed.

(** When no two coordinates share a destination offset, each of them
    receives the source element of the same coordinates. *)
Lemma copy_lookup cs dst dst' c :
  NoDup (offset dstStrides <$> cs) →
  for_each cs copy dst = Some dst' →
  c ∈ cs →
  load dst' (offset dstStrides c) = load src (offset srcStrides c).
Proof.
  revert dst. induction cs as [|c0 cs IH]; intros dst Hnd Hrun Hc.
  { by apply elem_of_nil in Hc. }
  rewrite fmap_cons in Hnd. apply NoDup_cons in Hnd as [Hfresh Hnd].
  simpl in Hrun. destruct (copy c0 dst) as [dst1|] eqn:Hc0; simplify_eq/=.
  apply elem_of_cons in Hc as [->|Hc]; [|by eapply IH].
  destruct (copy_frame _ _ _ _ Hrun Hfresh) as [_ ->]. unfold copy in Hc0.
  destruct (load src (offset srcStrides c0)) as [v|]; simplify_eq/=.
  by eapply load_store_eq.
Qed.

End StridedCopy.

Lemma strided_copy_lookup shape src srcStrides dst dstStrides dst' c :
  strided_copy shape src srcStrides dst dstStrides = Some dst' →
  NoDup (offset dstStrides <$> coordinates shape) →
  c ∈ coordinates shape →
  load dst' (offset dstStrides c) = load src (offset srcStrides c).
Proof. intros Hrun Hnd Hc. by eapply copy_lookup. Qed.

(** ** The scratch block *)

Lemma Sorted_le_cons x y l :
  Sorted Z.le (x :: y :: l) ↔ x ≤ y ∧ Sorted Z.le (y :: l).
Proof.
  split.
  - intros Hs. inversion Hs as [|? ? Hs' Hhd]; subst.
    by inversion Hhd; subst.
  - intros [? ?]. constructor; [done|by constructor].
Qed.

(** As long as the number of jints of the block fits a jint, the size
    handed to [MallocHandler] is the one that arithmetic over the integers
    gives. *)
Lemma malloc_size_exact srcLen ndims dstLen :
  1 ≤ srcLen ≤ JInt.max_value → 0 ≤ ndims → 0 ≤ dstLen →
  srcLen + ndims + 2 * (ndims - 1) + dstLen ≤ JInt.max_value →
  malloc_size srcLen ndims dstLen
  = 8 * srcLen + 4 * (srcLen + ndims + 2 * (ndims - 1) + dstLen).
Proof.
  unfold JInt.max_value. intros Hs Hn Hd Hsum.
  unfold malloc_size, JInt.add, JInt.mul, JInt.sub.
  assert (∀ z, - 2 ^ 31 ≤ z ≤ 2 ^ 31 - 1 → JInt.wrap z = z) as Hid
    by (intros z Hz; by apply wrap_id).
  rewrite (Hid (ndims - 1)) by lia.
  rewrite (Hid (2 * (ndims - 1))) by lia.
  rewrite (Hid (srcLen + ndims)) by lia.
  rewrite (Hid (srcLen + ndims + 2 * (ndims - 1))) by lia.
  rewrite (Hid (srcLen + ndims + 2 * (ndims - 1) + dstLen)) by lia.
  unfold SizeT.add, SizeT.mul, SizeT.of_jint, SizeT.wrap.
  rewrite !Zmult_mod_idemp_r, Zplus_mod_idemp_l, Zplus_mod_idemp_r.
  apply Z.mod_small. lia.
Qed.

(** With such a size, the six arrays lie one after the other inside the
    block exactly when there is a dimension: without one, [ndims - 1] is
    negative and the pointers step backwards. *)
Lemma fits_iff srcLen ndims dstLen :
  1 ≤ srcLen ≤ JInt.max_value → 0 ≤ ndims → 0 ≤ dstLen →
  srcLen + ndims + 2 * (ndims - 1) + dstLen ≤ JInt.max_value →
  Scratch.fits srcLen ndims dstLen = true ↔ 1 ≤ ndims.
Proof.
  intros Hs Hn Hd Hsum. unfold Scratch.fits.
  rewrite bool_decide_eq_true. unfold Scratch.pointers.
  rewrite malloc_size_exact by done.
  unfold JInt.max_value in Hs, Hsum.
  unfold Scratch.workingV, Scratch.workingIndices, Scratch.workingD,
    Scratch.workingDModified, Scratch.srcSArrModified, Scratch.dstIndices,
    JInt.mul, JInt.sub.
  rewrite !(wrap_id (ndims - 1)) by (unfold JInt.in_range, JInt.min_value, JInt.max_value; lia).
  rewrite !(wrap_id (2 * (ndims - 1))) by (unfold JInt.in_range, JInt.min_value, JInt.max_value; lia).
  rewrite !Sorted_le_cons. split; [lia|]. intros ?.
  split_and!; try lia. repeat constructor.
Qed.

(** For a request with a source value and a dimension, whose number of
    scratch jints fits a jint, the scratch arrays are apart. *)
Lemma fits_lengths {A B} (srcVArr dstVArr : list A) (srcDArr : list B) :
  srcVArr ≠ [] → srcDArr ≠ [] →
  Z.of_nat (length srcVArr) + Z.of_nat (length srcDArr)
  + 2 * (Z.of_nat (length srcDArr) - 1) + Z.of_nat (length dstVArr)
  ≤ JInt.max_value →
  Scratch.fits (Z.of_nat (length srcVArr)) (Z.of_nat (length srcDArr))
    (Z.of_nat (length dstVArr)) = true.
Proof.
  intros Hv Hd Hsum. apply fits_iff; try done; try lia.
  all: destruct srcVArr, srcDArr; simpl length in *; try done; lia.
Qed.

(** Without a dimension the arrays are never apart: [srcSArrModified]
    starts 4 bytes before [workingDModified]. *)
Lemma fits_without_dimensions srcLen dstLen :
  Scratch.fits srcLen 0 dstLen = false.
Proof.
  unfold Scratch.fits.
  apply bool_decide_eq_false. unfold Scratch.pointers.
  unfold Scratch.workingV, Scratch.workingIndices, Scratch.workingD,
    Scratch.workingDModified, Scratch.srcSArrModified, Scratch.dstIndices.
  change (JInt.sub 0 1) with (-1). change (JInt.mul 2 (-1)) with (-2).
  rewrite !Sorted_le_cons. lia.
Qed.

(** ** The reduction proper *)

Section Reduce.
Context `{Externals}.

(** With a destination that holds as many elements as its shape has
    coordinates, the last steps of the reduction are a coordinate-wise copy
    out of the working buffer. *)
Lemma reduce_strided_copy op srcVArr srcDArr srcSArr dstVArr dstDArr dstSArr sel :
  length srcSArr = length srcDArr →
  length dstDArr = length srcDArr →
  length dstSArr = length srcDArr →
  Forall (λ d, 0 ≤ d) dstDArr →
  element_count dstDArr = Z.of_nat (length dstVArr) →
  reduce op srcVArr srcDArr srcSArr dstVArr dstDArr dstSArr sel =
  if negb (Scratch.fits (Z.of_nat (length srcVArr))
             (Z.of_nat (length srcDArr)) (Z.of_nat (length dstVArr)))
  then None
  else
    '(workingV, workingIndices) ←
      reduceSelected op srcDArr srcSArr (Z.of_nat (length srcDArr)) sel
        (Z.of_nat (length srcVArr)) srcVArr
        (replicate (length srcVArr) None) srcDArr;
    _ ← fill workingIndices (enumerate dstDArr srcSArr);
    strided_copy dstDArr workingV srcSArr dstVArr dstSArr.
Proof.
  intros Hs Hd Hds Hpos Hcount. unfold reduce. cbv zeta.
  destruct (Scratch.fits _ _ _); [|done]. cbn [negb].
  destruct (reduceSelected _ _ _ _ _ _ _ _ _) as [[workingV workingIndices]|];
    [|done].
  cbn [mbind option_bind]. unfold assignMappingIndices.
  rewrite Nat2Z.id, !take_ge by lia.
  destruct (fill workingIndices _) as [workingIndices'|] eqn:Hw; [|done].
  cbn [mbind option_bind].
  assert (length (coordinates dstDArr) = length dstVArr) as Hn.
  { apply Nat2Z.inj. by rewrite length_coordinates. }
  rewrite fill_replicate
    by (by rewrite enumerate_offsets, length_fmap by lia).
  cbn [mbind option_bind].
  eapply scatter_strided_copy; [lia..|done|done|].
  apply fill_replicate. by rewrite enumerate_offsets, length_fmap by lia.
Qed.

End Reduce.

(** What passing the entry checks says about a request without null
    arrays. *)
Lemma entry_checks_None `{Externals} type v1 d1 s1 v2 d2 s2 sel :
  first_of (entry_checks type
              (Arrays (Some v1) (Some d1) (Some s1)
                 (Some v2) (Some d2) (Some s2) (Some sel))) = None →
  is_Some (select type)
  ∧ length s1 = length d1 ∧ length d2 = length d1 ∧ length s2 = length d1
  ∧ checkDimensions d1 s1 (Z.of_nat (length d1)) (Z.of_nat (length v1)) = true
  ∧ checkDimensions d2 s2 (Z.of_nat (length d1)) (Z.of_nat (length v2)) = true.
Proof.
  unfold entry_checks. cbv zeta.
  cbn [srcV srcD srcS dstV dstD dstS selectedDims default from_option id].
  rewrite !first_of_cons_violated. intros Hv.
  case_bool_decide as Htag; [done|].
  case_bool_decide as Hnull; [done|].
  case_bool_decide as Hlen; [done|].
  destruct (checkDimensions d1 s1 _ _); [|done].
  destruct (checkDimensions d2 s2 _ _); [|done].
  split_and!; try done; try tauto.
  destruct (select type) eqn:Hop; [done|]. by apply select_None in Hop.
Qed.

(** ** No selected dimension *)

(** X20: past the entry checks, an empty list of selected dimensions is
    accepted exactly when the destination has as many elements as the
    source; no reduction pass runs, and, for views with at least one
    dimension whose number of scratch jints fits a jint, the destination
    holding as many elements as its shape has coordinates, the call is the
    coordinate-wise copy of the source into the destination over the
    destination's shape: where no two coordinates share a destination
    offset, each receives the source element of the same coordinates. *)
Theorem empty_selection_is_strided_copy `{Externals} (type : Z) (a : arrays)
    (srcVArr : list jdouble) (srcDArr srcSArr : list Z)
    (dstVArr : list jdouble) (dstDArr dstSArr : list Z) :
  a = Arrays (Some srcVArr) (Some srcDArr) (Some srcSArr)
        (Some dstVArr) (Some dstDArr) (Some dstSArr) (Some []) →
  first_of (entry_checks type a) = None →
  let size :=
    malloc_size (Z.of_nat (length srcVArr)) (Z.of_nat (length srcDArr))
      (Z.of_nat (length dstVArr)) in
  (length dstVArr ≠ length srcVArr → rrOp type a = Thrown ShapeMismatch a)
  ∧ (length dstVArr = length srcVArr →
     (srcVArr = [] → rrOp type a = Returned a)
     ∧ (srcVArr ≠ [] → mallocH size = false →
        rrOp type a = Thrown AllocationFailure a)
     ∧ (srcVArr ≠ [] → mallocH size = true →
        srcDArr ≠ [] →
        Z.of_nat (length srcVArr) + Z.of_nat (length srcDArr)
        + 2 * (Z.of_nat (length srcDArr) - 1) + Z.of_nat (length dstVArr)
        ≤ JInt.max_value →
        Forall (λ d, 0 ≤ d) dstDArr →
        element_count dstDArr = Z.of_nat (length dstVArr) →
        ∀ op, select type = Some op →
        reduceSelected op srcDArr srcSArr (Z.of_nat (length srcDArr)) []
          (Z.of_nat (length srcVArr)) srcVArr
          (replicate (length srcVArr) None) srcDArr
        = Some (srcVArr, replicate (length srcVArr) None)
        ∧ rrOp type a =
          match strided_copy dstDArr srcVArr srcSArr dstVArr dstSArr with
          | Some v => Returned (set_dstV a v)
          | None => Undefined
          end
        ∧ ∀ v c,
            strided_copy dstDArr srcVArr srcSArr dstVArr dstSArr = Some v →
            NoDup (offset dstSArr <$> coordinates dstDArr) →
            c ∈ coordinates dstDArr →
            load v (offset dstSArr c) = load srcVArr (offset srcSArr c))).
Proof.
  intros -> Hentry size.
  assert (first_violation type
            (Arrays (Some srcVArr) (Some srcDArr) (Some srcSArr)
               (Some dstVArr) (Some dstDArr) (Some dstSArr) (Some []))
          = violated ShapeMismatch
              (bool_decide (Z.of_nat (length dstVArr)
                            ≠ Z.of_nat (length srcVArr)))) as Hv.
  { unfold first_violation. rewrite first_of_app, Hentry.
    unfold axis_checks. cbv zeta.
    cbn [srcV srcD dstV dstD selectedDims default from_option id].
    change (sort []) with (@nil Z). cbn [app fmap list_fmap].
    rewrite first_of_cons_violated.
    rewrite bool_decide_eq_false_2 by (intros Hn; apply Hn; constructor).
    unfold jint_product. simpl. by destruct (bool_decide _). }
  destruct (entry_checks_None _ _ _ _ _ _ _ _ Hentry)
    as ([op Hop] & Hs & Hd & Hds & _).
  pose proof (rrOp_validation type
                (Arrays (Some srcVArr) (Some srcDArr) (Some srcSArr)
                   (Some dstVArr) (Some dstDArr) (Some dstSArr) (Some [])))
    as Hrr.
  rewrite Hv in Hrr. unfold sorted in Hrr.
  cbn [srcV srcD srcS dstV dstD dstS selectedDims set_selectedDims] in Hrr.
  change (sort []) with (@nil Z) in Hrr.
  split.
  { intros Hne. rewrite Hrr. unfold violated.
    by rewrite bool_decide_eq_true_2 by lia. }
  intros Heq. unfold violated in Hrr.
  rewrite bool_decide_eq_false_2 in Hrr by lia.
  rewrite Hop in Hrr. unfold rrOp_compute in Hrr. fold size in Hrr.
  split_and!.
  - intros ->. by rewrite Hrr.
  - intros Hne Hm. rewrite Hrr, Hm.
    rewrite bool_decide_eq_false_2; [done|]. destruct srcVArr; simpl; [done|lia].
  - intros Hne Hm Hdims Hsum Hpos Hcount op' Hop'. rewrite Hop in Hop'.
    injection Hop' as <-. split; [done|]. split.
    + rewrite Hrr, Hm.
      rewrite bool_decide_eq_false_2 by (destruct srcVArr; simpl; [done|lia]).
      cbn [negb]. rewrite reduce_strided_copy by done.
      rewrite fits_lengths by done.
      cbn [negb reduceSelected mbind option_bind].
      unfold fill. rewrite decide_True; [done|].
      rewrite enumerate_offsets, length_fmap, length_replicate by lia.
      apply Nat2Z.inj_le. rewrite length_coordinates by done. lia.
    + intros v c. apply strided_copy_lookup.
Qed.

Lemma empty_selection_is_strided_copy_witness :
  let a := Arrays (Some [1; 2; 3; 4; 5; 6]%float) (Some [2; 3]) (Some [3; 1])
             (Some [0; 0; 0; 0; 0; 0]%float) (Some [2; 3]) (Some [1; 2])
             (Some []) in
  rrOp (H := sample) 0 a = Returned (set_dstV a [1; 4; 2; 5; 3; 6]%float).
Proof.
  intros a.
  pose proof (empty_selection_is_strided_copy (H := sample) 0 a
                [1; 2; 3; 4; 5; 6]%float [2; 3] [3; 1]
                [0; 0; 0; 0; 0; 0]%float [2; 3] [1; 2] eq_refl) as Hthm.
  destruct Hthm as [_ Hthm]; [vm_compute; reflexivity|].
  destruct (Hthm eq_refl) as (_ & _ & Hcopy).
  destruct (Hcopy ltac:(done) eq_refl) with (op := rrSum) as (_ & -> & _).
  - done.
  - vm_compute. discriminate.
  - repeat constructor; lia.
  - reflexivity.
  - reflexivity.
  - vm_compute. reflexivity.
Defined.

(** A call on views without dimensions that passes the entry checks, with
    as many destination values as source values, violates no check and has
    no defined behaviour. *)
Lemma zero_dimensional_call `{Externals} type (srcVArr dstVArr : list jdouble) :
  let a := Arrays (Some srcVArr) (Some []) (Some [])
             (Some dstVArr) (Some []) (Some []) (Some []) in
  first_of (entry_checks type a) = None →
  length dstVArr = length srcVArr →
  srcVArr ≠ [] →
  mallocH (malloc_size (Z.of_nat (length srcVArr)) 0
             (Z.of_nat (length dstVArr))) = true →
  first_violation type a = None ∧ rrOp type a = Undefined.
Proof.
  intros a Hentry Hlen Hne Hm.
  assert (first_violation type a = None) as Hv.
  { unfold first_violation. rewrite first_of_app, Hentry.
    unfold axis_checks, a. cbv zeta.
    cbn [srcV srcD dstV dstD selectedDims default from_option id].
    change (sort []) with (@nil Z). cbn [app fmap list_fmap].
    rewrite first_of_cons_violated.
    rewrite bool_decide_eq_false_2 by (intros Hn; apply Hn; constructor).
    unfold jint_product. simpl. unfold violated.
    rewrite bool_decide_eq_false_2; [done|]. intros Hn. apply Hn. lia. }
  destruct (entry_checks_None _ _ _ _ _ _ _ _ Hentry) as ([op Hop] & _).
  split; [done|].
  rewrite rrOp_validation, Hv, Hop. unfold a.
  cbn [srcV srcD srcS dstV dstD dstS selectedDims].
  unfold rrOp_compute.
  rewrite bool_decide_eq_false_2 by (destruct srcVArr; simpl; [done|lia]).
  cbn [length]. change (Z.of_nat 0) with 0. rewrite Hm. cbn [negb].
  unfold reduce. cbn [length]. change (Z.of_nat 0) with 0.
  by rewrite fits_without_dimensions.
Qed.

(** C10, where the code departs from it: on views without dimensions the
    list of selected dimensions is empty, and it is accepted once the
    destination has as many elements as the source; no reduction pass
    runs, and the coordinate-wise copy of the source into the destination
    is defined.  But the call is not that copy: it has no defined
    behaviour, because with [ndims = 0] the pointers into the scratch
    block step backwards ([ndims - 1] is negative): [srcSArrModified]
    starts before [workingDModified], and [dstIndices] starts 8 bytes
    before the end of [workingIndices], so that the offsets the scatter
    reads share their cells with other scratch arrays. *)
Theorem empty_selection_without_dimensions `{Externals} (type : Z)
    (srcVArr dstVArr : list jdouble) :
  let a := Arrays (Some srcVArr) (Some []) (Some [])
             (Some dstVArr) (Some []) (Some []) (Some []) in
  let srcLen := Z.of_nat (length srcVArr) in
  let dstLen := Z.of_nat (length dstVArr) in
  first_of (entry_checks type a) = None →
  length dstVArr = length srcVArr →
  srcVArr ≠ [] →
  mallocH (malloc_size srcLen 0 dstLen) = true →
  first_violation type a = None
  ∧ (∀ op, reduceSelected op [] [] 0 [] srcLen srcVArr
             (replicate (length srcVArr) None) []
           = Some (srcVArr, replicate (length srcVArr) None))
  ∧ is_Some (strided_copy [] srcVArr [] dstVArr [])
  ∧ Scratch.srcSArrModified srcLen 0 < Scratch.workingDModified srcLen 0
  ∧ Scratch.dstIndices srcLen 0 = Scratch.workingD srcLen - 8
  ∧ rrOp type a = Undefined.
Proof.
  intros a srcLen dstLen Hentry Hlen Hne Hm.
  destruct (zero_dimensional_call type srcVArr dstVArr Hentry Hlen Hne Hm)
    as [Hv Hrun].
  split_and!; [done|done| | | |done].
  - destruct srcVArr as [|x srcVArr]; [done|].
    destruct dstVArr as [|y dstVArr]; [done|]. by eexists.
  - unfold Scratch.srcSArrModified, Scratch.workingDModified.
    change (JInt.sub 0 1) with (-1). lia.
  - unfold Scratch.dstIndices, Scratch.workingD.
    change (JInt.mul 2 (JInt.sub 0 1)) with (-2). lia.
Qed.

Lemma empty_selection_without_dimensions_witness :
  rrOp (H := sample) 0
    (Arrays (Some [1%float]) (Some []) (Some [])
       (Some [7%float]) (Some []) (Some []) (Some []))
  = Undefined.
Proof.
  apply (empty_selection_without_dimensions (H := sample) 0
           [1%float] [7%float]).
  - vm_compute. reflexivity.
  - reflexivity.
  - done.
  - reflexivity.
Defined.

(** ** A destination with strides of its own *)

Section Restrided.
Context `{Externals}.

Lemma entry_checks_pass type v1 d1 s1 v2 d2 s2 sel :
  is_Some (select type) →
  length s1 = length d1 → length d2 = length d1 → length s2 = length d1 →
  checkDimensions d1 s1 (Z.of_nat (length d1)) (Z.of_nat (length v1)) = true →
  checkDimensions d2 s2 (Z.of_nat (length d1)) (Z.of_nat (length v2)) = true →
  first_of (entry_checks type
              (Arrays (Some v1) (Some d1) (Some s1)
                 (Some v2) (Some d2) (Some s2) (Some sel))) = None.
Proof.
  intros [op Hop] Hs Hd Hds Hc1 Hc2. unfold entry_checks. cbv zeta.
  cbn [srcV srcD srcS dstV dstD dstS selectedDims default from_option id].
  rewrite !first_of_cons_violated, Hc1, Hc2.
  rewrite bool_decide_eq_false_2
    by (intros Hn; apply select_None in Hn; congruence).
  rewrite bool_decide_eq_false_2 by intuition discriminate.
  by rewrite bool_decide_eq_false_2 by tauto.
Qed.

Lemma length_row_major shape : length (row_major shape) = length shape.
Proof. induction shape; simpl; congruence. Qed.

(** Copying out of a contiguous copy is copying out of the original. *)
Lemma contiguous_copy shape workingV srcStrides contiguous reduced :
  Forall (λ d, 0 ≤ d) shape →
  strided_copy shape workingV srcStrides contiguous (row_major shape)
  = Some reduced →
  ∀ dst dstStrides,
    strided_copy shape reduced (row_major shape) dst dstStrides
    = strided_copy shape workingV srcStrides dst dstStrides.
Proof.
  intros Hpos Hrun dst dstStrides. unfold strided_copy.
  apply for_each_ext. intros c d Hc. f_equal.
  eapply strided_copy_lookup; [done| |done].
  rewrite offsets_row_major by done. apply NoDup_seqZ.
Qed.

End Restrided.

(** X21: for a valid request with source elements, whose destination holds
    as many elements as its shape has coordinates, and whose reduction into
    a contiguous destination returns [r]: the enumerator is run
    twice over the destination's shape, so that its two offset sequences
    list the same coordinates in the same order; the scatter copies the
    working buffer into the destination coordinate by coordinate; and what
    the destination receives is what an explicit coordinate-wise copy
    brings over from the result [r] of the same reduction into a contiguous
    destination, whatever the strides of the destination are. *)
Theorem scatter_is_coordinate_wise `{Externals} (type : Z) (a : arrays)
    (srcVArr : list jdouble) (srcDArr srcSArr : list Z)
    (dstVArr : list jdouble) (dstDArr dstSArr sel : list Z)
    (contiguous : list jdouble) (r : arrays) :
  a = Arrays (Some srcVArr) (Some srcDArr) (Some srcSArr)
        (Some dstVArr) (Some dstDArr) (Some dstSArr) (Some sel) →
  first_violation type a = None →
  srcVArr ≠ [] →
  Forall (λ d, 0 ≤ d) dstDArr →
  element_count dstDArr = Z.of_nat (length dstVArr) →
  length contiguous = length dstVArr →
  checkDimensions dstDArr (row_major dstDArr)
    (Z.of_nat (length srcDArr)) (Z.of_nat (length dstVArr)) = true →
  rrOp type
    (Arrays (Some srcVArr) (Some srcDArr) (Some srcSArr)
       (Some contiguous) (Some dstDArr) (Some (row_major dstDArr)) (Some sel))
  = Returned r →
  (enumerate dstDArr srcSArr = offset srcSArr <$> coordinates dstDArr
   ∧ enumerate dstDArr dstSArr = offset dstSArr <$> coordinates dstDArr)
  ∧ ∃ op workingV workingIndices reduced,
      select type = Some op
      ∧ reduceSelected op srcDArr srcSArr (Z.of_nat (length srcDArr))
          (sort sel) (Z.of_nat (length srcVArr)) srcVArr
          (replicate (length srcVArr) None) srcDArr
        = Some (workingV, workingIndices)
      ∧ rrOp type a =
        match strided_copy dstDArr workingV srcSArr dstVArr dstSArr with
        | Some v => Returned (set_dstV (sorted a) v)
        | None => Undefined
        end
      ∧ dstV r = Some reduced
      ∧ strided_copy dstDArr reduced (row_major dstDArr) dstVArr dstSArr
        = strided_copy dstDArr workingV srcSArr dstVArr dstSArr
      ∧ ∀ v c,
          strided_copy dstDArr workingV srcSArr dstVArr dstSArr = Some v →
          NoDup (offset dstSArr <$> coordinates dstDArr) →
          c ∈ coordinates dstDArr →
          load v (offset dstSArr c) = load workingV (offset srcSArr c).
Proof.
  intros -> Hv Hne Hpos Hcount Hlen Hcheck Hrun.
  assert (first_of (entry_checks type
            (Arrays (Some srcVArr) (Some srcDArr) (Some srcSArr)
               (Some dstVArr) (Some dstDArr) (Some dstSArr) (Some sel)))
          = None) as Hentry.
  { unfold first_violation in Hv. rewrite first_of_app in Hv.
    by destruct (first_of (entry_checks _ _)). }
  destruct (entry_checks_None _ _ _ _ _ _ _ _ Hentry)
    as ([op Hop] & Hs & Hd & Hds & Hc1 & _).
  split.
  { by rewrite !enumerate_offsets by lia. }
  (* the contiguous request passes the same checks *)
  assert (first_violation type
            (Arrays (Some srcVArr) (Some srcDArr) (Some srcSArr)
               (Some contiguous) (Some dstDArr) (Some (row_major dstDArr))
               (Some sel)) = None) as Hvc.
  { unfold first_violation in *. rewrite first_of_app in *.
    rewrite Hentry in Hv. rewrite entry_checks_pass;
      [|by rewrite ?length_row_major, ?Hlen..].
    unfold axis_checks in *.
    cbn [srcV srcD srcS dstV dstD dstS selectedDims default from_option id]
      in *.
    by rewrite Hlen. }
  rewrite rrOp_validation, Hvc, Hop in Hrun.
  rewrite rrOp_validation, Hv, Hop.
  cbn [srcV srcD srcS dstV dstD dstS selectedDims] in *.
  unfold rrOp_compute in *. rewrite Hlen in Hrun.
  rewrite bool_decide_eq_false_2 in Hrun
    by (destruct srcVArr; simpl; [done|lia]).
  rewrite bool_decide_eq_false_2 by (destruct srcVArr; simpl; [done|lia]).
  destruct (mallocH _); [|done]. cbn [negb] in *.
  rewrite reduce_strided_copy in Hrun
    by (by rewrite ?length_row_major, ?Hlen).
  rewrite reduce_strided_copy by done.
  rewrite Hlen in Hrun.
  destruct (Scratch.fits _ _ _); [|done]. cbn [negb] in *.
  destruct (reduceSelected _ _ _ _ _ _ _ _ _)
    as [[workingV workingIndices]|] eqn:Hred; [|done].
  cbn [mbind option_bind] in *.
  destruct (fill workingIndices _); [|done].
  cbn [mbind option_bind] in *.
  destruct (strided_copy dstDArr workingV srcSArr contiguous _)
    as [reduced|] eqn:Hcopy; [|done].
  injection Hrun as <-.
  exists op, workingV, workingIndices, reduced.
  split_and!; try done.
  - by apply contiguous_copy with contiguous.
  - intros v c. apply strided_copy_lookup.
Qed.

Lemma scatter_is_coordinate_wise_witness :
  let a := restrided_request [0; 0; 0; 0; 0; 0]%float [6; 1; 2] in
  rrOp (H := sample) 0 a
  = Returned (set_dstV a [8; 14; 10; 16; 12; 18]%float).
Proof.
  intros a.
  destruct (scatter_is_coordinate_wise (H := sample) 0 a
              [1; 2; 3; 4; 5; 6; 7; 8; 9; 10; 11; 12]%float
              [2; 2; 3] [6; 3; 1] [0; 0; 0; 0; 0; 0]%float
              [1; 2; 3] [6; 1; 2] [0] [9; 9; 9; 9; 9; 9]%float
              (restrided_request [8; 10; 12; 14; 16; 18]%float [6; 3; 1])
              eq_refl)
    as (_ & op & workingV & workingIndices & reduced
        & _ & _ & Hrun & Hr & Heq & _).
  - vm_compute. reflexivity.
  - done.
  - repeat constructor; lia.
  - reflexivity.
  - reflexivity.
  - vm_compute. reflexivity.
  - vm_compute. reflexivity.
  - rewrite Hrun, <- Heq. injection Hr as <-. vm_compute. reflexivity.
Defined.

(** C4, where the code departs from it: on [zero_dimensional_request] no
    check is violated, the two runs of the enumerator over the
    destination's shape give the single offset 0 each, and the
    coordinate-wise copy leaves the source value in the destination.  But
    the scatter does not find these offsets in arrays of their own: the
    block has 8 bytes, which hold [workingV[0]]; [workingIndices] starts at
    byte 8, where the block ends, and [dstIndices] at byte 4, inside
    [workingV[0]].  The call has no defined behaviour. *)
Theorem scatter_arrays_overlap `{Externals} (type : Z) (x y : jdouble) :
  is_Some (select type) →
  checkDimensions [] [] 0 1 = true →
  mallocH (malloc_size 1 0 1) = true →
  let a := zero_dimensional_request x y in
  first_violation type a = None
  ∧ enumerate [] [] = [0]
  ∧ strided_copy [] [x] [] [y] [] = Some [x]
  ∧ Scratch.pointers 1 0 1 = [0; 8; 12; 12; 8; 4; 8; 8]
  ∧ rrOp type a = Undefined.
Proof.
  intros Hop Hcheck Hm a.
  destruct (zero_dimensional_call type [x] [y]) as [Hv Hrun]; try done.
  by apply entry_checks_pass.
Qed.

Lemma scatter_arrays_overlap_witness :
  rrOp (H := sample) 2 (zero_dimensional_request 1 7) = Undefined.
Proof.
  apply (scatter_arrays_overlap (H := sample) 2 1 7).
  - by eexists.
  - reflexivity.
  - reflexivity.
Defined.

(** ** Loops over a line *)

(** A loop that steps its offset by [stride] visits the offsets
    [o, o + stride, o + 2 stride, ...] as long as they are jints. *)
Lemma for_each_strided {St} (body : Z → Z * St → option (Z * St))
    (step : Z → St → option St) (stride : Z) (n : nat) (k o : Z) (st : St) :
  (∀ i off st,
     body i (off, st) = st' ← step off st; Some (JInt.add off stride, st')) →
  (∀ j, 0 ≤ j < Z.of_nat n → JInt.in_range (o + j * stride)) →
  snd <$> for_each (seqZ k (Z.of_nat n)) body (o, st)
  = for_each ((λ j, o + j * stride) <$> seqZ 0 (Z.of_nat n)) step st.
Proof.
  intros Hbody. revert k o st. induction n as [|n IH]; intros k o st Hr.
  { done. }
  rewrite !(seqZ_cons _ (Z.of_nat (S n))) by lia.
  replace (Z.pred (Z.of_nat (S n))) with (Z.of_nat n) by lia.
  rewrite fmap_cons. cbn [for_each]. rewrite Hbody, Z.mul_0_l, Z.add_0_r.
  destruct (step o st) as [st'|]; [|done]. cbn [mbind option_bind].
  destruct n as [|n]; [done|].
  assert (JInt.add o stride = o + stride) as ->.
  { unfold JInt.add. apply wrap_id. specialize (Hr 1). rewrite Z.mul_1_l in Hr.
    apply Hr. lia. }
  rewrite IH.
  2: { intros j Hj. replace (o + stride + j * stride)
         with (o + (j + 1) * stride) by lia. apply Hr. lia. }
  f_equal. change (Z.succ 0) with (1 + 0).
  rewrite <- (fmap_add_seqZ 1 0), <- list_fmap_compose.
  apply list_fmap_ext. intros _ j _. simpl. lia.
Qed.

Section LineLoops.
Implicit Types (w : list jdouble) (offs : list Z).

Notation "w .[ o ]" := (w !!! Z.to_nat o)
  (at level 1, o at level 200, left associativity, format "w .[ o ]").

(** The first loop of [rrVar]. *)
Lemma sum_cells w offs m :
  Forall (in_bounds w) offs →
  for_each offs (λ off mean, x ← load w off; Some (PrimFloat.add mean x)) m
  = Some (accumulate m ((λ o, w.[o]) <$> offs)).
Proof.
  intros Hb. revert m. induction Hb as [|o offs Ho _ IH]; intros m; [done|].
  simpl. rewrite load_total by done. simpl. apply IH.
Qed.

(** The second loop of [rrVar], for any function of one cell. *)
Lemma map_cells (f : jdouble → jdouble) w offs :
  NoDup offs → Forall (in_bounds w) offs →
  ∃ w', for_each offs (λ off w, x ← load w off; store w off (f x)) w = Some w'
        ∧ length w' = length w
        ∧ (∀ o, o ∈ offs → w'.[o] = f w.[o])
        ∧ (∀ i, 0 ≤ i → i ∉ offs → w'.[i] = w.[i]).
Proof.
  intros Hnd. revert w. induction Hnd as [|o offs Hfresh Hnd IH]; intros w Hb.
  { exists w. split_and!; try done. intros o Ho. by apply elem_of_nil in Ho. }
  apply Forall_cons in Hb as [Ho Hb]. simpl.
  rewrite load_total by done. simpl. rewrite store_in_bounds by done. simpl.
  destruct (IH (<[Z.to_nat o := f w.[o]]> w)) as (w' & -> & Hlen & Hin & Hout).
  { eapply Forall_impl; [done|]. unfold in_bounds. intros o'.
    by rewrite length_insert. }
  rewrite length_insert in Hlen. unfold in_bounds in Ho.
  exists w'. split_and!; try done.
  - intros o' [->|Ho']%elem_of_cons.
    + rewrite Hout by (done || lia).
      apply list_lookup_total_insert_eq. lia.
    + rewrite Hin by done. f_equal. apply list_lookup_total_insert_ne.
      intros Heq. apply Z2Nat.inj in Heq; [congruence|lia|].
      rewrite Forall_forall in Hb. specialize (Hb _ Ho'). unfold in_bounds in Hb. lia.
  - intros i Hi [Hne Hni]%not_elem_of_cons. rewrite Hout by done.
    apply list_lookup_total_insert_ne. intros Heq.
    apply Z2Nat.inj in Heq; [congruence|lia..].
Qed.

(** The loop of the folding reducers, and the third loop of [rrVar]. *)
Lemma fold_cells (g : jdouble → jdouble → jdouble) w base offs :
  in_bounds w base → base ∉ offs → Forall (in_bounds w) offs →
  for_each offs
    (λ off w, a ← load w base; b ← load w off; store w base (g a b)) w
  = Some (<[Z.to_nat base := foldl g w.[base] ((λ o, w.[o]) <$> offs)]> w).
Proof.
  intros Hbase Hfresh Hb. revert w Hbase Hb.
  induction offs as [|o offs IH]; intros w Hbase Hb.
  { simpl. f_equal. symmetry. apply list_insert_id.
    apply list_lookup_lookup_total_lt. unfold in_bounds in Hbase. lia. }
  apply not_elem_of_cons in Hfresh as [Hne Hfresh].
  apply Forall_cons in Hb as [Ho Hb]. simpl.
  rewrite !load_total by done. simpl. rewrite store_in_bounds by done. simpl.
  unfold in_bounds in *.
  rewrite IH; [|done|by rewrite length_insert|].
  2: { eapply Forall_impl; [done|]. intros o'. by rewrite length_insert. }
  rewrite list_insert_insert_eq, list_lookup_total_insert_eq by lia.
  do 3 f_equal. apply list_fmap_ext. intros i o' Ho'.
  apply list_lookup_total_insert_ne. intros Heq.
  apply list_elem_of_lookup_2 in Ho'.
  apply Z2Nat.inj in Heq; [congruence|lia|].
  rewrite Forall_forall in Hb. specialize (Hb _ Ho'). simpl in Hb. lia.
Qed.

End LineLoops.

(** ** The reducers on one line *)

Lemma bind_snd {A B C} (m : option (A * B)) (f : B → option C) :
  (m ≫= λ '(_, b), f b) = (snd <$> m) ≫= f.
Proof. by destruct m as [[??]|]. Qed.

(** Regrouping the binds of a loop body. *)
Ltac regroup :=
  intros; unfold squared_deviation; cbn beta iota;
  repeat (match goal with
          | |- context [load ?a ?i] =>
              destruct (load a i); cbn [mbind option_bind]
          | |- context [store ?a ?i ?x] =>
              destruct (store a i x); cbn [mbind option_bind]
          end);
  reflexivity.

Section OneLine.
Context (w : list jdouble) (base size stride : Z).
Context (Hsize : 1 ≤ size) (Hline : line_in_bounds w base size stride).

Notation "v .[ o ]" := (v !!! Z.to_nat o)
  (at level 1, o at level 200, left associativity, format "v .[ o ]").

(** The offsets of the cells of the line, and of those past the first. *)
Let cells (k : Z) : list Z := (λ j, base + j * stride) <$> seqZ k (size - k).

Lemma cells_0 : cells 0 = base :: cells 1.
Proof.
  unfold cells. rewrite seqZ_cons by lia. rewrite fmap_cons.
  by rewrite Z.mul_0_l, Z.add_0_r, Z.sub_0_r.
Qed.

Lemma cells_in_bounds v k :
  0 ≤ k → length v = length w → Forall (in_bounds v) (cells k).
Proof.
  intros Hk Hlen. apply Forall_fmap, Forall_seqZ. intros j Hj. simpl.
  unfold in_bounds. rewrite Hlen. apply Hline. lia.
Qed.

Lemma base_in_bounds v : length v = length w → in_bounds v base.
Proof.
  intros Hlen. unfold in_bounds. rewrite Hlen.
  destruct Hline as [Hb _]. specialize (Hb 0). lia.
Qed.

Lemma cells_NoDup : NoDup (cells 0).
Proof.
  apply NoDup_fmap_2_strong; [|apply NoDup_seqZ].
  intros j j' Hj Hj' Heq. apply elem_of_seqZ in Hj, Hj'.
  destruct (decide (1 < size)) as [Hbig|]; [|lia].
  destruct Hline as [_ Hstride]. specialize (Hstride Hbig). nia.
Qed.

Lemma base_not_in_cells_1 : base ∉ cells 1.
Proof.
  pose proof cells_NoDup as Hnd. rewrite cells_0 in Hnd.
  by apply NoDup_cons in Hnd as [? _].
Qed.

Lemma line_cells : line w base size stride = (λ o, w.[o]) <$> cells 0.
Proof.
  unfold line, cells. by rewrite <- list_fmap_compose, Z.sub_0_r.
Qed.

(** A loop over [size - k] cells from the [k]-th on visits [cells k]. *)
Lemma for_each_cells {St} (body : Z → Z * St → option (Z * St))
    (step : Z → St → option St) (k : Z) (st : St) :
  0 ≤ k < size →
  (∀ i off st,
     body i (off, st) = st' ← step off st; Some (JInt.add off stride, st')) →
  snd <$> for_each (seqZ k (size - k)) body (base + k * stride, st)
  = for_each (cells k) step st.
Proof.
  intros Hk Hbody. rewrite <- (Z2Nat.id (size - k)) by lia.
  rewrite (for_each_strided body step stride) by
    (done || (intros j Hj; replace (base + k * stride + j * stride)
                with (base + (k + j) * stride) by lia;
              destruct Hline as [Hb _]; specialize (Hb (k + j));
              unfold JInt.in_range, JInt.min_value, JInt.max_value in *;
              lia)).
  f_equal. unfold cells. rewrite Z2Nat.id by lia.
  rewrite <- (Z.add_0_r k) at 2. rewrite <- (fmap_add_seqZ k 0).
  rewrite <- list_fmap_compose. apply list_fmap_ext. intros _ j _. simpl. lia.
Qed.

Lemma for_each_line {St} (body : Z → Z * St → option (Z * St))
    (step : Z → St → option St) (st : St) :
  (∀ i off st,
     body i (off, st) = st' ← step off st; Some (JInt.add off stride, st')) →
  snd <$> for_each (seqZ 0 size) body (base, st) = for_each (cells 0) step st.
Proof.
  intros Hbody. rewrite <- (for_each_cells body step 0) by (lia || done).
  by rewrite Z.sub_0_r, Z.mul_0_l, Z.add_0_r.
Qed.

(** The folding reducers leave in the first cell of the line the fold of
    its cells, from the first on, and change no other cell. *)
Lemma rrFold_line (g : jdouble → jdouble → jdouble) v :
  length v = length w →
  rrFold g base size stride v
  = Some (<[Z.to_nat base := foldl g v.[base] ((λ o, v.[o]) <$> cells 1)]> v).
Proof.
  intros Hlen. unfold rrFold.
  destruct (decide (size = 1)) as [Heq|Hne].
  { assert (cells 1 = []) as -> by (unfold cells; by rewrite Heq).
    replace (size - 1) with 0 by lia. simpl. f_equal. symmetry.
    apply list_insert_id, list_lookup_lookup_total_lt.
    pose proof (base_in_bounds v Hlen) as Hb. unfold in_bounds in Hb. lia. }
  assert (JInt.add base stride = base + 1 * stride) as ->.
  { unfold JInt.add. rewrite Z.mul_1_l. apply wrap_id.
    destruct Hline as [Hb _]. specialize (Hb 1).
    unfold JInt.in_range, JInt.min_value, JInt.max_value in *. lia. }
  rewrite (for_each_cells _
             (λ off v, a ← load v base; b ← load v off;
                       store v base (g a b))) by (lia || regroup).
  apply fold_cells.
  - by apply base_in_bounds.
  - apply base_not_in_cells_1.
  - by apply cells_in_bounds.
Qed.

(** What [rrVar] does to the line. *)
Lemma rrVarLine_line :
  let xs := line w base size stride in
  ∃ w', rrVarLine base size stride w = Some w'
        ∧ length w' = length w
        ∧ w'.[base] = population_variance xs
        ∧ (∀ o, o ∈ cells 1 → w'.[o] = squared_deviation (mean_of xs) w.[o])
        ∧ (∀ i, 0 ≤ i → i ∉ cells 0 → w'.[i] = w.[i]).
Proof.
  intros xs. unfold rrVarLine.
  (* the mean *)
  rewrite bind_snd.
  rewrite (for_each_line _
             (λ off mean, x ← load w off; Some (PrimFloat.add mean x)))
    by regroup.
  rewrite sum_cells by (by apply cells_in_bounds). cbn [mbind option_bind].
  assert (Z.of_nat (length xs) = size) as Hxs.
  { unfold xs, line. rewrite length_fmap, length_seqZ. lia. }
  assert (PrimFloat.div (accumulate 0%float ((λ o, w.[o]) <$> cells 0))
            (jdouble_of_jint size) = mean_of xs) as ->.
  { unfold mean_of. by rewrite Hxs, <- line_cells. }
  (* the squared deviations *)
  rewrite bind_snd.
  rewrite (for_each_line _
             (λ off v, x ← load v off;
                       store v off (squared_deviation (mean_of xs) x)))
    by regroup.
  destruct (map_cells (squared_deviation (mean_of xs)) w (cells 0))
    as (w2 & -> & Hlen & Hin & Hout);
    [apply cells_NoDup|by apply cells_in_bounds|].
  cbn [mbind option_bind].
  (* their sum, and the division *)
  rewrite rrFold_line by done. cbn [mbind option_bind].
  pose proof (base_in_bounds w2 Hlen) as Hb. unfold in_bounds in Hb.
  rewrite load_total by (by rewrite length_insert).
  cbn [mbind option_bind]. rewrite store_in_bounds by (by rewrite length_insert).
  rewrite list_insert_insert_eq, list_lookup_total_insert_eq by lia.
  eexists. split; [done|]. rewrite !length_insert.
  split_and!; [done| | |].
  - rewrite list_lookup_total_insert_eq by lia.
    unfold population_variance. rewrite Hxs. fold xs.
    unfold xs at 2. rewrite line_cells, cells_0, !fmap_cons.
    rewrite Hin by (rewrite cells_0; left). f_equal. unfold accumulate.
    f_equal. rewrite <- list_fmap_compose. apply list_fmap_ext.
    intros i o Ho. apply list_elem_of_lookup_2 in Ho. simpl.
    apply Hin. rewrite cells_0. by right.
  - intros o Ho. rewrite list_lookup_total_insert_ne.
    + apply Hin. rewrite cells_0. by right.
    + intros Heq. pose proof base_not_in_cells_1 as Hfresh.
      pose proof (cells_in_bounds w 1 ltac:(lia) eq_refl) as Hcb.
      rewrite Forall_forall in Hcb. specialize (Hcb _ Ho).
      unfold in_bounds in Hcb. apply Z2Nat.inj in Heq; [congruence|lia..].
  - intros i Hi Hni. rewrite list_lookup_total_insert_ne.
    + by apply Hout.
    + intros Heq. apply Z2Nat.inj in Heq; [|lia..]. subst i.
      apply Hni. rewrite cells_0. left.
Qed.

End OneLine.


(** ** Binary64 facts: the variance of a single finite value *)

Lemma Prim2SF_one : Prim2SF 1%float = one_SF.
Proof. vm_compute. reflexivity. Qed.

Section DivOne.
Context (s : bool) (m : positive) (e : Z).
Context (Hvalid : bounded prec emax m e = true).

Lemma canonical_exponent : fexp prec emax (Zpos (digits2_pos m) + e) = e.
Proof.
  unfold bounded, canonical_mantissa in Hvalid.
  apply andb_prop in Hvalid as [Hc _]. by apply Z.eqb_eq in Hc.
Qed.

Lemma exponent_le : (e <=? emax - prec) = true.
Proof.
  unfold bounded in Hvalid. by apply andb_prop in Hvalid as [_ Hc].
Qed.

Lemma shr_fexp_canonical :
  shr_fexp prec emax (Zpos m) e loc_Exact
  = (Build_shr_record (Zpos m) false false, e).
Proof.
  unfold shr_fexp. cbn [Zdigits2 shr_record_of_loc].
  by rewrite canonical_exponent, Z.sub_diag.
Qed.

Lemma shr_fexp_doubled :
  e ≠ -1074 →
  shr_fexp prec emax (Zpos m~0) (e - 1) loc_Exact
  = (Build_shr_record (Zpos m) false false, e).
Proof.
  intros He. unfold shr_fexp. cbn [Zdigits2 shr_record_of_loc digits2_pos].
  pose proof canonical_exponent as Hc. unfold fexp, SpecFloat.emin, prec, emax in *.
  replace (Z.max (Z.pos (Pos.succ (digits2_pos m)) + (e - 1) - 53) (3 - 1024 - 53) - (e - 1)) with 1 by lia.
  cbn [shr iter_pos shr_1 orb]. f_equal. lia.
Qed.

Lemma binary_round_aux_canonical mrs :
  shr_m mrs = Zpos m → shr_r mrs = false → shr_s mrs = false →
  (let '(mrs'', e'') :=
     shr_fexp prec emax
       (round_nearest_even (shr_m mrs) (loc_of_shr_record mrs)) e loc_Exact in
   match shr_m mrs'' with
   | Z0 => S754_zero s
   | Zpos m => if e'' <=? emax - prec then S754_finite s m e'' else S754_infinity s
   | _ => S754_nan
   end) = S754_finite s m e.
Proof.
  destruct mrs as [mm r st]. simpl. intros -> -> ->.
  cbn [loc_of_shr_record round_nearest_even].
  rewrite shr_fexp_canonical. cbn [shr_m]. by rewrite exponent_le.
Qed.

Lemma SFdiv_core_one :
  SFdiv_core_binary prec emax (Zpos m) e 4503599627370496 (-52)
  = if decide (e = -1074) then (Zpos m, e, loc_Exact)
    else (Zpos m~0, e - 1, loc_Exact).
Proof.
  unfold SFdiv_core_binary. cbn [Zdigits2].
  change (digits2_pos 4503599627370496) with 53%positive.
  pose proof canonical_exponent as Hc.
  unfold fexp, SpecFloat.emin, prec, emax in *.
  case_decide as He.
  - replace (Z.min _ _) with e by lia.
    replace (e - -52 - e) with 52 by lia.
    rewrite Z.shiftl_mul_pow2 by lia.
    pose proof (Z.div_mul (Zpos m) (2 ^ 52) ltac:(lia)) as Hq.
    pose proof (Z.mod_mul (Zpos m) (2 ^ 52) ltac:(lia)) as Hr.
    unfold Z.div, Z.modulo in Hq, Hr.
    change (2 ^ 52) with 4503599627370496 in *.
    destruct (Z.div_eucl _ _) as [q r]. by subst.
  - replace (Z.min _ _) with (e - 1) by lia.
    replace (e - -52 - (e - 1)) with 53 by lia.
    rewrite Z.shiftl_mul_pow2 by lia.
    replace (Zpos m * 2 ^ 53) with (Zpos m~0 * 2 ^ 52) by lia.
    pose proof (Z.div_mul (Zpos m~0) (2 ^ 52) ltac:(lia)) as Hq.
    pose proof (Z.mod_mul (Zpos m~0) (2 ^ 52) ltac:(lia)) as Hr.
    unfold Z.div, Z.modulo in Hq, Hr.
    change (2 ^ 52) with 4503599627370496 in *.
    destruct (Z.div_eucl _ _) as [q r]. by subst.
Qed.

Lemma SFdiv_one : SF64div (S754_finite s m e) one_SF = S754_finite s m e.
Proof.
  unfold SF64div, one_SF, SFdiv. rewrite SFdiv_core_one.
  rewrite xorb_false_r. unfold binary_round_aux.
  case_decide as He.
  - rewrite shr_fexp_canonical. by apply binary_round_aux_canonical.
  - rewrite shr_fexp_doubled by done. by apply binary_round_aux_canonical.
Qed.

End DivOne.

Lemma variance_of_one (x : float) :
  finite x →
  (((x - (0 + x) / 1) * (x - (0 + x) / 1)) / 1)%float = 0%float.
Proof.
  intros Hf. apply Prim2SF_inj.
  rewrite !div_spec, !mul_spec, !sub_spec, !div_spec, !add_spec, Prim2SF_one.
  change (Prim2SF 0) with (S754_zero false).
  pose proof (Prim2SF_valid x) as Hv. unfold finite in Hf.
  destruct (Prim2SF x) as [s| | |s m e]; try done.
  - by destruct s.
  - change (SF64add (S754_zero false) (S754_finite s m e))
      with (S754_finite s m e).
    rewrite SFdiv_one by done.
    assert (SF64sub (S754_finite s m e) (S754_finite s m e)
            = S754_zero false) as ->.
    { unfold SF64sub, SFsub. by rewrite Z.sub_diag. }
    reflexivity.
Qed.

Lemma population_variance_singleton (x : jdouble) :
  finite x → population_variance [x] = 0%float.
Proof. apply variance_of_one. Qed.

(** ** The variance reducer *)

Lemma load_None {A} (a : list A) i :
  ¬ (0 ≤ i < Z.of_nat (length a)) → load a i = None.
Proof.
  intros Hi. unfold load. case_decide; [|done].
  apply lookup_ge_None. lia.
Qed.

Lemma rrVar_one_line w base size stride :
  rrVar w [Some base] 1 size stride = rrVarLine base size stride w.
Proof.
  unfold rrVar, rrLines. rewrite seqZ_cons, seqZ_nil by lia. simpl.
  by destruct (rrVarLine _ _ _ _).
Qed.

(** C2, as the code has it: on a line of [size >= 1] distinct cells inside
    the array, [rrVar]
    leaves the population variance of the line (divisor [size]) in its
    first cell: the mean is the sum of the cells from the first on divided by
    [size], every cell is overwritten with its squared deviation from that
    mean, and the first cell then receives the sum of the squared deviations
    divided by [size]; the other cells of the line keep their squared
    deviation and no cell outside the line changes.  A line of one finite
    value yields 0, and each row of the [2,3] example yields (1+0+1)/3. *)
Theorem rrVar_population_variance (w : list jdouble) (base size stride : Z) :
  1 ≤ size →
  line_in_bounds w base size stride →
  let xs := line w base size stride in
  (∃ w', rrVar w [Some base] 1 size stride = Some w'
         ∧ length w' = length w
         ∧ load w' base = Some (population_variance xs)
         ∧ (∀ j, 1 ≤ j < size →
                 load w' (base + j * stride)
                 = Some (squared_deviation (mean_of xs)
                           (w !!! Z.to_nat (base + j * stride))))
         ∧ (∀ i, (∀ j, 0 ≤ j < size → i ≠ base + j * stride) →
                 load w' i = load w i))
  ∧ (size = 1 → finite (w !!! Z.to_nat base) →
     population_variance xs = 0%float)
  ∧ rrVar [1; 2; 3; 4; 5; 6]%float [Some 0; Some 3] 2 3 1
    = Some [(1 + 0 + 1) / 3; 0; 1; (1 + 0 + 1) / 3; 0; 1]%float.
Proof.
  intros Hsize Hline xs. split_and!.
  - destruct (rrVarLine_line w base size stride Hsize Hline)
      as (w' & Hrun & Hlen & Hbase & Hin & Hout).
    exists w'. rewrite rrVar_one_line.
    pose proof (base_in_bounds w base size stride Hsize Hline w' Hlen) as Hb.
    split_and!; try done.
    + by rewrite load_total, Hbase.
    + intros j Hj.
      assert (in_bounds w' (base + j * stride)) as Hjb.
      { unfold in_bounds. rewrite Hlen. apply Hline. lia. }
      rewrite load_total by done. f_equal. apply Hin.
      apply list_elem_of_fmap. exists j. split; [done|].
      apply elem_of_seqZ. lia.
    + intros i Hi. destruct (decide (0 ≤ i < Z.of_nat (length w))) as [Hib|Hib].
      * rewrite !load_total by (by rewrite ?Hlen). f_equal.
        apply Hout; [lia|]. intros (j & -> & Hj%elem_of_seqZ)%list_elem_of_fmap.
        apply (Hi j); [lia|done].
      * by rewrite !load_None by (by rewrite ?Hlen).
  - intros -> Hf. unfold xs, line. rewrite seqZ_cons, seqZ_nil by lia.
    simpl. rewrite Z.add_0_r. by apply population_variance_singleton.
  - vm_compute. reflexivity.
Qed.

Lemma rrVar_population_variance_witness :
  ∃ w', rrVar [4; 5; 6]%float [Some 0] 1 3 1 = Some w'
        ∧ load w' 0 = Some (population_variance [4; 5; 6]%float).
Proof.
  destruct (rrVar_population_variance [4; 5; 6]%float 0 3 1)
    as [(w' & Hrun & _ & Hbase & _) _].
  - lia.
  - split; [|lia]. intros j Hj. simpl.
    unfold JInt.max_value. lia.
  - by exists w'.
Defined.

(** Reducing axis 1 of the [2,3] example with Variance. *)
Example variance_of_example_rows :
  let a := Arrays (Some [1; 2; 3; 4; 5; 6]%float) (Some [2; 3]) (Some [3; 1])
             (Some [0; 0]%float) (Some [2; 1]) (Some [1; 1]) (Some [1]) in
  rrOp (H := sample) 4 a
  = Returned (set_dstV a [(1 + 0 + 1) / 3; (1 + 0 + 1) / 3]%float).
Proof. vm_compute. reflexivity. Qed.

(** The claim as it was stated fails on a line of size 1 that holds an
    infinity: its deviation from its own mean is not a number. *)
Lemma variance_of_an_infinity :
  line_in_bounds [infinity] 0 1 1
  ∧ rrVar [infinity] [Some 0] 1 1 1 = Some [nan]
  ∧ nan ≠ 0%float.
Proof.
  split_and!.
  - split; [|lia]. intros j Hj. simpl. unfold JInt.max_value. lia.
  - vm_compute. reflexivity.
  - intros Heq. apply (f_equal PrimFloat.is_nan) in Heq.
    vm_compute in Heq. discriminate Heq.
Qed.

(** ** Further properties of the driver and of the reducers *)

Section Further.
Context `{Externals}.

Lemma product_permuted dstLen (srcDArr l l' : list Z) :
  l ≡ₚ l' → product dstLen srcDArr l = product dstLen srcDArr l'.
Proof.
  intros Hp. unfold product. f_equal.
  apply (fmap_Permutation (λ dim, srcDArr !!! Z.to_nat dim)) in Hp.
  induction Hp as [|x l1 l2 _ IH|x y l1|l1 l2 l3 _ IH1 _ IH2]; simpl.
  - done.
  - by rewrite IH.
  - by rewrite !Z.mul_assoc, (Z.mul_comm y x).
  - by rewrite IH1.
Qed.

Lemma jint_product_zero acc (srcDArr l : list Z) d :
  d ∈ l → srcDArr !!! Z.to_nat d = 0 → jint_product acc srcDArr l = 0.
Proof.
  unfold jint_product. revert acc.
  induction l as [|x l IH]; intros acc Hd Hz; [by apply elem_of_nil in Hd|].
  simpl. apply elem_of_cons in Hd as [<-|Hd]; [|by apply IH].
  rewrite Hz, mul_0_r. clear. induction l as [|y l IH]; [done|].
  simpl. by rewrite mul_0_l.
Qed.

End Further.

(** X1: the shape check is exact when the product fits a jint: past the entry
    checks and the checks on each axis, a request whose product of the
    destination's element count and the selected source lengths is within
    32 bits is rejected with ShapeMismatch exactly when that product
    differs from the source's element count. *)
Theorem shape_mismatch_when_product_fits `{Externals} (type : Z) (a : arrays)
    (srcVArr dstVArr : list jdouble) (srcDArr dstDArr sel : list Z) :
  first_of (entry_checks type a) = None →
  srcV a = Some srcVArr → srcD a = Some srcDArr →
  dstV a = Some dstVArr → dstD a = Some dstDArr →
  selectedDims a = Some sel →
  NoDup sel →
  (∀ d, d ∈ sel → 0 ≤ d < Z.of_nat (length srcDArr)
                  ∧ dstDArr !!! Z.to_nat d ≤ 1) →
  let dstLen := Z.of_nat (length dstVArr) in
  let srcLen := Z.of_nat (length srcVArr) in
  JInt.in_range dstLen →
  JInt.in_range (product dstLen srcDArr sel) →
  (product dstLen srcDArr sel ≠ srcLen →
   rrOp type a = Thrown ShapeMismatch (sorted a))
  ∧ (product dstLen srcDArr sel = srcLen → first_violation type a = None).
Proof.
  intros Hentry Hv1 Hd1 Hv2 Hd2 Hsel Hnd Haxes dstLen srcLen Hr Hp.
  assert (first_of (axis_checks a)
          = violated ShapeMismatch
              (bool_decide (product dstLen srcDArr sel ≠ srcLen))) as Haxis.
  { unfold axis_checks. rewrite Hv1, Hd1, Hv2, Hd2, Hsel. cbv zeta.
    cbn [app default from_option id].
    rewrite first_of_cons_violated, bool_decide_eq_false_2
      by (rewrite sort_Permutation; tauto).
    rewrite first_of_app, first_of_axis_in_range.
    2: { apply Forall_forall. intros d Hd. apply Haxes.
         by rewrite <- (sort_Permutation sel). }
    rewrite first_of_cons_violated.
    fold dstLen srcLen.
    rewrite (product_permuted dstLen srcDArr sel (sort sel)) in *
      by (by rewrite sort_Permutation).
    rewrite shape_check_exact by done.
    unfold violated. by case_bool_decide. }
  split.
  - intros Hne. apply rrOp_axis_checks; [done|]. rewrite Haxis.
    unfold violated. by rewrite bool_decide_eq_true_2.
  - intros Heq. unfold first_violation.
    rewrite first_of_app, Hentry, Haxis. unfold violated.
    by rewrite bool_decide_eq_false_2 by (intros Hn; by apply Hn).
Qed.

Lemma shape_mismatch_when_product_fits_witness :
  let a := Arrays (Some [1; 2; 3; 4; 5; 6]%float) (Some [2; 3]) (Some [3; 1])
             (Some [0; 0]%float) (Some [1; 2]) (Some [2; 1]) (Some [0]) in
  rrOp (H := sample) 0 a = Thrown ShapeMismatch a.
Proof.
  intros a.
  refine (proj1 (shape_mismatch_when_product_fits (H := sample) 0 a
                   [1; 2; 3; 4; 5; 6]%float [0; 0]%float [2; 3] [1; 2] [0]
                   _ eq_refl eq_refl eq_refl eq_refl eq_refl _ _ _ _) _).
  - vm_compute. reflexivity.
  - apply NoDup_singleton.
  - intros d ->%list_elem_of_singleton. vm_compute. by split_and!.
  - vm_compute. by split.
  - vm_compute. by split.
  - vm_compute. discriminate.
Defined.

(** X2: no division by zero: past validation, with source elements, every
    selected source length that [acc] is divided by is not zero. *)
Theorem selected_lengths_are_not_zero `{Externals} (type : Z) (a : arrays)
    (srcVArr : list jdouble) (srcDArr sel : list Z) :
  first_violation type a = None →
  srcV a = Some srcVArr → srcVArr ≠ [] →
  srcD a = Some srcDArr → selectedDims a = Some sel →
  ∀ d, d ∈ sel → srcDArr !!! Z.to_nat d ≠ 0.
Proof.
  intros Hv Hv1 Hne Hd1 Hsel d Hd Hz.
  unfold first_violation in Hv. rewrite first_of_app in Hv.
  destruct (first_of (entry_checks type a)); [done|].
  unfold axis_checks in Hv. rewrite Hv1, Hd1, Hsel in Hv. cbv zeta in Hv.
  cbn [app default from_option id] in Hv.
  rewrite first_of_cons_violated in Hv.
  destruct (bool_decide (¬ NoDup (sort sel))); [done|].
  rewrite first_of_app in Hv.
  destruct (first_of (axis_check _ _ <$> _)); [done|].
  rewrite first_of_cons_violated in Hv.
  rewrite (jint_product_zero _ srcDArr (sort sel) d) in Hv
    by (done || by rewrite sort_Permutation).
  rewrite bool_decide_eq_true_2 in Hv; [done|].
  destruct srcVArr; [done|]. simpl. lia.
Qed.

Lemma selected_lengths_are_not_zero_witness :
  [2; 3] !!! Z.to_nat 0 ≠ 0.
Proof.
  apply (selected_lengths_are_not_zero (H := sample) 0
           (example_2_3 [0; 0; 0]%float) [1; 2; 3; 4; 5; 6]%float
           [2; 3] [0]).
  - vm_compute. reflexivity.
  - reflexivity.
  - done.
  - reflexivity.
  - reflexivity.
  - apply list_elem_of_here.
Defined.

(** X3: the folding reducers on one line of distinct cells inside the array:
    the first cell receives the fold of the cells from the first on, under
    addition, multiplication, [std::max] or [std::min], and no other cell
    changes. *)
Theorem folding_reducers_on_line (w : list jdouble) (base size stride : Z) :
  1 ≤ size →
  line_in_bounds w base size stride →
  let rest := (λ j, w !!! Z.to_nat (base + j * stride)) <$> seqZ 1 (size - 1) in
  let first := w !!! Z.to_nat base in
  let result x := Some (<[Z.to_nat base := x]> w) in
  rrSum w [Some base] 1 size stride = result (foldl PrimFloat.add first rest)
  ∧ rrProd w [Some base] 1 size stride = result (foldl PrimFloat.mul first rest)
  ∧ rrMax w [Some base] 1 size stride
    = result (foldl (λ a b, std_max b a) first rest)
  ∧ rrMin w [Some base] 1 size stride
    = result (foldl (λ a b, std_min b a) first rest).
Proof.
  intros Hsize Hline rest first result.
  assert (∀ g, rrLines (λ workingIndex, rrFold g workingIndex size stride)
                 w [Some base] 1 = result (foldl g first rest)) as Hg.
  { intros g. unfold rrLines. rewrite seqZ_cons, seqZ_nil by lia. simpl.
    rewrite (rrFold_line w base size stride Hsize Hline g w eq_refl). simpl.
    unfold result, first, rest. by rewrite <- list_fmap_compose. }
  unfold rrSum, rrProd, rrMax, rrMin. by rewrite !Hg.
Qed.

Lemma folding_reducers_on_line_witness :
  rrSum [1; 2; 3; 4; 5; 6]%float [Some 1] 1 2 3
  = Some [1; 2 + 5; 3; 4; 5; 6]%float.
Proof.
  refine (proj1 (folding_reducers_on_line [1; 2; 3; 4; 5; 6]%float 1 2 3 _ _)).
  - lia.
  - split; [|lia]. intros j Hj. simpl. unfold JInt.max_value. lia.
Defined.

(** X4: reducing both axes of a [2,3] array of ones with Sum leaves the single
    destination value 6. *)
Theorem sum_of_all_ones `{Externals} (x : jdouble) (sel : list Z) :
  sel ≡ₚ [0; 1] →
  checkDimensions [2; 3] [3; 1] 2 6 = true →
  checkDimensions [1; 1] [1; 1] 2 1 = true →
  mallocH (malloc_size 6 2 1) = true →
  let a := Arrays (Some [1; 1; 1; 1; 1; 1]%float) (Some [2; 3]) (Some [3; 1])
             (Some [x]) (Some [1; 1]) (Some [1; 1]) (Some sel) in
  rrOp RR_SUM a = Returned (set_dstV (set_selectedDims a [0; 1]) [6]%float).
Proof.
  intros Hp Hsrc Hdst Hmalloc a.
  unfold rrOp. rewrite select_RR_SUM.
  unfold a, rrOp_pinned, rrOp_compute.
  cbn [srcV srcD srcS dstV dstD dstS selectedDims length].
  rewrite (sort_permuted sel [0; 1]) by done.
  change (Z.of_nat 6) with 6. change (Z.of_nat 1) with 1.
  change (Z.of_nat 2) with 2.
  rewrite Hsrc, Hdst, Hmalloc.
  rewrite !(bool_decide_eq_false_2 (2 ≠ 2)) by (intros Hn; by apply Hn).
  cbn [orb negb]. vm_compute. reflexivity.
Qed.

Lemma sum_of_all_ones_witness :
  let a := Arrays (Some [1; 1; 1; 1; 1; 1]%float) (Some [2; 3]) (Some [3; 1])
             (Some [0]%float) (Some [1; 1]) (Some [1; 1]) (Some [1; 0]) in
  rrOp (H := sample) 0 a
  = Returned (set_dstV (set_selectedDims a [0; 1]) [6]%float).
Proof.
  apply (sum_of_all_ones (H := sample) 0%float [1; 0]).
  - apply Permutation_swap.
  - vm_compute. reflexivity.
  - vm_compute. reflexivity.
  - reflexivity.
Defined.

(** * More on the reducers and on the driver *)

(** ** Binary64 facts: the order of the numbers *)

Lemma SFcompare_refl s : s ≠ S754_nan → SFcompare s s = Some Eq.
Proof.
  destruct s as [[]|[]| |[] m e]; try done; intros _; simpl;
    by rewrite Z.compare_refl, ?Pos.compare_cont_refl.
Qed.

Lemma SFleb_trans a b c :
  SFleb a b = true → SFleb b c = true → SFleb a c = true.
Proof.
  unfold SFleb.
  destruct a as [[]|[]| |[] m1 e1], b as [[]|[]| |[] m2 e2],
    c as [[]|[]| |[] m3 e3]; simpl; try done.
  all: change (Pos.compare_cont Eq) with Pos.compare.
  all: destruct (Z.compare_spec e1 e2), (Z.compare_spec e2 e3),
         (Z.compare_spec e1 e3); try done; try lia; subst.
  all: destruct (Pos.compare_spec m1 m2), (Pos.compare_spec m2 m3),
         (Pos.compare_spec m1 m3); simpl; try done; try lia.
Qed.

Lemma SFltb_leb a b :
  SFltb a b = true → SFleb a b = true ∧ a ≠ S754_nan ∧ b ≠ S754_nan.
Proof.
  unfold SFltb, SFleb.
  destruct a as [[]|[]| |[] m1 e1], b as [[]|[]| |[] m2 e2]; simpl; try done.
  all: by destruct (e1 ?= e2), (Pos.compare_cont Eq m1 m2).
Qed.

Lemma SFcompare_swap a b :
  SFcompare b a = CompOpp <$> SFcompare a b.
Proof.
  destruct a as [[]|[]| |[] m1 e1], b as [[]|[]| |[] m2 e2]; simpl; try done.
  all: change (Pos.compare_cont Eq) with Pos.compare.
  all: rewrite (Z.compare_antisym e1 e2), (Pos.compare_antisym m1 m2).
  all: by destruct (e1 ?= e2), (m1 ?= m2)%positive.
Qed.

Lemma SFleb_total a b :
  a ≠ S754_nan → b ≠ S754_nan → SFltb a b = false → SFleb b a = true.
Proof.
  intros Ha Hb. unfold SFltb, SFleb. rewrite (SFcompare_swap a b).
  destruct (SFcompare a b) as [[]|] eqn:Hc; try done.
  destruct a, b; try done.
Qed.

Lemma is_nan_spec (x : float) :
  PrimFloat.is_nan x = true ↔ Prim2SF x = S754_nan.
Proof.
  unfold PrimFloat.is_nan. rewrite FloatAxioms.eqb_spec. unfold SFeqb.
  destruct (Prim2SF x) eqn:Hx; try done.
  all: rewrite SFcompare_refl by done; simpl; split; done.
Qed.

Lemma is_nan_false (x : float) :
  PrimFloat.is_nan x = false ↔ Prim2SF x ≠ S754_nan.
Proof. rewrite <- is_nan_spec. by destruct (PrimFloat.is_nan x). Qed.

Lemma leb_refl (x : float) :
  PrimFloat.is_nan x = false → (x <=? x)%float = true.
Proof.
  rewrite is_nan_false, FloatAxioms.leb_spec. intros Hx. unfold SFleb.
  by rewrite SFcompare_refl.
Qed.

Lemma leb_trans (x y z : float) :
  (x <=? y)%float = true → (y <=? z)%float = true → (x <=? z)%float = true.
Proof. rewrite !FloatAxioms.leb_spec. apply SFleb_trans. Qed.

Lemma ltb_leb (x y : float) :
  (x <? y)%float = true →
  (x <=? y)%float = true
  ∧ PrimFloat.is_nan x = false ∧ PrimFloat.is_nan y = false.
Proof.
  rewrite FloatAxioms.ltb_spec, FloatAxioms.leb_spec, !is_nan_false.
  apply SFltb_leb.
Qed.

Lemma not_ltb_leb (x y : float) :
  PrimFloat.is_nan x = false → PrimFloat.is_nan y = false →
  (x <? y)%float = false → (y <=? x)%float = true.
Proof.
  rewrite FloatAxioms.ltb_spec, FloatAxioms.leb_spec, !is_nan_false.
  apply SFleb_total.
Qed.

(** [std::max] and [std::min] return one of their arguments. *)
Lemma std_max_cases a b : std_max a b = a ∨ std_max a b = b.
Proof. unfold std_max. destruct (a <? b)%float; auto. Qed.

Lemma std_min_cases a b : std_min a b = a ∨ std_min a b = b.
Proof. unfold std_min. destruct (b <? a)%float; auto. Qed.

Section Extremum.
(** [step acc x] is the new value of the first cell, [acc], after the
    cell holding [x] was visited; [below y m] says that [m] is at least as
    extreme as [y]. *)
Context (step : float → float → float) (below : float → float → bool).
Context (step_cases : ∀ acc x, step acc x = acc ∨ step acc x = x).
Context (step_nan : ∀ acc x,
  PrimFloat.is_nan (step acc x) = PrimFloat.is_nan x).
Context (step_below : ∀ acc x,
  PrimFloat.is_nan acc = false → PrimFloat.is_nan x = false →
  below acc (step acc x) = true ∧ below x (step acc x) = true).
Context (below_refl : ∀ x, PrimFloat.is_nan x = false → below x x = true).
Context (below_trans : ∀ x y z,
  below x y = true → below y z = true → below x z = true).

Lemma extremum_elem_of x xs : foldl step x xs ∈ x :: xs.
Proof.
  revert x. induction xs as [|y ys IH]; intros x; simpl; [left|].
  specialize (IH (step x y)).
  apply elem_of_cons in IH as [->|IH]; [|by do 2 right].
  destruct (step_cases x y) as [->| ->]; [left|right; left].
Qed.

Lemma extremum_nan x xs :
  PrimFloat.is_nan (foldl step x xs) = PrimFloat.is_nan (List.last xs x).
Proof.
  revert x. induction xs as [|y ys IH]; intros x; [done|].
  cbn [foldl]. rewrite IH. destruct ys as [|z ys]; [apply step_nan|].
  clear. revert z. induction ys as [|z' ys IH]; intros z; [done|].
  cbn [List.last] in *. apply IH.
Qed.

Lemma extremum_bound x xs :
  Forall (λ y, PrimFloat.is_nan y = false) (x :: xs) →
  Forall (λ y, below y (foldl step x xs) = true) (x :: xs).
Proof.
  revert x. induction xs as [|y ys IH]; intros x Hn.
  { apply Forall_cons in Hn as [Hx _]. constructor; [|constructor].
    by apply below_refl. }
  apply Forall_cons in Hn as [Hx Hn]. apply Forall_cons in Hn as [Hy Hn].
  cbn [foldl]. destruct (step_below x y Hx Hy) as [Hxs Hys].
  assert (PrimFloat.is_nan (step x y) = false) as Hs by (by rewrite step_nan).
  specialize (IH (step x y) (Forall_cons_2 _ _ _ Hs Hn)).
  apply Forall_cons in IH as [Hm IH].
  repeat constructor; [by eapply below_trans..|done].
Qed.

End Extremum.

(** ** The reducers on many lines *)

(** Reading the base offsets through the loop counter visits them in
    order. *)
Lemma rrLines_bases (lineop : Z → list jdouble → option (list jdouble))
    (w : list jdouble) (bases : list Z) (rest : list cell) :
  rrLines lineop w ((Some <$> bases) ++ rest) (Z.of_nat (length bases))
  = for_each bases lineop w.
Proof.
  unfold rrLines. rewrite <- (for_each_indexed bases lineop w).
  apply for_each_ext.
  intros i v Hi%elem_of_seqZ. unfold load_cell, load.
  rewrite decide_True by lia.
  rewrite lookup_app_l by (rewrite length_fmap; lia).
  rewrite list_lookup_fmap. by destruct (bases !! Z.to_nat i).
Qed.

Section ManyLines.
Context (size stride : Z) (Hsize : 1 ≤ size).

Notation "v .[ o ]" := (v !!! Z.to_nat o)
  (at level 1, o at level 200, left associativity, format "v .[ o ]").

Lemma base_in_line_offsets b : b ∈ line_offsets b size stride.
Proof.
  unfold line_offsets. rewrite seqZ_cons by lia. rewrite fmap_cons.
  rewrite Z.mul_0_l, Z.add_0_r. left.
Qed.

Lemma line_offsets_cons b :
  line_offsets b size stride
  = b :: ((λ j, b + j * stride) <$> seqZ 1 (size - 1)).
Proof.
  unfold line_offsets. rewrite seqZ_cons by lia. rewrite fmap_cons.
  by rewrite Z.mul_0_l, Z.add_0_r.
Qed.

Lemma line_line_offsets v b :
  line v b size stride = (λ o, v.[o]) <$> line_offsets b size stride.
Proof. unfold line, line_offsets. by rewrite <- list_fmap_compose. Qed.

Lemma lines_apart_cons w b bases :
  lines_apart w (b :: bases) size stride →
  line_in_bounds w b size stride
  ∧ lines_apart w bases size stride
  ∧ (∀ o, o ∈ line_offsets b size stride →
          0 ≤ o ∧ o ∉ bases ≫= λ b', line_offsets b' size stride)
  ∧ b ∉ bases.
Proof.
  unfold lines_apart. cbv zeta. rewrite bind_cons.
  intros [[Hb Hbs]%Forall_app (Hnd & Hdis & Hnds)%NoDup_app].
  assert (∀ o, o ∈ line_offsets b size stride →
            0 ≤ o ∧ o ∉ bases ≫= λ b', line_offsets b' size stride) as Hout.
  { intros o Ho. split; [|by apply Hdis].
    rewrite Forall_forall in Hb. specialize (Hb _ Ho). lia. }
  split_and!; try done.
  - split.
    + intros j Hj. rewrite Forall_forall in Hb. apply Hb.
      apply list_elem_of_fmap. exists j. split; [done|].
      apply elem_of_seqZ. lia.
    + intros Hbig Hz. rewrite line_offsets_cons in Hnd.
      apply NoDup_cons in Hnd as [Hfresh _]. apply Hfresh.
      apply list_elem_of_fmap. exists 1. split; [lia|].
      apply elem_of_seqZ. lia.
  - intros Hin. apply (Hout b (base_in_line_offsets b)).
    apply list_elem_of_bind. exists b. split; [|done].
    apply base_in_line_offsets.
Qed.

(** The folding reducers on lines apart from each other: every first cell
    receives the fold of its line, no other cell changes. *)
Lemma fold_lines (g : jdouble → jdouble → jdouble) w bases v :
  length v = length w →
  lines_apart w bases size stride →
  (∀ o, o ∈ bases ≫= (λ b, line_offsets b size stride) → v.[o] = w.[o]) →
  ∃ w', for_each bases (λ b v, rrFold g b size stride v) v = Some w'
        ∧ length w' = length w
        ∧ (∀ b, b ∈ bases →
                w'.[b] = foldl g w.[b]
                           ((λ j, w.[b + j * stride]) <$> seqZ 1 (size - 1)))
        ∧ (∀ i, 0 ≤ i → i ∉ bases → w'.[i] = v.[i]).
Proof.
  revert v. induction bases as [|b bases IH]; intros v Hlen Hapart Hagree.
  { exists v. split_and!; try done. intros b Hb. by apply elem_of_nil in Hb. }
  destruct (lines_apart_cons _ _ _ Hapart) as (Hline & Hrest & Hout & Hfresh).
  cbn [for_each].
  assert (line_in_bounds v b size stride) as Hline'
    by (unfold line_in_bounds in *; by rewrite Hlen).
  rewrite (rrFold_line v b size stride Hsize Hline') by done.
  cbn [mbind option_bind].
  set (x := foldl g _ _).
  assert (0 ≤ b < Z.of_nat (length v)) as Hb.
  { rewrite Hlen. destruct Hline as [Hl _]. specialize (Hl 0). lia. }
  destruct (IH (<[Z.to_nat b := x]> v)) as (w' & Hrun & Hlen' & Hin & Hother).
  - by rewrite length_insert.
  - done.
  - intros o Ho. rewrite list_lookup_total_insert_ne.
    + apply Hagree. rewrite bind_cons. apply elem_of_app. by right.
    + intros Heq. assert (0 ≤ o) as Hpos.
      { destruct Hrest as [Hf _]. rewrite Forall_forall in Hf.
        specialize (Hf _ Ho). lia. }
      apply Z2Nat.inj in Heq; [|lia..]. subst o.
      by apply (Hout b (base_in_line_offsets b)).
  - exists w'. split_and!; try done.
    + intros b' [->|Hb']%elem_of_cons; [|by apply Hin].
      rewrite Hother by (done || lia).
      rewrite list_lookup_total_insert_eq by lia. unfold x.
      rewrite <- list_fmap_compose.
      rewrite Hagree by (rewrite bind_cons; apply elem_of_app; left;
                         apply base_in_line_offsets).
      f_equal. apply list_fmap_ext. intros _ j Hj%list_elem_of_lookup_2.
      apply elem_of_seqZ in Hj. cbn. apply Hagree.
      rewrite bind_cons. apply elem_of_app. left.
      apply list_elem_of_fmap. exists j. split; [done|].
      apply elem_of_seqZ. lia.
    + intros i Hi [Hne Hni]%not_elem_of_cons. rewrite Hother by done.
      apply list_lookup_total_insert_ne. intros Heq.
      apply Z2Nat.inj in Heq; [congruence|lia..].
Qed.

(** [rrVar] on lines apart from each other. *)
Lemma var_lines w bases v :
  length v = length w →
  lines_apart w bases size stride →
  (∀ o, o ∈ bases ≫= (λ b, line_offsets b size stride) → v.[o] = w.[o]) →
  ∃ w', for_each bases (λ b v, rrVarLine b size stride v) v = Some w'
        ∧ length w' = length w
        ∧ (∀ b, b ∈ bases →
                w'.[b] = population_variance (line w b size stride)
                ∧ ∀ j, 1 ≤ j < size →
                       w'.[b + j * stride]
                       = squared_deviation (mean_of (line w b size stride))
                           w.[b + j * stride])
        ∧ (∀ i, 0 ≤ i →
                i ∉ bases ≫= (λ b, line_offsets b size stride) →
                w'.[i] = v.[i]).
Proof.
  revert v. induction bases as [|b bases IH]; intros v Hlen Hapart Hagree.
  { exists v. split_and!; try done. intros b Hb. by apply elem_of_nil in Hb. }
  destruct (lines_apart_cons _ _ _ Hapart) as (Hline & Hrest & Hout & Hfresh).
  cbn [for_each].
  assert (line_in_bounds v b size stride) as Hline'
    by (unfold line_in_bounds in *; by rewrite Hlen).
  destruct (rrVarLine_line v b size stride Hsize Hline')
    as (v1 & -> & Hlen1 & Hbase & Hin1 & Hout1).
  cbn [mbind option_bind].
  assert (line v b size stride = line w b size stride) as Hsame.
  { rewrite !line_line_offsets. apply list_fmap_ext.
    intros _ o Ho%list_elem_of_lookup_2. apply Hagree.
    rewrite bind_cons. apply elem_of_app. by left. }
  rewrite Hsame in Hbase, Hin1. rewrite Z.sub_0_r in Hout1.
  fold (line_offsets b size stride) in Hout1.
  destruct (IH v1) as (w' & Hrun & Hlen' & Hin & Hother).
  - congruence.
  - done.
  - intros o Ho.
    assert (0 ≤ o) as Hpos.
    { destruct Hrest as [Hf _]. rewrite Forall_forall in Hf.
      specialize (Hf _ Ho). lia. }
    rewrite Hout1.
    + apply Hagree. rewrite bind_cons. apply elem_of_app. by right.
    + done.
    + intros Hin'. by apply (Hout o Hin').
  - exists w'. split_and!; try done.
    + intros b' [->|Hb']%elem_of_cons; [|by apply Hin]. split.
      * rewrite Hother; [done|..];
          by apply (Hout b (base_in_line_offsets b)).
      * intros j Hj.
        assert (b + j * stride ∈ (λ j, b + j * stride) <$> seqZ 1 (size - 1))
          as Hcell.
        { apply list_elem_of_fmap. exists j. split; [done|].
          apply elem_of_seqZ. lia. }
        assert (b + j * stride ∈ line_offsets b size stride) as Hcell'.
        { rewrite line_offsets_cons. by right. }
        rewrite Hother by (by apply (Hout _ Hcell')).
        rewrite Hin1 by done. f_equal. apply Hagree.
        rewrite bind_cons. apply elem_of_app. by left.
    + intros i Hi Hni. rewrite bind_cons in Hni.
      apply not_elem_of_app in Hni as [Hni1 Hni2].
      rewrite Hother by done. by apply Hout1.
Qed.

End ManyLines.

Lemma load_frame `{!Inhabited A} (w w' : list A) i :
  length w' = length w →
  (0 ≤ i < Z.of_nat (length w) → w' !!! Z.to_nat i = w !!! Z.to_nat i) →
  load w' i = load w i.
Proof.
  intros Hlen Hi. destruct (decide (0 ≤ i < Z.of_nat (length w))) as [Hb|Hb].
  - rewrite !load_total by (by rewrite ?Hlen). f_equal. by apply Hi.
  - by rewrite !load_None by (by rewrite ?Hlen).
Qed.

(** X5: [rrSum], [rrProd], [rrMax] and [rrMin] over all their lines.  When
    the lines that start at the first [nindices] base offsets lie inside the
    array and share no cell, every first cell receives the fold of its own
    line as the array held it on entry (under [+], [*], [std::max] or
    [std::min], from the first cell on), and every cell that starts no line
    keeps its value: the lines do not interfere, and what is left of the
    index array is not read. *)
Theorem folding_reducers_on_lines (w : list jdouble) (bases : list Z)
    (rest : list cell) (size stride : Z) :
  1 ≤ size →
  lines_apart w bases size stride →
  (rrSum = rrFolding PrimFloat.add ∧ rrProd = rrFolding PrimFloat.mul
   ∧ rrMax = rrFolding (λ a b, std_max b a)
   ∧ rrMin = rrFolding (λ a b, std_min b a))
  ∧ ∀ g, ∃ w',
      rrFolding g w ((Some <$> bases) ++ rest) (Z.of_nat (length bases))
        size stride = Some w'
      ∧ length w' = length w
      ∧ (∀ b, b ∈ bases →
              load w' b
              = Some (foldl g (w !!! Z.to_nat b)
                        ((λ j, w !!! Z.to_nat (b + j * stride))
                           <$> seqZ 1 (size - 1))))
      ∧ (∀ i, i ∉ bases → load w' i = load w i).
Proof.
  intros Hsize Hapart. split; [done|]. intros g.
  destruct (fold_lines size stride Hsize g w bases w eq_refl Hapart)
    as (w' & Hrun & Hlen & Hin & Hout); [done|].
  exists w'. unfold rrFolding. rewrite rrLines_bases.
  split_and!; try done.
  - intros b Hb.
    assert (0 ≤ b < Z.of_nat (length w) ∧ b ≤ JInt.max_value) as [? _].
    { destruct Hapart as [Hf _]. rewrite Forall_forall in Hf.
      apply Hf, list_elem_of_bind. exists b. split; [|done].
      by apply base_in_line_offsets. }
    rewrite load_total by (by rewrite Hlen). by rewrite Hin.
  - intros i Hi. apply load_frame; [done|]. intros Hb. apply Hout; [lia|done].
Qed.

Lemma lines_apart_example :
  lines_apart [1; 2; 3; 4; 5; 6]%float [0; 1; 2] 2 3.
Proof.
  split.
  - repeat constructor; unfold JInt.max_value; simpl; lia.
  - apply (bool_decide_unpack _). vm_compute. reflexivity.
Qed.

Lemma folding_reducers_on_lines_witness :
  ∃ w', rrSum [1; 2; 3; 4; 5; 6]%float [Some 0; Some 1; Some 2; None] 3 2 3
        = Some w'
        ∧ load w' 0 = Some (1 + 4)%float
        ∧ load w' 1 = Some (2 + 5)%float
        ∧ load w' 2 = Some (3 + 6)%float
        ∧ load w' 3 = Some 4%float.
Proof.
  destruct (folding_reducers_on_lines [1; 2; 3; 4; 5; 6]%float [0; 1; 2]
              [None] 2 3 ltac:(lia) lines_apart_example)
    as [_ Hg].
  destruct (Hg PrimFloat.add) as (w' & Hrun & _ & Hin & Hout).
  exists w'. split; [exact Hrun|].
  split_and!.
  - apply (Hin 0). by apply (bool_decide_unpack _).
  - apply (Hin 1). by apply (bool_decide_unpack _).
  - apply (Hin 2). by apply (bool_decide_unpack _).
  - rewrite (Hout 3); [reflexivity|]. by apply (bool_decide_unpack _).
Defined.

(** X6: [rrVar] over all its lines.  When the lines that start at the
    first [nindices] base offsets lie inside the array and share no cell,
    every first cell receives the population variance of its own line as
    the array held it on entry, the other cells of a line their squared
    deviation from the mean of that line, and the cells on no line keep
    their value. *)
Theorem rrVar_on_lines (w : list jdouble) (bases : list Z)
    (rest : list cell) (size stride : Z) :
  1 ≤ size →
  lines_apart w bases size stride →
  ∃ w',
    rrVar w ((Some <$> bases) ++ rest) (Z.of_nat (length bases)) size stride
    = Some w'
    ∧ length w' = length w
    ∧ (∀ b, b ∈ bases →
            let xs := line w b size stride in
            load w' b = Some (population_variance xs)
            ∧ ∀ j, 1 ≤ j < size →
                   load w' (b + j * stride)
                   = Some (squared_deviation (mean_of xs)
                             (w !!! Z.to_nat (b + j * stride))))
    ∧ (∀ i, i ∉ bases ≫= (λ b, line_offsets b size stride) →
            load w' i = load w i).
Proof.
  intros Hsize Hapart.
  destruct (var_lines size stride Hsize w bases w eq_refl Hapart)
    as (w' & Hrun & Hlen & Hin & Hout); [done|].
  exists w'. unfold rrVar. rewrite rrLines_bases.
  split_and!; try done.
  - intros b Hb. cbv zeta. destruct (Hin b Hb) as [Hbase Hcells].
    destruct Hapart as [Hf _]. rewrite Forall_forall in Hf.
    assert (∀ j, 0 ≤ j < size →
              0 ≤ b + j * stride < Z.of_nat (length w')) as Hbound.
    { intros j Hj. rewrite Hlen.
      assert (0 ≤ b + j * stride < Z.of_nat (length w)
              ∧ b + j * stride ≤ JInt.max_value) as [? _]; [|done].
      apply Hf, list_elem_of_bind. exists b. split; [|done].
      apply list_elem_of_fmap. exists j. split; [done|].
      apply elem_of_seqZ. lia. }
    split.
    + rewrite load_total by (specialize (Hbound 0); lia). by rewrite Hbase.
    + intros j Hj. rewrite load_total by (apply Hbound; lia).
      by rewrite Hcells.
  - intros i Hi. apply load_frame; [done|]. intros Hb. apply Hout; [lia|done].
Qed.

Lemma rrVar_on_lines_witness :
  ∃ w', rrVar [1; 2; 3; 4; 5; 6]%float [Some 0; Some 1; Some 2] 3 2 3
        = Some w'
        ∧ load w' 1 = Some (population_variance [2; 5]%float).
Proof.
  destruct (rrVar_on_lines [1; 2; 3; 4; 5; 6]%float [0; 1; 2]
              [] 2 3 ltac:(lia) lines_apart_example)
    as (w' & Hrun & _ & Hin & _).
  exists w'. split; [exact Hrun|].
  apply (Hin 1). by apply (bool_decide_unpack _).
Defined.

(** ** The largest and the smallest element of a line *)

Lemma std_max_nan acc x :
  PrimFloat.is_nan (std_max x acc) = PrimFloat.is_nan x.
Proof.
  unfold std_max. destruct (x <? acc)%float eqn:Hlt; [|done].
  apply ltb_leb in Hlt as (_ & -> & ->). done.
Qed.

Lemma std_min_nan acc x :
  PrimFloat.is_nan (std_min x acc) = PrimFloat.is_nan x.
Proof.
  unfold std_min. destruct (acc <? x)%float eqn:Hlt; [|done].
  apply ltb_leb in Hlt as (_ & -> & ->). done.
Qed.

Lemma std_max_bound acc x :
  PrimFloat.is_nan acc = false → PrimFloat.is_nan x = false →
  (acc <=? std_max x acc)%float = true ∧ (x <=? std_max x acc)%float = true.
Proof.
  intros Ha Hx. unfold std_max. destruct (x <? acc)%float eqn:Hlt.
  - split; [by apply leb_refl|]. by apply ltb_leb in Hlt as [? _].
  - split; [by apply not_ltb_leb|by apply leb_refl].
Qed.

Lemma std_min_bound acc x :
  PrimFloat.is_nan acc = false → PrimFloat.is_nan x = false →
  (std_min x acc <=? acc)%float = true ∧ (std_min x acc <=? x)%float = true.
Proof.
  intros Ha Hx. unfold std_min. destruct (acc <? x)%float eqn:Hlt.
  - split; [by apply leb_refl|]. by apply ltb_leb in Hlt as [? _].
  - split; [by apply not_ltb_leb|by apply leb_refl].
Qed.

Lemma last_fmap_seqZ {A} (f : Z → A) (n : nat) :
  List.last (f <$> seqZ 1 (Z.of_nat n)) (f 0) = f (Z.of_nat n).
Proof.
  destruct n as [|n]; [done|].
  rewrite seqZ_S, fmap_app. simpl. rewrite last_last. f_equal. lia.
Qed.

(** The line as its first value and the values [rrFold] visits. *)
Lemma line_cons w base size stride :
  1 ≤ size →
  line w base size stride
  = w !!! Z.to_nat base
    :: ((λ o, w !!! Z.to_nat o)
          <$> ((λ j, base + j * stride) <$> seqZ 1 (size - 1))).
Proof.
  intros Hsize. rewrite (line_line_offsets size stride).
  by rewrite (line_offsets_cons size stride Hsize).
Qed.

Lemma last_of_line (w : list jdouble) base size stride :
  1 ≤ size →
  List.last ((λ o, w !!! Z.to_nat o)
               <$> ((λ j, base + j * stride) <$> seqZ 1 (size - 1)))
    (w !!! Z.to_nat base)
  = w !!! Z.to_nat (base + (size - 1) * stride).
Proof.
  intros Hsize. rewrite <- list_fmap_compose.
  rewrite <- (Z2Nat.id (size - 1)) by lia.
  pose proof (last_fmap_seqZ (λ j, w !!! Z.to_nat (base + j * stride))
                (Z.to_nat (size - 1))) as Hl.
  cbn beta in Hl. rewrite Z.mul_0_l, Z.add_0_r in Hl. apply Hl.
Qed.

(** X7: [rrMax] leaves in the first cell of a line one of the values of the
    line; that value is a NaN exactly when the last cell of the line holds
    one (a NaN met earlier is dropped at the next cell); and on a line
    without a NaN no value of the line is greater than it. *)
Theorem rrMax_is_maximum (w : list jdouble) (base size stride : Z) :
  1 ≤ size →
  line_in_bounds w base size stride →
  let xs := line w base size stride in
  ∃ m, rrMax w [Some base] 1 size stride = Some (<[Z.to_nat base := m]> w)
       ∧ m ∈ xs
       ∧ PrimFloat.is_nan m
         = PrimFloat.is_nan (w !!! Z.to_nat (base + (size - 1) * stride))
       ∧ (Forall (λ x, PrimFloat.is_nan x = false) xs →
          Forall (λ x, (x <=? m)%float = true) xs).
Proof.
  intros Hsize Hline xs. eexists. split.
  { unfold rrMax, rrLines. rewrite seqZ_cons, seqZ_nil by lia. simpl.
    rewrite (rrFold_line w base size stride Hsize Hline _ w eq_refl).
    reflexivity. }
  unfold xs. rewrite line_cons by done. split_and!.
  - apply (extremum_elem_of (λ acc x, std_max x acc)).
    intros acc x. destruct (std_max_cases x acc); auto.
  - rewrite (extremum_nan (λ acc x, std_max x acc)) by apply std_max_nan.
    by rewrite last_of_line.
  - apply (extremum_bound (λ acc x, std_max x acc) (λ y m, (y <=? m)%float)).
    + apply std_max_nan.
    + apply std_max_bound.
    + apply leb_refl.
    + apply leb_trans.
Qed.

Lemma line_example : line_in_bounds [3; 1; 4; 1; 5; 9; 2; 6]%float 1 3 2.
Proof. split; [|lia]. intros j Hj. simpl. unfold JInt.max_value. lia. Qed.

Lemma rrMax_is_maximum_witness :
  ∃ m, rrMax [3; 1; 4; 1; 5; 9; 2; 6]%float [Some 1] 1 3 2
       = Some [3; m; 4; 1; 5; 9; 2; 6]%float
       ∧ (1 <=? m)%float = true ∧ (9 <=? m)%float = true.
Proof.
  destruct (rrMax_is_maximum [3; 1; 4; 1; 5; 9; 2; 6]%float 1 3 2
              ltac:(lia) line_example) as (m & Hrun & _ & _ & Hmax).
  exists m. split; [exact Hrun|].
  assert (Forall (λ x, PrimFloat.is_nan x = false)
            (line [3; 1; 4; 1; 5; 9; 2; 6]%float 1 3 2)) as Hn.
  { repeat constructor. }
  specialize (Hmax Hn). apply Forall_cons in Hmax as [H1 Hmax].
  apply Forall_cons in Hmax as [_ Hmax]. apply Forall_cons in Hmax as [H9 _].
  split; [exact H1|exact H9].
Defined.

(** X8: [rrMin] leaves in the first cell of a line one of the values of the
    line; that value is a NaN exactly when the last cell of the line holds
    one; and on a line without a NaN no value of the line is smaller than
    it. *)
Theorem rrMin_is_minimum (w : list jdouble) (base size stride : Z) :
  1 ≤ size →
  line_in_bounds w base size stride →
  let xs := line w base size stride in
  ∃ m, rrMin w [Some base] 1 size stride = Some (<[Z.to_nat base := m]> w)
       ∧ m ∈ xs
       ∧ PrimFloat.is_nan m
         = PrimFloat.is_nan (w !!! Z.to_nat (base + (size - 1) * stride))
       ∧ (Forall (λ x, PrimFloat.is_nan x = false) xs →
          Forall (λ x, (m <=? x)%float = true) xs).
Proof.
  intros Hsize Hline xs. eexists. split.
  { unfold rrMin, rrLines. rewrite seqZ_cons, seqZ_nil by lia. simpl.
    rewrite (rrFold_line w base size stride Hsize Hline _ w eq_refl).
    reflexivity. }
  unfold xs. rewrite line_cons by done. split_and!.
  - apply (extremum_elem_of (λ acc x, std_min x acc)).
    intros acc x. destruct (std_min_cases x acc); auto.
  - rewrite (extremum_nan (λ acc x, std_min x acc)) by apply std_min_nan.
    by rewrite last_of_line.
  - apply (extremum_bound (λ acc x, std_min x acc) (λ y m, (m <=? y)%float)).
    + apply std_min_nan.
    + apply std_min_bound.
    + apply leb_refl.
    + intros x y z Hxy Hyz. by apply leb_trans with y.
Qed.

Lemma rrMin_is_minimum_witness :
  ∃ m, rrMin [3; 1; 4; 1; 5; 9; 2; 6]%float [Some 1] 1 3 2
       = Some [3; m; 4; 1; 5; 9; 2; 6]%float
       ∧ (m <=? 1)%float = true ∧ (m <=? 9)%float = true.
Proof.
  destruct (rrMin_is_minimum [3; 1; 4; 1; 5; 9; 2; 6]%float 1 3 2
              ltac:(lia) line_example) as (m & Hrun & _ & _ & Hmin).
  exists m. split; [exact Hrun|].
  assert (Forall (λ x, PrimFloat.is_nan x = false)
            (line [3; 1; 4; 1; 5; 9; 2; 6]%float 1 3 2)) as Hn.
  { repeat constructor. }
  specialize (Hmin Hn). apply Forall_cons in Hmin as [H1 Hmin].
  apply Forall_cons in Hmin as [_ Hmin]. apply Forall_cons in Hmin as [H9 _].
  split; [exact H1|exact H9].
Defined.

(** A [NaN] is kept only from the last cell of a line. *)
Example nan_in_a_line :
  rrMax [nan; 1; 2]%float [Some 0] 1 3 1 = Some [2; 1; 2]%float
  ∧ rrMax [1; nan; 2]%float [Some 0] 1 3 1 = Some [2; nan; 2]%float
  ∧ fmap (M := list) PrimFloat.is_nan <$> rrMax [1; 2; nan]%float [Some 0] 1 3 1
    = Some [true; false; true].
Proof. vm_compute. done. Qed.

(** ** Lines of fewer than two cells *)

Lemma rrFold_short g base size stride w :
  size ≤ 1 → rrFold g base size stride w = Some w.
Proof. intros Hs. unfold rrFold. by rewrite seqZ_nil by lia. Qed.

Lemma rrLines_id (lineop : Z → list jdouble → option (list jdouble))
    (w : list jdouble) (workingIndices : list cell) (nindices : Z) :
  (∀ i, 0 ≤ i < nindices → is_Some (load_cell workingIndices i)) →
  (∀ base, lineop base w = Some w) →
  rrLines lineop w workingIndices nindices = Some w.
Proof.
  intros Hidx Hid. unfold rrLines.
  assert (∀ l, Forall (λ i, 0 ≤ i < nindices) l →
            for_each l (λ i working,
                          workingIndex ← load_cell workingIndices i;
                          lineop workingIndex working) w = Some w) as Hl.
  { induction 1 as [|i l Hi _ IH]; [done|]. simpl.
    destruct (Hidx i Hi) as [b ->]. simpl. by rewrite Hid. }
  apply Hl, Forall_forall. intros i Hi%elem_of_seqZ. lia.
Qed.

(** X9: nothing to reduce.  With [nindices <= 0] none of the five reducers
    touches the array, whatever the index array holds; on lines of
    [size <= 1] the four folding reducers leave the array as it is wherever
    the base offsets point, inside the array or not: the offsets are read,
    the cells are not. *)
Theorem short_lines_are_left_alone (w : list jdouble)
    (workingIndices : list cell) (nindices size stride : Z) :
  (nindices ≤ 0 →
   rrSum w workingIndices nindices size stride = Some w
   ∧ rrProd w workingIndices nindices size stride = Some w
   ∧ rrMax w workingIndices nindices size stride = Some w
   ∧ rrMin w workingIndices nindices size stride = Some w
   ∧ rrVar w workingIndices nindices size stride = Some w)
  ∧ (size ≤ 1 →
     (∀ i, 0 ≤ i < nindices → is_Some (load_cell workingIndices i)) →
     rrSum w workingIndices nindices size stride = Some w
     ∧ rrProd w workingIndices nindices size stride = Some w
     ∧ rrMax w workingIndices nindices size stride = Some w
     ∧ rrMin w workingIndices nindices size stride = Some w).
Proof.
  split.
  - intros Hn. unfold rrSum, rrProd, rrMax, rrMin, rrVar, rrLines.
    by rewrite seqZ_nil by lia.
  - intros Hs Hidx. unfold rrSum, rrProd, rrMax, rrMin.
    split_and!; apply rrLines_id; try done; intros base;
      by apply rrFold_short.
Qed.

Lemma short_lines_are_left_alone_witness :
  rrSum [1; 2; 3]%float [Some 7; Some (-1)] 2 1 5 = Some [1; 2; 3]%float
  ∧ rrVar [1; 2; 3]%float [] 0 3 1 = Some [1; 2; 3]%float.
Proof.
  destruct (short_lines_are_left_alone [1; 2; 3]%float [Some 7; Some (-1)]
              2 1 5) as [_ Hshort].
  destruct (short_lines_are_left_alone [1; 2; 3]%float [] 0 3 1)
    as [Hnone _].
  split.
  - apply Hshort; [lia|]. intros i Hi.
    assert (i = 0 ∨ i = 1) as [-> | ->] by lia; by eexists.
  - apply Hnone. lia.
Defined.

(** ** [rrVar] on a line without cells *)

Lemma jdouble_of_jint_0 : jdouble_of_jint 0 = 0%float.
Proof. vm_compute. reflexivity. Qed.

Lemma div_by_zero_not_finite (x : jdouble) : ¬ finite (x / 0)%float.
Proof.
  unfold finite. rewrite div_spec. change (Prim2SF 0) with (S754_zero false).
  destruct (Prim2SF x) as [[]|[]| |[] m e]; cbn; tauto.
Qed.

(** X10: unlike the folding reducers, [rrVar] writes to the first cell of a
    line without cells ([size <= 0]): no loop runs and the cell is divided
    by [size], which for [size = 0] leaves an infinity or a NaN. *)
Theorem rrVar_on_empty_line (w : list jdouble) (base size stride : Z) :
  size ≤ 0 →
  in_bounds w base →
  let x := w !!! Z.to_nat base in
  rrVar w [Some base] 1 size stride
  = Some (<[Z.to_nat base := (x / jdouble_of_jint size)%float]> w)
  ∧ (size = 0 → ¬ finite (x / jdouble_of_jint size)%float).
Proof.
  intros Hs Hb x. split.
  - unfold rrVar, rrLines. rewrite seqZ_cons, seqZ_nil by lia. simpl.
    unfold rrVarLine. rewrite !seqZ_nil by lia. simpl.
    rewrite rrFold_short by lia. simpl.
    rewrite load_total by done. simpl. by rewrite store_in_bounds by done.
  - intros ->. rewrite jdouble_of_jint_0. apply div_by_zero_not_finite.
Qed.

Lemma rrVar_on_empty_line_witness :
  rrVar [1; 2; 3]%float [Some 1] 1 0 1 = Some [1; infinity; 3]%float.
Proof.
  refine (proj1 (rrVar_on_empty_line [1; 2; 3]%float 1 0 1 _ _)).
  - lia.
  - unfold in_bounds. simpl. lia.
Defined.

(** ** Binary64 facts: signs *)

Section Signs.

(** The sign bit is clear, or the number is a NaN. *)
Let unsigned (s : spec_float) : Prop :=
  match s with
  | S754_zero sign | S754_infinity sign | S754_finite sign _ _ => sign = false
  | S754_nan => True
  end.

Lemma binary_round_aux_unsigned m e l :
  unsigned (binary_round_aux prec emax false m e l).
Proof.
  unfold binary_round_aux.
  destruct (shr_fexp _ _ _ _ _) as [mrs e'].
  destruct (shr_fexp _ _ _ _ _) as [mrs' e''].
  destruct (shr_m mrs'); [done| |done].
  by destruct (e'' <=? emax - prec).
Qed.

Lemma binary_round_unsigned m e : unsigned (binary_round prec emax false m e).
Proof.
  unfold binary_round. destruct (shl_align _ _ _).
  apply binary_round_aux_unsigned.
Qed.

Lemma binary_normalize_unsigned m e :
  0 ≤ m → unsigned (binary_normalize prec emax m e false).
Proof.
  intros Hm. destruct m as [|m|m]; [done| |lia].
  apply binary_round_unsigned.
Qed.

Lemma SFmul_unsigned x : unsigned (SF64mul x x).
Proof.
  destruct x as [[]|[]| |[] m e]; try done; apply binary_round_aux_unsigned.
Qed.

Lemma SFadd_unsigned x y :
  unsigned x → unsigned y → unsigned (SF64add x y).
Proof.
  destruct x as [sx|sx| |sx mx ex], y as [sy|sy| |sy my ey]; simpl;
    try done; intros -> ->; try done.
  unfold SF64add, SFadd. cbn [cond_Zopp].
  by apply binary_normalize_unsigned.
Qed.

Lemma SFdiv_unsigned x y :
  unsigned x → unsigned y → unsigned (SF64div x y).
Proof.
  destruct x as [sx|sx| |sx mx ex], y as [sy|sy| |sy my ey]; simpl;
    try done; intros -> ->; try done.
  unfold SF64div, SFdiv.
  destruct (SFdiv_core_binary _ _ _ _ _ _) as [[mz ez] lz].
  apply binary_round_aux_unsigned.
Qed.

Lemma jdouble_of_jint_unsigned z :
  0 ≤ z → unsigned (Prim2SF (jdouble_of_jint z)).
Proof.
  intros Hz. unfold jdouble_of_jint. rewrite decide_False by lia.
  rewrite of_uint63_spec. apply binary_normalize_unsigned.
  apply Uint63.to_Z_bounded.
Qed.

Lemma unsigned_not_below_zero (x : float) :
  unsigned (Prim2SF x) → (x <? 0)%float = false.
Proof.
  rewrite FloatAxioms.ltb_spec. change (Prim2SF 0) with (S754_zero false).
  by destruct (Prim2SF x) as [[]|[]| |[] m e].
Qed.

Lemma accumulate_unsigned d ds :
  unsigned (Prim2SF d) → Forall (λ x, unsigned (Prim2SF x)) ds →
  unsigned (Prim2SF (accumulate d ds)).
Proof.
  unfold accumulate. intros Hd Hds. revert d Hd.
  induction Hds as [|x ds Hx _ IH]; intros d Hd; [done|].
  simpl. apply IH. rewrite add_spec. by apply SFadd_unsigned.
Qed.

(** The average of squares is not below zero. *)
Lemma population_variance_not_negative xs :
  (population_variance xs <? 0)%float = false.
Proof.
  apply unsigned_not_below_zero. unfold population_variance.
  destruct (squared_deviation (mean_of xs) <$> xs) as [|d ds] eqn:Hsq;
    [done|].
  assert (Forall (λ x, unsigned (Prim2SF x)) (d :: ds)) as Hall.
  { rewrite <- Hsq. apply Forall_fmap, Forall_true. intros x. simpl.
    unfold squared_deviation. rewrite mul_spec. apply SFmul_unsigned. }
  apply Forall_cons in Hall as [Hd Hds].
  rewrite div_spec. apply SFdiv_unsigned.
  - by apply accumulate_unsigned.
  - apply jdouble_of_jint_unsigned. lia.
Qed.

End Signs.

(** X11: the variance is never negative.  What [rrVar] leaves in the first
    cell of a line is an average of squares computed in binary64: whatever
    the values of the line (NaN and infinities included) and however the
    sums round, it is not below zero. *)
Theorem rrVar_is_never_negative (w : list jdouble) (base size stride : Z) :
  1 ≤ size →
  line_in_bounds w base size stride →
  ∃ w' m, rrVar w [Some base] 1 size stride = Some w'
          ∧ load w' base = Some m
          ∧ (m <? 0)%float = false.
Proof.
  intros Hsize Hline.
  destruct (rrVarLine_line w base size stride Hsize Hline)
    as (w' & Hrun & Hlen & Hbase & _).
  exists w', (w' !!! Z.to_nat base). rewrite rrVar_one_line.
  split_and!; [done| |].
  - apply load_total. rewrite Hlen. destruct Hline as [Hb _].
    specialize (Hb 0). lia.
  - rewrite Hbase. apply population_variance_not_negative.
Qed.

Lemma rrVar_is_never_negative_witness :
  ∃ w' m, rrVar [3; 1; 4; 1; 5; 9; 2; 6]%float [Some 1] 1 3 2 = Some w'
          ∧ load w' 1 = Some m
          ∧ (m <? 0)%float = false.
Proof.
  apply (rrVar_is_never_negative [3; 1; 4; 1; 5; 9; 2; 6]%float 1 3 2).
  - lia.
  - apply line_example.
Defined.

(** ** The enumerator and one axis *)

Lemma length_enumerate shape strides :
  length strides = length shape →
  Forall (λ d, 0 ≤ d) shape →
  Z.of_nat (length (enumerate shape strides)) = element_count shape.
Proof.
  intros Hl Hpos. rewrite enumerate_offsets, length_fmap by done.
  by apply length_coordinates.
Qed.

(** An axis of length 1 contributes nothing to the offsets. *)
Lemma enumerate_collapsed (d : nat) shape strides :
  length strides = length shape → (d < length shape)%nat →
  enumerate (<[d := 1]> shape) strides
  = enumerate (delete d shape) (delete d strides).
Proof.
  revert shape strides.
  induction d as [|d IH]; intros [|w shape] [|s strides] Hl Hd;
    simplify_eq/=; try lia.
  - rewrite app_nil_r. rewrite <- (list_fmap_id (enumerate _ _)) at 2.
    apply list_fmap_ext. intros _ o _. simpl. lia.
  - rewrite IH by (done || lia).
    destruct (delete d shape) eqn:Hs, (delete d strides) eqn:Ht; try done.
Qed.

Lemma bind_swap {A B C} (f : A → B → C) (l1 : list A) (l2 : list B) :
  (x ← l1; f x <$> l2) ≡ₚ (y ← l2; (λ x, f x y) <$> l1).
Proof.
  induction l1 as [|x l1 IH].
  { simpl. induction l2 as [|y l2 IH2]; [done|]. by rewrite bind_cons. }
  rewrite bind_cons, IH. clear IH.
  induction l2 as [|y l2 IH]; [done|].
  rewrite !bind_cons, !fmap_cons. cbn [app]. constructor.
  rewrite <- IH.
  by rewrite !(assoc_L (++)), (Permutation_app_comm (_ <$> l2)).
Qed.

Lemma bind_Permutation_ext {A B} (f g : A → list B) (l : list A) :
  (∀ x, x ∈ l → f x ≡ₚ g x) → l ≫= f ≡ₚ l ≫= g.
Proof.
  induction l as [|x l IH]; intros Hfg; [done|].
  rewrite !bind_cons. f_equiv.
  - apply Hfg. left.
  - apply IH. intros y Hy. apply Hfg. by right.
Qed.

Lemma list_bind_assoc {A B C} (f : A → list B) (g : B → list C) (l : list A) :
  (l ≫= f) ≫= g = l ≫= λ x, f x ≫= g.
Proof.
  induction l as [|x l IH]; [done|].
  by rewrite !bind_cons, bind_app, IH.
Qed.

Lemma fmap_list_bind {A B C} (f : B → C) (g : A → list B) (l : list A) :
  f <$> (l ≫= g) = l ≫= λ x, f <$> g x.
Proof.
  induction l as [|x l IH]; [done|]. by rewrite !bind_cons, fmap_app, IH.
Qed.

(** The lines along the axis [d] that start at the offsets enumerated
    without it are the cells of the view. *)
Lemma lines_of_view (d : nat) shape strides :
  length strides = length shape → (d < length shape)%nat →
  (b ← enumerate (delete d shape) (delete d strides);
   line_offsets b (shape !!! d) (strides !!! d))
  ≡ₚ enumerate shape strides.
Proof.
  revert shape strides.
  induction d as [|d IH]; intros [|w shape] [|s strides] Hl Hd;
    simplify_eq/=; try lia.
  - unfold line_offsets.
    rewrite (bind_swap (λ b j, b + j * s) (enumerate shape strides)).
    apply bind_Permutation_ext. intros c _.
    match goal with |- ?a ≡ₚ ?b => replace a with b; [done|] end.
    apply list_fmap_ext. intros _ o _. simpl. lia.
  - change (list_lookup_total (S d) (w :: shape)) with (shape !!! d).
    change (list_lookup_total (S d) (s :: strides)) with (strides !!! d).
    rewrite list_bind_assoc.
    apply bind_Permutation_ext; intros c _.
    rewrite list_fmap_bind, <- (IH shape strides) by (done || lia).
    rewrite fmap_list_bind. apply bind_Permutation_ext. intros b _.
    match goal with |- ?a ≡ₚ ?b => replace a with b; [done|] end.
    unfold line_offsets. rewrite <- list_fmap_compose.
    apply list_fmap_ext. intros _ j _. simpl. lia.
Qed.

Lemma element_count_delete (d : nat) shape :
  (d < length shape)%nat →
  element_count shape = shape !!! d * element_count (delete d shape).
Proof.
  unfold element_count. revert shape.
  induction d as [|d IH]; intros [|w shape] Hd; simpl in *; try lia.
  rewrite (IH shape) by lia. ring.
Qed.

Lemma element_count_collapsed (d : nat) shape :
  (d < length shape)%nat →
  element_count (<[d := 1]> shape) = element_count (delete d shape).
Proof.
  unfold element_count. revert shape.
  induction d as [|d IH]; intros [|w shape] Hd; simpl in *; try lia.
  by rewrite (IH shape) by lia.
Qed.

Lemma element_count_positive shape :
  Forall (λ d, 1 ≤ d) shape → 1 ≤ element_count shape.
Proof.
  unfold element_count. induction 1 as [|d shape Hd _ IH]; simpl; [lia|nia].
Qed.

Lemma Forall_insert_1 (d : nat) shape :
  Forall (λ d, 1 ≤ d) shape → Forall (λ d, 1 ≤ d) (<[d := 1]> shape).
Proof. intros Hs. apply Forall_insert; [done|lia]. Qed.

Lemma Forall_delete_1 (d : nat) (shape : list Z) :
  Forall (λ d, 1 ≤ d) shape → Forall (λ d, 1 ≤ d) (delete d shape).
Proof. apply Forall_delete. Qed.

(** No two lines start at one offset when no two of their cells
    coincide. *)
Lemma NoDup_bases (bases : list Z) size stride :
  1 ≤ size →
  NoDup (bases ≫= λ b, line_offsets b size stride) → NoDup bases.
Proof.
  intros Hsize. induction bases as [|b bases IH]; [constructor|].
  rewrite bind_cons. intros (_ & Hdis & Hnd)%NoDup_app.
  constructor; [|by apply IH].
  intros Hb. apply (Hdis b); [by apply base_in_line_offsets|].
  apply list_elem_of_bind. exists b. split; [|done].
  by apply base_in_line_offsets.
Qed.

(** ** One pass of the driver *)

Section Pass.
Context (L : Z → Z → Z → list jdouble → option (list jdouble)).

(** A reducer that runs [L] on each of its lines. *)
Let op : rrOp_t := λ working workingIndices nindices size stride,
  rrLines (λ workingIndex, L workingIndex size stride)
    working workingIndices nindices.

Lemma reduceSelected_cons srcDArr srcSArr dim rest acc v idx workingD :
  let ndims := Z.of_nat (length workingD) in
  let bases := enumerate (<[Z.to_nat dim := 1]> workingD) srcSArr in
  length srcSArr = length workingD →
  Forall (λ d, 1 ≤ d) workingD →
  0 ≤ dim < ndims →
  srcDArr !!! Z.to_nat dim = workingD !!! Z.to_nat dim →
  acc = element_count workingD →
  acc ≤ JInt.max_value →
  acc ≤ Z.of_nat (length idx) →
  reduceSelected op srcDArr srcSArr ndims (dim :: rest) acc v idx workingD
  = v' ← for_each bases
           (λ b, L b (workingD !!! Z.to_nat dim) (srcSArr !!! Z.to_nat dim)) v;
    reduceSelected op srcDArr srcSArr ndims rest
      (element_count (<[Z.to_nat dim := 1]> workingD)) v'
      ((Some <$> bases) ++ drop (length bases) idx)
      (<[Z.to_nat dim := 1]> workingD).
Proof.
  intros ndims bases Hs Hpos Hdim Hsame -> Hmax Hidx.
  assert (Z.to_nat dim < length workingD)%nat as Hd by lia.
  assert (1 ≤ workingD !!! Z.to_nat dim) as Hsize.
  { rewrite Forall_forall in Hpos. apply Hpos.
    apply list_elem_of_lookup_total_2. lia. }
  pose proof (element_count_delete _ _ Hd) as Hcount.
  pose proof (element_count_positive _ (Forall_delete_1 (Z.to_nat dim) _ Hpos))
    as Hrest.
  assert (Z.of_nat (length bases)
          = element_count (<[Z.to_nat dim := 1]> workingD)) as Hbases.
  { unfold bases. rewrite length_enumerate; [done|by rewrite length_insert|].
    eapply Forall_impl; [by apply Forall_insert_1|]. simpl. lia. }
  rewrite element_count_collapsed in Hbases |- * by done.
  cbn [reduceSelected]. rewrite Hsame. unfold JInt.div.
  rewrite decide_False by lia. cbn [mbind option_bind].
  assert (element_count workingD ÷ workingD !!! Z.to_nat dim
          = element_count (delete (Z.to_nat dim) workingD)) as ->.
  { rewrite Hcount, Z.mul_comm. apply Z.quot_mul. lia. }
  rewrite wrap_id
    by (unfold JInt.in_range, JInt.min_value, JInt.max_value in *; nia).
  unfold assignBaseIndices, assignMappingIndices.
  rewrite !take_ge
    by (rewrite length_delete by (apply lookup_lt_is_Some; lia); lia).
  rewrite <- enumerate_collapsed by done. fold bases.
  unfold fill. rewrite decide_True by nia. cbn [mbind option_bind].
  assert (∀ i n s t, op v i n s t = rrLines (λ b, L b s t) v i n) as ->
    by done.
  rewrite <- Hbases, rrLines_bases. done.
Qed.

End Pass.

(** ** The passes of a reducer *)

Section Passes.
Context (L : Z → Z → Z → list jdouble → option (list jdouble)).
Context (F : list jdouble → jdouble).
Context (srcDArr srcSArr : list Z).

Notation "v .[ o ]" := (v !!! Z.to_nat o)
  (at level 1, o at level 200, left associativity, format "v .[ o ]").

(** On lines apart from each other, [L] leaves [F] of each line in its
    first cell. *)
Context (L_lines : ∀ size stride v bases,
  1 ≤ size → lines_apart v bases size stride →
  ∃ v', for_each bases (λ b, L b size stride) v = Some v'
        ∧ length v' = length v
        ∧ ∀ b, b ∈ bases → v'.[b] = F (line v b size stride)).

Let op : rrOp_t := λ working workingIndices nindices size stride,
  rrLines (λ workingIndex, L workingIndex size stride)
    working workingIndices nindices.

(** One more axis reduced. *)
Let along (value : Z → jdouble) (dim : Z) (o : Z) : jdouble :=
  F ((λ j, value (o + j * srcSArr !!! Z.to_nat dim))
       <$> seqZ 0 (srcDArr !!! Z.to_nat dim)).

Lemma reduceSelected_lines sel :
  ∀ acc v idx workingD (value : Z → jdouble),
  length srcSArr = length workingD →
  length srcDArr = length workingD →
  Forall (λ d, 1 ≤ d) workingD →
  NoDup sel →
  (∀ d, d ∈ sel → 0 ≤ d < Z.of_nat (length workingD)
                  ∧ srcDArr !!! Z.to_nat d = workingD !!! Z.to_nat d) →
  acc = element_count workingD →
  acc ≤ JInt.max_value →
  acc ≤ Z.of_nat (length idx) →
  NoDup (enumerate workingD srcSArr) →
  Forall (λ o, 0 ≤ o < Z.of_nat (length v) ∧ o ≤ JInt.max_value)
    (enumerate workingD srcSArr) →
  (∀ o, o ∈ enumerate workingD srcSArr → v.[o] = value o) →
  ∃ v' idx',
    reduceSelected op srcDArr srcSArr (Z.of_nat (length srcDArr))
      sel acc v idx workingD = Some (v', idx')
    ∧ length v' = length v
    ∧ length idx' = length idx
    ∧ element_count (collapsed workingD sel) ≤ acc
    ∧ ∀ o, o ∈ enumerate (collapsed workingD sel) srcSArr →
           o ∈ enumerate workingD srcSArr
           ∧ v'.[o] = foldl along value sel o.
Proof.
  induction sel as [|dim rest IH];
    intros acc v idx workingD value Hs Hd Hpos Hsel Hin -> Hmax Hidx
      Hnd Hb Hv.
  { exists v, idx. split_and!; try done. intros o Ho. split; [done|].
    by apply Hv. }
  apply NoDup_cons in Hsel as [Hfresh Hrest].
  destruct (Hin dim) as [Hdim Hsame]; [left|].
  assert (Z.to_nat dim < length workingD)%nat as Hlt by lia.
  assert (1 ≤ workingD !!! Z.to_nat dim) as Hsize.
  { rewrite Forall_forall in Hpos. apply Hpos.
    apply list_elem_of_lookup_total_2. lia. }
  rewrite Hd. unfold op.
  rewrite (reduceSelected_cons L) by done. fold op.
  set (size := workingD !!! Z.to_nat dim).
  set (stride := srcSArr !!! Z.to_nat dim).
  set (workingD' := <[Z.to_nat dim := 1]> workingD).
  set (bases := enumerate workingD' srcSArr).
  pose proof (lines_of_view (Z.to_nat dim) workingD srcSArr Hs Hlt) as Hlines.
  rewrite <- enumerate_collapsed in Hlines by done.
  fold workingD' bases size stride in Hlines.
  assert (lines_apart v bases size stride) as Hapart.
  { split; cbv zeta; by rewrite Hlines. }
  destruct (L_lines size stride v bases Hsize Hapart)
    as (v1 & -> & Hlen1 & Hbase).
  cbn [mbind option_bind].
  assert (element_count workingD' ≤ element_count workingD) as Hle.
  { unfold workingD'. rewrite element_count_collapsed by done.
    rewrite (element_count_delete _ _ Hlt).
    pose proof (element_count_positive _
                  (Forall_delete_1 (Z.to_nat dim) _ Hpos)).
    fold size. nia. }
  assert (∀ o, o ∈ bases → o ∈ enumerate workingD srcSArr) as Hsub.
  { intros o Ho. rewrite <- Hlines. apply list_elem_of_bind.
    exists o. split; [|done]. by apply base_in_line_offsets. }
  assert (length bases ≤ length idx)%nat as Hfit.
  { apply Nat2Z.inj_le. unfold bases.
    rewrite length_enumerate; [lia|by unfold workingD'; rewrite length_insert|].
    eapply Forall_impl; [by apply Forall_insert_1|]. simpl. lia. }
  destruct (IH (element_count workingD') v1
              ((Some <$> bases) ++ drop (length bases) idx) workingD'
              (along value dim))
    as (v' & idx' & Hrun & Hlen' & Hidx' & Hcount & Hval).
  - unfold workingD'. by rewrite length_insert.
  - unfold workingD'. by rewrite length_insert.
  - by apply Forall_insert_1.
  - done.
  - intros d Hdr. destruct (Hin d) as [Hrange Heq]; [by right|].
    unfold workingD'. rewrite length_insert. split; [done|].
    rewrite list_lookup_total_insert_ne; [done|].
    intros Hn. apply Z2Nat.inj in Hn; [|lia..]. by subst d.
  - done.
  - lia.
  - rewrite length_app, length_fmap, length_drop. lia.
  - apply (NoDup_bases bases size stride Hsize). by rewrite Hlines.
  - apply Forall_forall. intros o Ho. rewrite Hlen1.
    rewrite Forall_forall in Hb. by apply Hb, Hsub.
  - intros o Ho. rewrite (Hbase o Ho). unfold along, line.
    rewrite Hsame. fold size stride. f_equal.
    apply list_fmap_ext. intros _ j Hj%list_elem_of_lookup_2.
    apply elem_of_seqZ in Hj. cbn. apply Hv. rewrite <- Hlines.
    apply list_elem_of_bind. exists o. split; [|done].
    apply list_elem_of_fmap. exists j. split; [done|].
    apply elem_of_seqZ. lia.
  - exists v', idx'. rewrite Hd in Hrun. split_and!; try done.
    + congruence.
    + rewrite Hidx', length_app, length_fmap, length_drop. lia.
    + cbn [collapsed foldl] in *. fold workingD'.
      unfold collapsed in Hcount. lia.
    + intros o Ho. destruct (Hval o Ho) as [Hob Hov]. split; [|done].
      by apply Hsub.
Qed.

End Passes.

(** ** A folding reduction from end to end *)

Lemma collapsed_permuted shape l l' :
  l ≡ₚ l' → collapsed shape l = collapsed shape l'.
Proof.
  unfold collapsed. intros Hp. revert shape.
  induction Hp as [|x l1 l2 _ IH|x y l1|l1 l2 l3 _ IH1 _ IH2]; intros shape.
  - done.
  - simpl. apply IH.
  - simpl. destruct (decide (Z.to_nat x = Z.to_nat y)) as [->|Hne]; [done|].
    by rewrite list_insert_insert_ne.
  - by rewrite IH1.
Qed.

Lemma strided_copy_total shape src srcStrides dst dstStrides :
  Forall (in_bounds src) (offset srcStrides <$> coordinates shape) →
  Forall (in_bounds dst) (offset dstStrides <$> coordinates shape) →
  ∃ dst', strided_copy shape src srcStrides dst dstStrides = Some dst'
          ∧ length dst' = length dst.
Proof.
  unfold strided_copy. revert dst.
  induction (coordinates shape) as [|c cs IH]; intros dst Hs Hd.
  { by exists dst. }
  rewrite fmap_cons in Hs, Hd.
  apply Forall_cons in Hs as [Hc Hs]. apply Forall_cons in Hd as [Hdc Hd].
  cbn [for_each]. rewrite load_total by done. cbn [mbind option_bind].
  rewrite store_in_bounds by done. cbn [mbind option_bind].
  destruct (IH (<[Z.to_nat (offset dstStrides c) :=
                   src !!! Z.to_nat (offset srcStrides c)]> dst))
    as (dst' & -> & Hlen); [done| |].
  - eapply Forall_impl; [done|]. unfold in_bounds. intros o.
    by rewrite length_insert.
  - exists dst'. by rewrite Hlen, length_insert.
Qed.

Section Accepted.
Context `{Externals}.

Lemma first_of_axis_None ndims dstDArr l :
  first_of (axis_check ndims dstDArr <$> l) = None →
  Forall (λ d, 0 ≤ d < ndims ∧ dstDArr !!! Z.to_nat d ≤ 1) l.
Proof.
  induction l as [|d l IH]; [constructor|]. simpl.
  unfold axis_check at 1, violated.
  destruct (decide (0 ≤ d < ndims)); [|done].
  case_bool_decide; [done|]. intros Hl. constructor; [lia|by apply IH].
Qed.

(** What a request that violates no check is like. *)
Lemma first_violation_None type v1 d1 s1 v2 d2 s2 sel :
  first_violation type
    (Arrays (Some v1) (Some d1) (Some s1) (Some v2) (Some d2) (Some s2)
       (Some sel)) = None →
  length s1 = length d1 ∧ length d2 = length d1 ∧ length s2 = length d1
  ∧ NoDup sel
  ∧ Forall (λ d, 0 ≤ d < Z.of_nat (length d1) ∧ d2 !!! Z.to_nat d ≤ 1)
      (sort sel)
  ∧ jint_product (Z.of_nat (length v2)) d1 (sort sel) = Z.of_nat (length v1).
Proof.
  unfold first_violation. rewrite first_of_app.
  destruct (first_of (entry_checks _ _)) eqn:Hentry; [done|].
  apply entry_checks_None in Hentry as (_ & Hs & Hd & Hds & _).
  unfold axis_checks. cbv zeta.
  cbn [srcV srcD dstV dstD selectedDims default from_option id app].
  rewrite first_of_cons_violated. case_bool_decide as Hnd; [done|].
  rewrite first_of_app.
  destruct (first_of (axis_check _ _ <$> _)) eqn:Haxes; [done|].
  apply first_of_axis_None in Haxes.
  rewrite first_of_cons_violated. case_bool_decide as Hprod; [done|].
  intros _. split_and!; try done.
  by rewrite <- (sort_Permutation sel).
Qed.

End Accepted.

Section EndToEnd.
Context `{Externals}.
Context (L : Z → Z → Z → list jdouble → option (list jdouble)).
Context (F : list jdouble → jdouble).
Context (L_lines : ∀ size stride v bases,
  1 ≤ size → lines_apart v bases size stride →
  ∃ v', for_each bases (λ b, L b size stride) v = Some v'
        ∧ length v' = length v
        ∧ ∀ b, b ∈ bases → v' !!! Z.to_nat b = F (line v b size stride)).

Let op : rrOp_t := λ working workingIndices nindices size stride,
  rrLines (λ workingIndex, L workingIndex size stride)
    working workingIndices nindices.

Lemma rrOp_reduces type a srcVArr srcDArr srcSArr dstVArr dstDArr dstSArr sel :
  a = Arrays (Some srcVArr) (Some srcDArr) (Some srcSArr)
        (Some dstVArr) (Some dstDArr) (Some dstSArr) (Some sel) →
  select type = Some op →
  first_violation type a = None →
  mallocH (malloc_size (Z.of_nat (length srcVArr))
             (Z.of_nat (length srcDArr)) (Z.of_nat (length dstVArr))) = true →
  Forall (λ d, 1 ≤ d) srcDArr →
  element_count srcDArr = Z.of_nat (length srcVArr) →
  srcDArr ≠ [] →
  Z.of_nat (length srcVArr) + Z.of_nat (length srcDArr)
  + 2 * (Z.of_nat (length srcDArr) - 1) + Z.of_nat (length dstVArr)
  ≤ JInt.max_value →
  NoDup (enumerate srcDArr srcSArr) →
  Forall (in_bounds srcVArr) (enumerate srcDArr srcSArr) →
  dstDArr = collapsed srcDArr sel →
  element_count dstDArr = Z.of_nat (length dstVArr) →
  NoDup (enumerate dstDArr dstSArr) →
  Forall (in_bounds dstVArr) (enumerate dstDArr dstSArr) →
  ∃ v, rrOp type a = Returned (set_dstV (sorted a) v)
       ∧ length v = length dstVArr
       ∧ ∀ c, c ∈ coordinates dstDArr →
              load v (offset dstSArr c)
              = Some (reduced F srcVArr srcDArr srcSArr (sort sel)
                        (offset srcSArr c)).
Proof.
  intros -> Hop Hv Hmalloc Hpos Hcount Hdims Hsum Hsnd Hsb Hshape Hdcount
    Hdnd Hdb.
  destruct (first_violation_None _ _ _ _ _ _ _ _ Hv)
    as (Hs & Hd & Hds & Hnd & Haxes & _).
  pose proof (element_count_positive _ Hpos) as Hne.
  assert (Z.of_nat (length srcVArr) ≤ JInt.max_value) as Hmax.
  { destruct srcDArr; [done|]. simpl length in Hsum. lia. }
  assert (Scratch.fits (Z.of_nat (length srcVArr))
            (Z.of_nat (length srcDArr)) (Z.of_nat (length dstVArr)) = true)
    as Hfits.
  { apply fits_lengths; [|done..]. intros ->. simpl in Hcount. lia. }
  rewrite rrOp_validation, Hv, Hop.
  cbn [srcV srcD srcS dstV dstD dstS selectedDims].
  unfold rrOp_compute. rewrite bool_decide_eq_false_2 by lia.
  rewrite Hmalloc. cbn [negb].
  assert (Forall (λ d, 1 ≤ d) dstDArr) as Hdpos.
  { rewrite Hshape. clear -Hpos. unfold collapsed. revert srcDArr Hpos.
    induction sel as [|d l IH]; intros shape Hpos; [done|].
    simpl. by apply IH, Forall_insert_1. }
  rewrite reduce_strided_copy;
    [|done..|eapply Forall_impl; [done|simpl; lia]|done].
  rewrite Hfits. cbn [negb].
  destruct (reduceSelected_lines L F srcDArr srcSArr L_lines (sort sel)
              (Z.of_nat (length srcVArr)) srcVArr
              (replicate (length srcVArr) None) srcDArr
              (λ o, srcVArr !!! Z.to_nat o))
    as (v' & idx' & Hred & Hlen' & Hidx' & Hfit & Hval); try done.
  - by rewrite sort_Permutation.
  - intros d Hdin. rewrite Forall_forall in Haxes.
    destruct (Haxes d Hdin) as [Hr _]. done.
  - by rewrite length_replicate.
  - eapply Forall_impl; [done|]. unfold in_bounds. simpl. lia.
  - fold op in Hred. rewrite Hred.
    rewrite (collapsed_permuted srcDArr (sort sel) sel) in Hfit, Hval
      by apply sort_Permutation.
    rewrite <- Hshape in Hfit, Hval. cbn [mbind option_bind].
    unfold fill. rewrite decide_True.
    2: { apply Nat2Z.inj_le. rewrite length_enumerate; [|lia|].
         - rewrite Hidx', length_replicate. lia.
         - eapply Forall_impl; [done|]. simpl. lia. }
    cbn [mbind option_bind].
    assert (length srcSArr = length dstDArr) as Hsd by lia.
    assert (length dstSArr = length dstDArr) as Hdd by lia.
    destruct (strided_copy_total dstDArr v' srcSArr dstVArr dstSArr)
      as (v & Hcopy & Hlen).
    + rewrite <- enumerate_offsets by done. apply Forall_forall.
      intros o Ho. destruct (Hval o Ho) as [Hin _].
      rewrite Forall_forall in Hsb. unfold in_bounds. rewrite Hlen'.
      by apply Hsb.
    + by rewrite <- enumerate_offsets.
    + rewrite Hcopy. exists v. split_and!; try done.
      intros c Hc.
      rewrite (strided_copy_lookup _ _ _ _ _ _ _ Hcopy);
        [|by rewrite <- enumerate_offsets|done].
      assert (offset srcSArr c ∈ enumerate dstDArr srcSArr) as Ho.
      { rewrite enumerate_offsets by done. by apply list_elem_of_fmap_2. }
      destruct (Hval _ Ho) as [Hin Heq].
      rewrite load_total.
      * f_equal. apply Heq.
      * rewrite Hlen'. rewrite Forall_forall in Hsb. by apply Hsb.
Qed.

End EndToEnd.

Lemma rrFold_lines g size stride v bases :
  1 ≤ size → lines_apart v bases size stride →
  ∃ v', for_each bases (λ b, rrFold g b size stride) v = Some v'
        ∧ length v' = length v
        ∧ ∀ b, b ∈ bases →
               v' !!! Z.to_nat b = fold_line g (line v b size stride).
Proof.
  intros Hsize Hapart.
  destruct (fold_lines size stride Hsize g v bases v eq_refl Hapart)
    as (v' & Hrun & Hlen & Hin & _); [done|].
  exists v'. split_and!; try done.
  intros b Hb. rewrite (Hin b Hb), line_cons by done. simpl.
  by rewrite <- list_fmap_compose.
Qed.

Lemma rrVarLine_lines size stride v bases :
  1 ≤ size → lines_apart v bases size stride →
  ∃ v', for_each bases (λ b, rrVarLine b size stride) v = Some v'
        ∧ length v' = length v
        ∧ ∀ b, b ∈ bases →
               v' !!! Z.to_nat b = population_variance (line v b size stride).
Proof.
  intros Hsize Hapart.
  destruct (var_lines size stride Hsize v bases v eq_refl Hapart)
    as (v' & Hrun & Hlen & Hin & _); [done|].
  exists v'. split_and!; try done. intros b Hb. by apply Hin.
Qed.

(** X12: a folding reduction from end to end.  For a request that passes
    validation and gets its scratch block, whose views have at least one
    dimension and a number of scratch jints, [srcLen + ndims + 2 * (ndims -
    1) + dstLen], that fits a jint, whose source has lengths of at least 1
    with as many values as their product, whose destination has the shape
    of the source with the selected axes at 1 and as many values, and whose
    two views map their coordinates to pairwise distinct offsets inside
    their buffers, [rrOp] returns, and the destination holds at every
    coordinate the source values folded along the selected axes: one axis
    after the other in ascending order, each line from its first cell on.
    ([rrSum], [rrProd], [rrMax] and [rrMin] are [rrFolding] with [+], [*],
    [std::max] and [std::min].) *)
Theorem rrOp_folds_selected_axes `{Externals} (type : Z)
    (g : jdouble → jdouble → jdouble) (a : arrays)
    (srcVArr : list jdouble) (srcDArr srcSArr : list Z)
    (dstVArr : list jdouble) (dstDArr dstSArr sel : list Z) :
  a = Arrays (Some srcVArr) (Some srcDArr) (Some srcSArr)
        (Some dstVArr) (Some dstDArr) (Some dstSArr) (Some sel) →
  select type = Some (rrFolding g) →
  first_violation type a = None →
  mallocH (malloc_size (Z.of_nat (length srcVArr))
             (Z.of_nat (length srcDArr)) (Z.of_nat (length dstVArr))) = true →
  Forall (λ d, 1 ≤ d) srcDArr →
  element_count srcDArr = Z.of_nat (length srcVArr) →
  srcDArr ≠ [] →
  Z.of_nat (length srcVArr) + Z.of_nat (length srcDArr)
  + 2 * (Z.of_nat (length srcDArr) - 1) + Z.of_nat (length dstVArr)
  ≤ JInt.max_value →
  NoDup (enumerate srcDArr srcSArr) →
  Forall (in_bounds srcVArr) (enumerate srcDArr srcSArr) →
  dstDArr = collapsed srcDArr sel →
  element_count dstDArr = Z.of_nat (length dstVArr) →
  NoDup (enumerate dstDArr dstSArr) →
  Forall (in_bounds dstVArr) (enumerate dstDArr dstSArr) →
  ∃ v, rrOp type a = Returned (set_dstV (sorted a) v)
       ∧ length v = length dstVArr
       ∧ ∀ c, c ∈ coordinates dstDArr →
              load v (offset dstSArr c)
              = Some (reduced (fold_line g) srcVArr srcDArr srcSArr (sort sel)
                        (offset srcSArr c)).
Proof. apply (rrOp_reduces (rrFold g)), rrFold_lines. Qed.

Lemma rrOp_folds_selected_axes_witness :
  let a := Arrays (Some [1; 2; 3; 4; 5; 6]%float) (Some [2; 3]) (Some [3; 1])
             (Some [0]%float) (Some [1; 1]) (Some [7; 7]) (Some [1; 0]) in
  ∃ v, rrOp (H := sample) 0 a = Returned (set_dstV (sorted a) v)
       ∧ load v 0 = Some (((1 + 4) + (2 + 5)) + (3 + 6))%float.
Proof.
  intros a.
  destruct (rrOp_folds_selected_axes (H := sample) 0 PrimFloat.add a
              [1; 2; 3; 4; 5; 6]%float [2; 3] [3; 1] [0]%float [1; 1] [7; 7]
              [1; 0] eq_refl eq_refl)
    as (v & Hrun & _ & Hval).
  - vm_compute. reflexivity.
  - reflexivity.
  - repeat constructor; lia.
  - reflexivity.
  - done.
  - vm_compute. discriminate.
  - apply (bool_decide_unpack _). vm_compute. reflexivity.
  - repeat constructor; simpl; lia.
  - reflexivity.
  - reflexivity.
  - apply (bool_decide_unpack _). vm_compute. reflexivity.
  - repeat constructor; simpl; lia.
  - exists v. split; [exact Hrun|].
    apply (Hval [0; 0]). apply (bool_decide_unpack _). vm_compute. reflexivity.
Defined.

(** X13: a variance reduction from end to end.  Under the conditions of
    X12, [rrOp] with [rrVar] returns, and the destination holds at every
    coordinate the population variance along the first selected axis, then
    the population variance of these variances along the next one, and so
    on in ascending order: a later pass reads first cells only, which hold
    the variances and not the squared deviations. *)
Theorem rrOp_variance_of_selected_axes `{Externals} (type : Z) (a : arrays)
    (srcVArr : list jdouble) (srcDArr srcSArr : list Z)
    (dstVArr : list jdouble) (dstDArr dstSArr sel : list Z) :
  a = Arrays (Some srcVArr) (Some srcDArr) (Some srcSArr)
        (Some dstVArr) (Some dstDArr) (Some dstSArr) (Some sel) →
  select type = Some rrVar →
  first_violation type a = None →
  mallocH (malloc_size (Z.of_nat (length srcVArr))
             (Z.of_nat (length srcDArr)) (Z.of_nat (length dstVArr))) = true →
  Forall (λ d, 1 ≤ d) srcDArr →
  element_count srcDArr = Z.of_nat (length srcVArr) →
  srcDArr ≠ [] →
  Z.of_nat (length srcVArr) + Z.of_nat (length srcDArr)
  + 2 * (Z.of_nat (length srcDArr) - 1) + Z.of_nat (length dstVArr)
  ≤ JInt.max_value →
  NoDup (enumerate srcDArr srcSArr) →
  Forall (in_bounds srcVArr) (enumerate srcDArr srcSArr) →
  dstDArr = collapsed srcDArr sel →
  element_count dstDArr = Z.of_nat (length dstVArr) →
  NoDup (enumerate dstDArr dstSArr) →
  Forall (in_bounds dstVArr) (enumerate dstDArr dstSArr) →
  ∃ v, rrOp type a = Returned (set_dstV (sorted a) v)
       ∧ length v = length dstVArr
       ∧ ∀ c, c ∈ coordinates dstDArr →
              load v (offset dstSArr c)
              = Some (reduced population_variance srcVArr srcDArr srcSArr
                        (sort sel) (offset srcSArr c)).
Proof. apply (rrOp_reduces rrVarLine), rrVarLine_lines. Qed.

Lemma rrOp_variance_of_selected_axes_witness :
  let a := Arrays (Some [1; 2; 3; 4; 5; 6]%float) (Some [2; 3]) (Some [3; 1])
             (Some [0; 0]%float) (Some [2; 1]) (Some [1; 1]) (Some [1]) in
  ∃ v, rrOp (H := sample) 4 a = Returned (set_dstV (sorted a) v)
       ∧ load v 1 = Some (population_variance [4; 5; 6]%float).
Proof.
  intros a.
  destruct (rrOp_variance_of_selected_axes (H := sample) 4 a
              [1; 2; 3; 4; 5; 6]%float [2; 3] [3; 1] [0; 0]%float [2; 1]
              [1; 1] [1] eq_refl eq_refl)
    as (v & Hrun & _ & Hval).
  - vm_compute. reflexivity.
  - reflexivity.
  - repeat constructor; lia.
  - reflexivity.
  - done.
  - vm_compute. discriminate.
  - apply (bool_decide_unpack _). vm_compute. reflexivity.
  - repeat constructor; simpl; lia.
  - reflexivity.
  - reflexivity.
  - apply (bool_decide_unpack _). vm_compute. reflexivity.
  - repeat constructor; simpl; lia.
  - exists v. split; [exact Hrun|].
    apply (Hval [1; 0]). apply (bool_decide_unpack _). vm_compute. reflexivity.
Defined.

(** ** Validation and the values *)

Section Values.
Context `{Externals}.

Lemma first_violation_with_values type a src dst v1 v2 :
  srcV a = Some v1 → dstV a = Some v2 →
  length src = length v1 → length dst = length v2 →
  first_violation type (with_values a src dst) = first_violation type a.
Proof.
  intros Hv1 Hv2 Hl1 Hl2.
  unfold first_violation, entry_checks, axis_checks, with_values.
  cbn [srcV srcD srcS dstV dstD dstS selectedDims].
  rewrite Hv1, Hv2. cbn [default from_option id]. rewrite Hl1, Hl2.
  do 3 f_equal. do 2 f_equal. apply bool_decide_ext. intuition congruence.
Qed.

End Values.

(** X15: whether a request is rejected, and with which exception, does not
    depend on the values: two requests that differ only in the contents of
    source and destination buffers of the same lengths raise the same
    exceptions. *)
Theorem rejection_ignores_values `{Externals} (type : Z) (a : arrays)
    (src dst v1 v2 : list jdouble) :
  srcV a = Some v1 → dstV a = Some v2 →
  length src = length v1 → length dst = length v2 →
  ∀ e, (∃ r, rrOp type a = Thrown e r)
       ↔ (∃ r, rrOp type (with_values a src dst) = Thrown e r).
Proof.
  intros Hv1 Hv2 Hl1 Hl2 e.
  rewrite !rrOp_validation.
  rewrite (first_violation_with_values type a src dst v1 v2) by done.
  destruct (first_violation type a) as [e'|] eqn:Hv.
  { split; intros [r Hr]; simplify_eq; eauto. }
  destruct (first_violation_None_inv _ _ Hv)
    as (op & v1' & d1 & s1 & v2' & d2 & s2 & sel & -> & ->).
  simpl in Hv1, Hv2. simplify_eq.
  cbn [with_values srcV srcD srcS dstV dstD dstS selectedDims].
  unfold rrOp_compute. rewrite Hl1, Hl2.
  case_bool_decide; [split; intros [r Hr]; done|].
  destruct (mallocH _); cbn [negb].
  - split; intros [r Hr]; by destruct (reduce _ _ _ _ _ _ _ _).
  - split; intros [r Hr]; simplify_eq; eauto.
Qed.

Lemma rejection_ignores_values_witness :
  let a := Arrays (Some [1; 2; 3; 4; 5; 6]%float) (Some [2; 3]) (Some [3; 1])
             (Some [0; 0]%float) (Some [1; 2]) (Some [2; 1]) (Some [0]) in
  ∃ r, rrOp (H := sample) 0
         (with_values a [6; 5; 4; 3; 2; 1]%float [9; 9]%float)
       = Thrown ShapeMismatch r.
Proof.
  intros a.
  apply (rejection_ignores_values (H := sample) 0 a
           [6; 5; 4; 3; 2; 1]%float [9; 9]%float
           [1; 2; 3; 4; 5; 6]%float [0; 0]%float
           eq_refl eq_refl eq_refl eq_refl ShapeMismatch).
  exists a. vm_compute. reflexivity.
Defined.

(** ** A destination of another shape *)

Lemma for_each_None {I St} (l : list I) (body : I → St → option St) i s :
  i ∈ l → (∀ s, body i s = None) → for_each l body s = None.
Proof.
  intros Hi Hnone. revert s. induction l as [|x l IH]; intros s.
  { by apply elem_of_nil in Hi. }
  simpl. apply elem_of_cons in Hi as [<-|Hi]; [by rewrite Hnone|].
  destruct (body x s) as [s'|]; [|done]. simpl. by apply IH.
Qed.

(** X14: the shape of the destination is checked on the selected axes only.
    With nothing selected, a destination of as many values as the source
    passes validation whatever its shape; the scatter then reads the working
    copy at the source offset of every coordinate of the destination's shape,
    and the call runs into an access outside that copy as soon as one of
    these offsets is outside the source values. *)
Theorem unselected_axes_are_not_compared `{Externals} (type : Z) (a : arrays)
    (srcVArr : list jdouble) (srcDArr srcSArr : list Z)
    (dstVArr : list jdouble) (dstDArr dstSArr c : list Z) :
  a = Arrays (Some srcVArr) (Some srcDArr) (Some srcSArr)
        (Some dstVArr) (Some dstDArr) (Some dstSArr) (Some []) →
  first_of (entry_checks type a) = None →
  length dstVArr = length srcVArr →
  srcVArr ≠ [] →
  mallocH (malloc_size (Z.of_nat (length srcVArr))
             (Z.of_nat (length srcDArr)) (Z.of_nat (length dstVArr))) = true →
  Forall (λ d, 0 ≤ d) dstDArr →
  element_count dstDArr = Z.of_nat (length dstVArr) →
  c ∈ coordinates dstDArr →
  ¬ in_bounds srcVArr (offset srcSArr c) →
  first_violation type a = None ∧ rrOp type a = Undefined.
Proof.
  intros -> Hentry Hlen Hne Hmalloc Hpos Hcount Hc Hout.
  assert (first_violation type
            (Arrays (Some srcVArr) (Some srcDArr) (Some srcSArr)
               (Some dstVArr) (Some dstDArr) (Some dstSArr) (Some []))
          = None) as Hv.
  { unfold first_violation. rewrite first_of_app, Hentry.
    unfold axis_checks. cbv zeta.
    cbn [srcV srcD dstV dstD selectedDims default from_option id].
    change (sort []) with (@nil Z). cbn [app fmap list_fmap].
    rewrite first_of_cons_violated.
    rewrite bool_decide_eq_false_2 by (intros Hn; apply Hn; constructor).
    unfold jint_product. simpl.
    rewrite bool_decide_eq_false_2; [done|]. intros Hn. apply Hn. lia. }
  split; [done|].
  destruct (entry_checks_None _ _ _ _ _ _ _ _ Hentry)
    as ([op Hop] & Hs & Hd & Hds & _).
  rewrite rrOp_validation, Hv, Hop.
  cbn [srcV srcD srcS dstV dstD dstS selectedDims].
  change (sort []) with (@nil Z). unfold rrOp_compute.
  rewrite bool_decide_eq_false_2 by (destruct srcVArr; simpl; [done|lia]).
  rewrite Hmalloc. cbn [negb]. rewrite reduce_strided_copy by done.
  destruct (Scratch.fits _ _ _); [|done].
  cbn [negb reduceSelected mbind option_bind].
  destruct (fill _ _); [|done]. cbn [mbind option_bind].
  unfold strided_copy. rewrite (for_each_None _ _ c); [done..|].
  intros dst. by rewrite load_None.
Qed.

Lemma unselected_axes_are_not_compared_witness :
  let a := Arrays (Some [1; 2; 3; 4; 5; 6]%float) (Some [2; 3]) (Some [3; 1])
             (Some [0; 0; 0; 0; 0; 0]%float) (Some [3; 2]) (Some [2; 1])
             (Some []) in
  first_violation (H := sample) 0 a = None
  ∧ rrOp (H := sample) 0 a = Undefined.
Proof.
  intros a.
  apply (unselected_axes_are_not_compared (H := sample) 0 a
           [1; 2; 3; 4; 5; 6]%float [2; 3] [3; 1]
           [0; 0; 0; 0; 0; 0]%float [3; 2] [2; 1] [2; 0] eq_refl).
  - vm_compute. reflexivity.
  - reflexivity.
  - done.
  - reflexivity.
  - repeat constructor; lia.
  - reflexivity.
  - apply (bool_decide_unpack _). vm_compute. reflexivity.
  - unfold in_bounds. simpl. lia.
Defined.

(** ** Running a request again *)

Section Writes.
Context {I A : Type} (k : I → option (Z * A)).

(** A loop of writes [a[p] = x] whose places and values do not depend on
    the array. *)
Let body (i : I) (a : list A) : option (list A) :=
  '(p, x) ← k i; store a p x.

Lemma for_each_writes_length l a a' :
  for_each l body a = Some a' → length a' = length a.
Proof.
  revert a. induction l as [|i l IH]; intros a Hrun; simplify_eq/=; [done|].
  destruct (body i a) as [a1|] eqn:Hb; simplify_eq/=.
  rewrite (IH _ Hrun). unfold body in Hb.
  destruct (k i) as [[p x]|]; simplify_eq/=. by eapply store_length.
Qed.

(** A cell written before the loop and written again after it holds what
    it would hold without the first write. *)
Lemma for_each_writes_insert l a a1 p y :
  for_each l body a = Some a1 →
  ∃ a2, for_each l body (<[p := y]> a) = Some a2
        ∧ length a2 = length a1
        ∧ ∀ x, <[p := x]> a2 = <[p := x]> a1.
Proof.
  revert a. induction l as [|i l IH]; intros a Hrun; simplify_eq/=.
  { exists (<[p := y]> a1). split_and!; [done|by rewrite length_insert|].
    intros x. by rewrite list_insert_insert_eq. }
  destruct (body i a) as [a'|] eqn:Hb; simplify_eq/=. unfold body in *.
  destruct (k i) as [[q z]|]; simplify_eq/=.
  apply store_Some in Hb as [Hq ->].
  rewrite store_in_bounds by (by rewrite length_insert). simpl.
  destruct (decide (p = Z.to_nat q)) as [->|Hne].
  - rewrite list_insert_insert_eq. exists a1. by split_and!.
  - rewrite list_insert_insert_ne by done. by apply IH.
Qed.

(** Running the loop on the array it left changes nothing. *)
Lemma for_each_writes_again l a a' :
  for_each l body a = Some a' → for_each l body a' = Some a'.
Proof.
  revert a a'. induction l as [|i l IH] using rev_ind; intros a a' Hrun.
  { by simplify_eq/=. }
  rewrite for_each_app in *.
  destruct (for_each l body a) as [a1|] eqn:Hl; simplify_eq/=.
  destruct (body i a1) as [a2|] eqn:Hb; simplify_eq/=. unfold body in Hb.
  destruct (k i) as [[p x]|] eqn:Hk; simplify_eq/=.
  apply store_Some in Hb as [Hp ->].
  destruct (for_each_writes_insert l a1 a1 (Z.to_nat p) x (IH _ _ Hl))
    as (a2 & -> & Hlen & Hsame).
  simpl. unfold body. rewrite Hk. simpl.
  rewrite store_in_bounds by (by rewrite Hlen). by rewrite Hsame.
Qed.

End Writes.

Lemma scatter_again workingV workingIndices dstIndices dstLen dst dst' :
  scatter workingV workingIndices dstIndices dstLen dst = Some dst' →
  length dst' = length dst
  ∧ scatter workingV workingIndices dstIndices dstLen dst' = Some dst'.
Proof.
  unfold scatter.
  set (k := λ i : Z, d ← load_cell dstIndices i;
                     w ← load_cell workingIndices i;
                     v ← load workingV w; Some (d, v)).
  assert (∀ a, for_each (seqZ 0 dstLen)
                 (λ i dstVArr,
                    d ← load_cell dstIndices i;
                    w ← load_cell workingIndices i;
                    v ← load workingV w; store dstVArr d v) a
               = for_each (seqZ 0 dstLen)
                   (λ i a, '(p, x) ← k i; store a p x) a) as Heq.
  { intros a. apply for_each_ext. intros i s _. unfold k.
    destruct (load_cell dstIndices i); simpl; [|done].
    destruct (load_cell workingIndices i); simpl; [|done].
    by destruct (load workingV _). }
  rewrite !Heq. intros Hrun. split.
  - by eapply for_each_writes_length.
  - by eapply for_each_writes_again.
Qed.

Section Again.
Context `{Externals}.

Lemma sort_sort l : sort (sort l) = sort l.
Proof. apply sort_permuted, sort_Permutation. Qed.

Lemma sorted_sorted a : sorted (sorted a) = sorted a.
Proof.
  unfold sorted. destruct (selectedDims a) as [l|] eqn:Hl; simpl.
  - unfold set_selectedDims. simpl. by rewrite sort_sort.
  - by rewrite Hl.
Qed.

Lemma first_violation_sorted type a :
  first_violation type (sorted a) = first_violation type a.
Proof.
  unfold sorted. destruct (selectedDims a) as [l|] eqn:Hl; [|done].
  apply (first_violation_permuted type a l (sort l)); [done|].
  symmetry. apply sort_Permutation.
Qed.

Lemma reduce_again op v1 d1 s1 v2 d2 s2 sel v :
  reduce op v1 d1 s1 v2 d2 s2 sel = Some v →
  length v = length v2 ∧ reduce op v1 d1 s1 v d2 s2 sel = Some v.
Proof.
  unfold reduce. cbv zeta. intros Hrun.
  destruct (Scratch.fits _ _ (Z.of_nat (length v2))) eqn:Hfits; [|done].
  cbn [negb] in Hrun.
  destruct (reduceSelected _ _ _ _ _ _ _ _ _) as [[workingV idx]|]; [|done].
  cbn [mbind option_bind] in *.
  destruct (assignMappingIndices idx _ _ _) as [idx'|]; [|done].
  cbn [mbind option_bind] in *.
  destruct (assignMappingIndices (replicate (length v2) None) _ _ _)
    as [dIdx|] eqn:Hd; [|done].
  cbn [mbind option_bind] in *.
  apply scatter_again in Hrun as [Hlen Hrun].
  split; [done|]. rewrite Hlen, Hfits, Hd. cbn [negb mbind option_bind]. done.
Qed.

End Again.

(** X16: the arrays a call leaves are a fixed point of the call, whatever
    the allocator answers when the same request is run again on them (the
    selected dimensions sorted, the destination written).  After a return,
    the second call returns and changes nothing more, or fails to allocate
    and changes nothing; after an exception of the validation, it raises
    the same exception and changes nothing; after a failed allocation, it
    is the first request run with the allocator's second answer.  This
    holds for every operator and every layout validator. *)
Theorem rerun_changes_nothing `{Externals} (again : Z → bool)
    (type : Z) (a : arrays) :
  let rerun := rrOp (H := with_allocator H again) type in
  match rrOp type a with
  | Returned a' =>
      rerun a' = Returned a' ∨ rerun a' = Thrown AllocationFailure a'
  | Thrown e a' =>
      if decide (e = AllocationFailure) then rerun a' = rerun a
      else rerun a' = Thrown e a'
  | Undefined => True
  end.
Proof.
  intros rerun. unfold rerun. clear rerun.
  assert (∀ x, first_violation (H := with_allocator H again) type x
               = first_violation type x) as Hsame by done.
  assert (select (H := with_allocator H again) type = select type) as Hsel
    by done.
  rewrite (rrOp_validation type a).
  destruct (first_violation type a) as [e|] eqn:Hv.
  { rewrite decide_False
      by (intros ->; by apply (first_violation_not_allocation type a)).
    rewrite rrOp_validation, Hsame.
    destruct (after_sort e) eqn:He.
    - by rewrite first_violation_sorted, Hv, He, sorted_sorted.
    - by rewrite Hv, He. }
  destruct (first_violation_None_inv _ _ Hv)
    as (op & v1 & d1 & s1 & v2 & d2 & s2 & sel & Hop & ->).
  rewrite Hop. cbn [srcV srcD srcS dstV dstD dstS selectedDims].
  set (a := Arrays (Some v1) (Some d1) (Some s1) (Some v2) (Some d2)
              (Some s2) (Some sel)) in *.
  assert (sorted a = Arrays (Some v1) (Some d1) (Some s1) (Some v2) (Some d2)
                       (Some s2) (Some (sort sel))) as Hsorted by done.
  assert (rrOp (H := with_allocator H again) type (sorted a)
          = rrOp (H := with_allocator H again) type a) as Hagain.
  { rewrite !(rrOp_validation (H := with_allocator H again)), !Hsame,
      first_violation_sorted, Hv, Hsel, Hop, sorted_sorted.
    rewrite Hsorted. cbn [srcV srcD srcS dstV dstD dstS selectedDims a].
    by rewrite sort_sort. }
  unfold rrOp_compute.
  case_bool_decide as Hlen.
  { left. rewrite Hagain, rrOp_validation, Hsame, Hv, Hsel, Hop.
    cbn [srcV srcD srcS dstV dstD dstS selectedDims a].
    unfold rrOp_compute. by rewrite bool_decide_eq_true_2. }
  destruct (mallocH _) eqn:Hm; cbn [negb].
  2: { by rewrite decide_True. }
  destruct (reduce op v1 d1 s1 v2 d2 s2 (sort sel)) as [v|] eqn:Hred; [|done].
  apply reduce_again in Hred as [Hlv Hred].
  rewrite Hsorted. unfold set_dstV.
  cbn [srcV srcD srcS dstV dstD dstS selectedDims].
  rewrite !(rrOp_validation (H := with_allocator H again)), Hsame.
  assert (first_violation type
            (Arrays (Some v1) (Some d1) (Some s1) (Some v) (Some d2)
               (Some s2) (Some (sort sel))) = None) as ->.
  { rewrite <- Hv, <- (first_violation_sorted type a), Hsorted.
    apply (first_violation_with_values type
             (Arrays (Some v1) (Some d1) (Some s1) (Some v2) (Some d2)
                (Some s2) (Some (sort sel))) v1 v v1 v2); done. }
  rewrite Hsel, Hop. cbn [srcV srcD srcS dstV dstD dstS selectedDims].
  unfold rrOp_compute. rewrite bool_decide_eq_false_2 by done.
  rewrite Hlv.
  assert (sorted (Arrays (Some v1) (Some d1) (Some s1) (Some v) (Some d2)
                    (Some s2) (Some (sort sel)))
          = Arrays (Some v1) (Some d1) (Some s1) (Some v) (Some d2)
              (Some s2) (Some (sort sel))) as ->.
  { unfold sorted, set_selectedDims. simpl. by rewrite sort_sort. }
  destruct (mallocH (Externals := with_allocator H again) _); cbn [negb].
  - left. by rewrite sort_sort, Hred.
  - by right.
Qed.

(** ** The scratch block *)

(** X17: the six arrays of the scratch block, for a source with values
    and a number of scratch jints, [srcLen + ndims + 2 * (ndims - 1) +
    dstLen], that fits a jint.  [workingV] is followed by room for [srcLen]
    jdoubles, [workingIndices] for [srcLen] jints, [workingD] for [ndims],
    [workingDModified] and [srcSArrModified] for [ndims - 1] each, and
    [dstIndices] for [dstLen] up to the end of the block, which is the size
    handed to [MallocHandler]; the pointers are in ascending order, so that
    no array overlaps the next, exactly when there is at least one
    dimension. *)
Theorem scratch_arrays_fill_the_block (srcLen ndims dstLen : Z) :
  1 ≤ srcLen ≤ JInt.max_value → 0 ≤ ndims → 0 ≤ dstLen →
  srcLen + ndims + 2 * (ndims - 1) + dstLen ≤ JInt.max_value →
  (Sorted Z.le (Scratch.pointers srcLen ndims dstLen) ↔ 1 ≤ ndims)
  ∧ Scratch.workingIndices srcLen - Scratch.workingV = 8 * srcLen
  ∧ Scratch.workingD srcLen - Scratch.workingIndices srcLen = 4 * srcLen
  ∧ Scratch.workingDModified srcLen ndims - Scratch.workingD srcLen
    = 4 * ndims
  ∧ Scratch.srcSArrModified srcLen ndims
    - Scratch.workingDModified srcLen ndims = 4 * (ndims - 1)
  ∧ Scratch.dstIndices srcLen ndims - Scratch.srcSArrModified srcLen ndims
    = 4 * (ndims - 1)
  ∧ malloc_size srcLen ndims dstLen - Scratch.dstIndices srcLen ndims
    = 4 * dstLen.
Proof.
  intros Hs Hn Hd Hsum. split.
  { rewrite <- (fits_iff srcLen ndims dstLen) by done.
    unfold Scratch.fits. by rewrite bool_decide_eq_true. }
  rewrite malloc_size_exact by done.
  unfold JInt.max_value in Hs, Hsum.
  unfold Scratch.workingV, Scratch.workingIndices,
    Scratch.workingD, Scratch.workingDModified, Scratch.srcSArrModified,
    Scratch.dstIndices, JInt.mul, JInt.sub.
  rewrite !(wrap_id (ndims - 1))
    by (unfold JInt.in_range, JInt.min_value, JInt.max_value; lia).
  rewrite !(wrap_id (2 * (ndims - 1)))
    by (unfold JInt.in_range, JInt.min_value, JInt.max_value; lia).
  lia.
Qed.

Lemma scratch_arrays_fill_the_block_witness :
  Sorted Z.le (Scratch.pointers 6 2 3).
Proof.
  apply (proj1 (scratch_arrays_fill_the_block 6 2 3
                  ltac:(unfold JInt.max_value; lia) ltac:(lia) ltac:(lia)
                  ltac:(unfold JInt.max_value; lia))).
  lia.
Defined.

(** Past the jint range the sum wraps: for two arrays of 2^30 + 1 values
    with one dimension the block has 20 bytes. *)
Example scratch_size_overflows :
  malloc_size (2 ^ 30 + 1) 1 (2 ^ 30 + 1) = 20
  ∧ Scratch.fits (2 ^ 30 + 1) 1 (2 ^ 30 + 1) = false.
Proof. by vm_compute. Qed.

(** Without any dimension the index array of the destination starts
    inside the working copy of the values, and the index array of the
    working copy ends past the block. *)
Example scratch_without_dimensions :
  Scratch.dstIndices 1 0 < Scratch.workingIndices 1
  ∧ malloc_size 1 0 1 < Scratch.workingIndices 1 + 4.
Proof. vm_compute. done. Qed.

(** ** The cells that are written *)

(** A property of the state that every turn of a loop keeps holds when
    the loop ends. *)
Lemma for_each_invariant {I St} (P : St → Prop) (l : list I)
    (body : I → St → option St) s s' :
  (∀ i s s', i ∈ l → body i s = Some s' → P s → P s') →
  P s → for_each l body s = Some s' → P s'.
Proof.
  revert s. induction l as [|i l IH]; intros s Hbody Hs Hrun; simplify_eq/=.
  { done. }
  destruct (body i s) as [s1|] eqn:Hb; simplify_eq/=.
  apply (IH s1); [|by eapply Hbody; [left|..]|done].
  intros i' t t' Hi'. apply Hbody. by right.
Qed.

Lemma rrFold_frame g base size stride w w' :
  rrFold g base size stride w = Some w' →
  length w' = length w ∧ ∀ j, j ≠ base → load w' j = load w j.
Proof.
  unfold rrFold. intros Hrun.
  destruct (for_each _ _ _) as [[o v]|] eqn:Hloop; simplify_eq/=.
  apply (for_each_invariant
           (λ '(_, v), length v = length w
                       ∧ ∀ j, j ≠ base → load v j = load w j)) in Hloop;
    [done| |done].
  intros _ [o1 v1] [o2 v2] _ Hb [Hlen Hsame].
  destruct (load v1 base) as [a|]; simplify_eq/=.
  destruct (load v1 o1) as [b|]; simplify_eq/=.
  destruct (store v1 base (g a b)) as [v3|] eqn:Hst; simplify_eq/=.
  split.
  - rewrite <- Hlen. by eapply store_length.
  - intros j Hj. rewrite <- Hsame by done. by eapply load_store_ne.
Qed.

(** X18: the folding reducers write to first cells only.  Whatever the lines
    are (overlapping, the same one twice, with a stride of 0), a call of
    [rrSum], [rrProd], [rrMax] or [rrMin] that stays inside the array leaves
    it with its length, and leaves every cell that is not the first cell of
    one of the [nindices] lines with its value. *)
Theorem folding_reducers_write_first_cells_only
    (g : jdouble → jdouble → jdouble) (w w' : list jdouble)
    (workingIndices : list cell) (nindices size stride : Z) :
  rrFolding g w workingIndices nindices size stride = Some w' →
  length w' = length w
  ∧ ∀ j, (∀ i, 0 ≤ i < nindices → load_cell workingIndices i ≠ Some j) →
         load w' j = load w j.
Proof.
  unfold rrFolding, rrLines. intros Hrun.
  apply (for_each_invariant
           (λ v, length v = length w
                 ∧ ∀ j, (∀ i, 0 ≤ i < nindices →
                              load_cell workingIndices i ≠ Some j) →
                        load v j = load w j)) in Hrun; [done| |done].
  intros i v v' Hi%elem_of_seqZ Hb [Hlen Hsame].
  destruct (load_cell workingIndices i) as [b|] eqn:Hidx; simplify_eq/=.
  apply rrFold_frame in Hb as [Hlen' Hsame']. split; [congruence|].
  intros j Hj. rewrite <- Hsame by done. apply Hsame'.
  intros ->. apply (Hj i); [lia|done].
Qed.

Lemma folding_reducers_write_first_cells_only_witness :
  ∃ w', rrSum [1; 2; 3]%float [Some 0; Some 0] 2 3 1 = Some w'
        ∧ load w' 1 = Some 2%float.
Proof.
  assert (rrSum [1; 2; 3]%float [Some 0; Some 0] 2 3 1
          = Some [1 + 2 + 3 + 2 + 3; 2; 3]%float) as Hrun
    by (vm_compute; reflexivity).
  eexists. split; [exact Hrun|].
  destruct (folding_reducers_write_first_cells_only PrimFloat.add
              [1; 2; 3]%float _ [Some 0; Some 0] 2 3 1 Hrun) as [_ Hsame].
  rewrite Hsame; [reflexivity|].
  intros i Hi. assert (i = 0 ∨ i = 1) as [-> | ->] by lia; done.
Defined.

(** ** The cells of the destination that are written *)

Lemma scatter_frame workingV workingIndices dstIndices dstLen dst dst' :
  scatter workingV workingIndices dstIndices dstLen dst = Some dst' →
  length dst' = length dst
  ∧ ∀ j, (∀ i, load_cell dstIndices i ≠ Some j) → load dst' j = load dst j.
Proof.
  unfold scatter. intros Hrun.
  apply (for_each_invariant
           (λ v, length v = length dst
                 ∧ ∀ j, (∀ i, load_cell dstIndices i ≠ Some j) →
                        load v j = load dst j)) in Hrun; [done| |done].
  intros i v v' _ Hb [Hlen Hsame].
  destruct (load_cell dstIndices i) as [d|] eqn:Hd; simplify_eq/=.
  destruct (load_cell workingIndices i) as [o|]; simplify_eq/=.
  destruct (load workingV o) as [x|]; simplify_eq/=. split.
  - rewrite <- Hlen. by eapply store_length.
  - intros j Hj. rewrite <- Hsame by done. eapply load_store_ne; [done|].
    intros ->. by apply (Hj i).
Qed.

Lemma load_cell_filled (n : nat) xs a i d :
  fill (replicate n None) xs = Some a → load_cell a i = Some d → d ∈ xs.
Proof.
  rewrite fill_Some. intros [_ ->]. unfold load_cell, load.
  case_decide; [|done].
  destruct (_ !! Z.to_nat i) as [c|] eqn:Hc; simpl; [|done].
  intros ->. apply lookup_app_Some in Hc as [Hc|[_ Hc]].
  - apply list_lookup_fmap_Some in Hc as (x & Hx & ?). simplify_eq.
    by eapply list_elem_of_lookup_2.
  - rewrite lookup_drop in Hc. by apply lookup_replicate in Hc as [? _].
Qed.

Lemma reduce_frame op v1 d1 s1 v2 d2 s2 sel v :
  length d2 = length d1 → length s2 = length d1 →
  reduce op v1 d1 s1 v2 d2 s2 sel = Some v →
  length v = length v2
  ∧ ∀ j, j ∉ enumerate d2 s2 → load v j = load v2 j.
Proof.
  intros Hd Hs. unfold reduce. cbv zeta. intros Hrun.
  destruct (Scratch.fits _ _ _); [|done]. cbn [negb] in Hrun.
  destruct (reduceSelected _ _ _ _ _ _ _ _ _) as [[workingV idx]|]; [|done].
  cbn [mbind option_bind] in *.
  destruct (assignMappingIndices idx _ _ _) as [idx'|]; [|done].
  cbn [mbind option_bind] in *.
  destruct (assignMappingIndices (replicate (length v2) None) _ _ _)
    as [dIdx|] eqn:Hfill; [|done].
  cbn [mbind option_bind] in *.
  apply scatter_frame in Hrun as [Hlen Hsame]. split; [done|].
  intros j Hj. apply Hsame. intros i Hi. apply Hj.
  unfold assignMappingIndices in Hfill.
  rewrite Nat2Z.id, !take_ge in Hfill by lia.
  by eapply load_cell_filled.
Qed.

(** X19: only the cells of the destination's view are written.  When [rrOp]
    returns, the destination values have the length they had, and every
    cell whose offset the enumerator does not list for the destination's
    shape and strides holds what it held before the call. *)
Theorem writes_stay_in_the_destination_view `{Externals}
    (type : Z) (a a' : arrays)
    (dstVArr : list jdouble) (dstDArr dstSArr : list Z) :
  rrOp type a = Returned a' →
  dstV a = Some dstVArr → dstD a = Some dstDArr → dstS a = Some dstSArr →
  ∃ v, dstV a' = Some v
       ∧ length v = length dstVArr
       ∧ ∀ j, j ∉ enumerate dstDArr dstSArr → load v j = load dstVArr j.
Proof.
  intros Hrun Hv2 Hd2 Hs2. rewrite rrOp_validation in Hrun.
  destruct (first_violation type a) as [e|] eqn:Hv; [done|].
  destruct (first_violation_None_inv _ _ Hv)
    as (op & v1 & d1 & s1 & v2 & d2 & s2 & sel & Hop & ->).
  simpl in Hv2, Hd2, Hs2. simplify_eq.
  destruct (first_violation_None _ _ _ _ _ _ _ _ Hv) as (_ & Hd & Hs & _).
  rewrite Hop in Hrun. cbn [srcV srcD srcS dstV dstD dstS selectedDims] in Hrun.
  unfold rrOp_compute in Hrun. case_bool_decide.
  { simplify_eq. exists dstVArr. by rewrite sorted_dstV. }
  destruct (mallocH _); [|done]. cbn [negb] in Hrun.
  destruct (reduce _ _ _ _ _ _ _ _) as [v|] eqn:Hred; [|done].
  simplify_eq. exists v. split; [done|]. by eapply reduce_frame.
Qed.

Lemma writes_stay_in_the_destination_view_witness :
  let a := Arrays (Some [1; 2; 3; 4; 5; 6]%float) (Some [2; 3]) (Some [3; 1])
             (Some [7; 7; 7]%float) (Some [1; 3]) (Some [0; 0]) (Some [0]) in
  ∃ v, dstV (set_dstV a [3 + 6; 7; 7]%float) = Some v
       ∧ load v 1 = Some 7%float ∧ load v 2 = Some 7%float.
Proof.
  intros a.
  destruct (writes_stay_in_the_destination_view (H := sample) 0 a
              (set_dstV a [3 + 6; 7; 7]%float)
              [7; 7; 7]%float [1; 3] [0; 0])
    as (v & Hv & _ & Hsame); [vm_compute; reflexivity|reflexivity..|].
  exists v. split; [exact Hv|]. split.
  - rewrite (Hsame 1); [reflexivity|].
    apply (bool_decide_unpack _). vm_compute. reflexivity.
  - rewrite (Hsame 2); [reflexivity|].
    apply (bool_decide_unpack _). vm_compute. reflexivity.
Defined.
